(** * Retrieval, knowledge-graph and scoring core of the compliance assistant

    A shallow embedding of the Python modules [compliance_analyzer.py],
    [rag_service.py], [vector_service.py] and [knowledge_graph.py], with the
    properties stated about them.

    Conventions of the embedding.
    - A Python [str] is a [string] (ASCII text); [len], slicing [s[:n]] and
      [lower()] are the functions of section "Python primitives".
    - A Python [float] that the code computes with ([risk_score]) is a
      primitive binary64 [float]: multiplication and comparison are the
      IEEE-754 operations CPython uses.  Similarity scores, which the code only
      compares, sorts and filters, are rationals [Q]: every finite binary64
      value is a rational and the order is the same.
    - A [dict] whose iteration order matters is an association list; a lookup
      table is a [gmap]; a [set] is a [gset].
    - External collaborators (the text-generation and embedding client, the
      regular-expression engine, the JSON store, [uuid.uuid4]) are Section
      variables. *)

From Stdlib Require Import ZArith QArith Floats Uint63 Ascii String Sorted Lia.
From Stdlib Require Qpower Lqa.
From stdpp Require Import gmap strings list pretty.

#[local] Set Warnings "-inexact-float".

(** ** Python primitives *)

Module Py.

(** [s[:n]] for [0 <= n]. *)
Definition slice_to (n : nat) (s : string) : string := String.substring 0 n s.

(** [sep.join(parts)]. *)
Fixpoint join (sep : string) (parts : list string) : string :=
  match parts with
  | [] => ""
  | [p] => p
  | p :: rest => p +:+ sep +:+ join sep rest
  end.

(** [c.lower()] on one ASCII character. *)
Definition lower_ascii (c : ascii) : ascii :=
  let n := nat_of_ascii c in
  if (65 <=? n)%nat && (n <=? 90)%nat then ascii_of_nat (n + 32) else c.

(** [s.lower()]. *)
Fixpoint lower (s : string) : string :=
  match s with
  | EmptyString => EmptyString
  | String c s' => String (lower_ascii c) (lower s')
  end.

(** [s.startswith(p)]. *)
Fixpoint startswith (p s : string) : bool :=
  match p, s with
  | EmptyString, _ => true
  | String a p', String b s' => if decide (a = b) then startswith p' s' else false
  | String _ _, EmptyString => false
  end.

(** [p in s] for strings: [p] occurs in [s] at some offset. *)
Fixpoint contains (p s : string) : bool :=
  startswith p s ||
  match s with
  | EmptyString => false
  | String _ s' => contains p s'
  end.

(** [max(a, b)] and [min(a, b)] of two floats, as the builtins compute them:
    the first argument is kept unless the second compares strictly beyond
    it (so a NaN first argument is returned unchanged). *)
Definition max (a b : float) : float := if PrimFloat.ltb a b then b else a.
Definition min (a b : float) : float := if PrimFloat.ltb b a then b else a.

(** Nearest integer to [m * 2^e] ([m], [e] integers), ties to even. *)
Definition round_half_even (m e : Z) : Z :=
  if (0 <=? e)%Z then (m * 2 ^ e)%Z
  else
    let d := (2 ^ (- e))%Z in
    let q := (m / d)%Z in
    let r := (m mod d)%Z in
    match (2 * r ?= d)%Z with
    | Lt => q
    | Gt => (q + 1)%Z
    | Eq => if Z.even q then q else (q + 1)%Z
    end.

(** [round(x, 2)] on a float: CPython rounds the exact binary value of [x]
    to two decimals, ties to even, and returns the double nearest to that
    decimal, which is the correctly rounded quotient [n / 100.0].  NaN,
    infinities and zeros are returned as they are.  The conversion of [n]
    is exact for [|x| < 2^46]; the scorer applies it to clamped values. *)
Definition round2 (x : float) : float :=
  match Prim2SF x with
  | S754_finite s m e =>
      let n := round_half_even (Z.pos m * 100) e in
      let r := (PrimFloat.of_uint63 (Uint63.of_Z n) / 100)%float in
      if s then (- r)%float else r
  | _ => x
  end.

(** The rational number a float is: [m * 2^e] with its sign for a finite
    value, nothing for an infinity or a NaN. *)
Definition exact (x : float) : option Q :=
  match Prim2SF x with
  | S754_zero _ => Some 0%Q
  | S754_finite s m e =>
      let v := (inject_Z (Z.pos m) * 2 ^ e)%Q in
      Some (if s then (- v)%Q else v)
  | _ => None
  end.

End Py.

(** ** compliance_analyzer.py: the risk score *)

Module Scorer.

(** The judgment parsed from the generation client's answer: a JSON object
    in which any key may be missing. *)
Record AnalysisResult := {
  ar_compliance_status : option string;
  ar_risk_level : option string;
  ar_confidence : option float
}.

(** A retrieved regulation segment, as the scorer reads it. *)
Record Regulation := {
  reg_content : string;
  reg_similarity_score : Q
}.

(** The dictionary [_assess_compliance_risk] returns; [reason] is set on the
    degraded path only, [confidence] and [analysis_result] on the other. *)
Record RiskAssessment := {
  compliance_status : string;
  risk_level : string;
  risk_score : float;
  reason : option string;
  confidence : option float;
  analysis_result : option AnalysisResult
}.

Definition base_scores : gmap string float :=
  list_to_map [("Compliant", 0.1%float); ("Violation", 0.9%float);
               ("Risk", 0.6%float); ("Unknown", 0.5%float)].

Definition risk_multipliers : gmap string float :=
  list_to_map [("Low", 0.3%float); ("Medium", 0.6%float); ("High", 1.0%float)].

(** [d.get(k, dflt)]. *)
Definition dict_get {V} (d : gmap string V) (k : string) (dflt : V) : V :=
  default dflt (d !! k).

Definition _calculate_risk_score
    (compliance_status risk_level : string) (confidence : float) : float :=
  let base_score := dict_get base_scores compliance_status 0.5%float in
  let risk_multiplier := dict_get risk_multipliers risk_level 0.6%float in
  let risk_score := (base_score * risk_multiplier * confidence)%float in
  Py.round2 (Py.min (Py.max risk_score 0.0%float) 1.0%float).

Section Assess.

(** [ai_client.analyze_compliance(business_data, regulations)]. *)
Variable analyze_compliance : string -> string -> AnalysisResult.

Definition _assess_compliance_risk
    (business_description : string) (regulations : list Regulation)
    : RiskAssessment :=
  match regulations with
  | [] =>
      {| compliance_status := "Unable to Determine";
         risk_level := "Medium";
         risk_score := 0.5%float;
         reason := Some "No relevant regulations found";
         confidence := None;
         analysis_result := None |}
  | _ =>
      let relevant_reg_text :=
        Py.join (String "010" (String "010" "")) (map reg_content (take 5 regulations)) in
      let analysis_result := analyze_compliance business_description relevant_reg_text in
      let compliance_status := default "Unknown" (ar_compliance_status analysis_result) in
      let risk_level := default "Medium" (ar_risk_level analysis_result) in
      let confidence := default 0.5%float (ar_confidence analysis_result) in
      let risk_score := _calculate_risk_score compliance_status risk_level confidence in
      {| compliance_status := compliance_status;
         risk_level := risk_level;
         risk_score := risk_score;
         reason := None;
         confidence := Some confidence;
         analysis_result := Some analysis_result |}
  end.

End Assess.

(** *** The scoring formula as the specification words it *)

Inductive ComplianceStatus := Compliant | Violation | Risk | Unknown.
Inductive RiskLevel := Low | Medium | High.

Definition status_name (s : ComplianceStatus) : string :=
  match s with
  | Compliant => "Compliant" | Violation => "Violation"
  | Risk => "Risk" | Unknown => "Unknown"
  end.

Definition level_name (l : RiskLevel) : string :=
  match l with Low => "Low" | Medium => "Medium" | High => "High" end.

Definition parse_level (s : string) : option RiskLevel :=
  if decide (s = "Low") then Some Low
  else if decide (s = "Medium") then Some Medium
  else if decide (s = "High") then Some High
  else None.

Definition spec_base (s : ComplianceStatus) : float :=
  match s with
  | Compliant => 0.1 | Violation => 0.9 | Risk => 0.6 | Unknown => 0.5
  end%float.

Definition spec_multiplier (l : option RiskLevel) : float :=
  match l with
  | Some Low => 0.3 | Some Medium => 0.6 | Some High => 1.0
  | None => 0.6
  end%float.

(** Clamping to [[0,1]]: below 0 gives 0, above 1 gives 1. *)
Definition spec_clamp01 (x : float) : float :=
  if PrimFloat.ltb x 0 then 0%float
  else if PrimFloat.ltb 1 x then 1%float
  else x.

Definition spec_risk_score (s : ComplianceStatus) (l : option RiskLevel) (c : float) : float :=
  Py.round2 (spec_clamp01 (spec_base s * spec_multiplier l * c)%float).

(** *** Properties of the risk score *)

Lemma clamp_as_min_max (x : float) :
  Py.min (Py.max x 0.0%float) 1.0%float = spec_clamp01 x.
Proof.
  unfold Py.min, Py.max, spec_clamp01.
  destruct (PrimFloat.ltb x 0) eqn:Hneg; [reflexivity|].
  reflexivity.
Qed.

Lemma multiplier_lookup (level : string) :
  dict_get risk_multipliers level 0.6%float = spec_multiplier (parse_level level).
Proof.
  unfold parse_level, dict_get, risk_multipliers.
  repeat case_decide; subst; try reflexivity.
  cbn [list_to_map foldr fst snd uncurry].
  rewrite !lookup_insert_ne by congruence.
  rewrite lookup_empty. reflexivity.
Qed.

Lemma base_lookup (s : ComplianceStatus) :
  dict_get base_scores (status_name s) 0.5%float = spec_base s.
Proof. destruct s; vm_compute; reflexivity. Qed.

(** The dictionary lookups and the [min]/[max] clamp of
    [_calculate_risk_score] are the tables and the clamp of the
    specification, for every status, risk-level string and confidence; what
    [round(x, 2)] returns is stated in module [ScoreRounding]. *)
Lemma calculate_risk_score_formula :
  (forall (s : ComplianceStatus) (level : string) (c : float),
      _calculate_risk_score (status_name s) level c
      = spec_risk_score s (parse_level level) c)
  /\ (forall l : RiskLevel, parse_level (level_name l) = Some l)
  /\ (forall level : string,
        (exists l, level = level_name l /\ parse_level level = Some l)
        \/ parse_level level = None)
  /\ _calculate_risk_score "Violation" "High" 0.9%float = 0.81%float.
Proof.
  split; [|split; [|split]].
  - intros s level c. unfold _calculate_risk_score, spec_risk_score.
    rewrite base_lookup, multiplier_lookup, clamp_as_min_max. reflexivity.
  - intros []; reflexivity.
  - intros level. unfold parse_level.
    repeat case_decide; subst;
      [left; exists Low|left; exists Medium|left; exists High|right]; auto.
  - vm_compute. reflexivity.
Qed.

(** The status label of the degraded result is not the scoring table's
    "Unknown": with no regulations the assessment is labelled
    "Unable to Determine". *)
Lemma assess_no_regulations_status_not_Unknown :
  ~ (forall (analyze : string -> string -> AnalysisResult) (desc : string),
        compliance_status (_assess_compliance_risk analyze desc []) = "Unknown"
        /\ risk_level (_assess_compliance_risk analyze desc []) = "Medium"
        /\ risk_score (_assess_compliance_risk analyze desc []) = 0.5%float).
Proof.
  intros H.
  destruct (H (fun _ _ => Build_AnalysisResult None None None) "we fix prices")
    as [Hstatus _].
  cbn in Hstatus. discriminate Hstatus.
Qed.

(** C2 (amended).  For every business description, when retrieval found no
    regulation segment the assessment is the fixed degraded result: status
    label "Unable to Determine", risk level "Medium", risk score 0.5, with
    the reason recorded; the generation client is not consulted and nothing
    is raised. *)
Theorem assess_no_regulations_degraded :
  forall (analyze : string -> string -> AnalysisResult) (desc : string),
    _assess_compliance_risk analyze desc []
    = {| compliance_status := "Unable to Determine";
         risk_level := "Medium";
         risk_score := 0.5%float;
         reason := Some "No relevant regulations found";
         confidence := None;
         analysis_result := None |}.
Proof. intros analyze desc. reflexivity. Qed.

End Scorer.

(** ** rag_service.py: the bounded context *)

Module Rag.

(** A context item: a retrieved segment or the synthetic graph summary. *)
Record ContextDoc := {
  content : string;
  similarity_score : Q;
  source : option string
}.

Definition newline2 : string := String "010" (String "010" "").

(** [f"[Document {i}] {doc['content']}"]. *)
Definition doc_text (i : nat) (doc : ContextDoc) : string :=
  "[Document " +:+ pretty i +:+ "] " +:+ content doc.

Definition len (s : string) : Z := Z.of_nat (String.length s).

Section BuildContext.

Variable max_length : Z.

(** The loop of [_build_context_text] over [enumerate(context_docs, i)],
    with its two accumulators. *)
Fixpoint build_parts (i : nat) (context_docs : list ContextDoc)
    (context_parts : list string) (current_length : Z) : list string :=
  match context_docs with
  | [] => context_parts
  | doc :: rest =>
      let doc_text := doc_text i doc in
      if (max_length <? current_length + len doc_text)%Z then
        let remaining_length := (max_length - current_length)%Z in
        if (100 <? remaining_length)%Z then
          context_parts ++ [Py.slice_to (Z.to_nat remaining_length) doc_text +:+ "..."]
        else context_parts
      else
        build_parts (S i) rest (context_parts ++ [doc_text])
                    (current_length + len doc_text)
  end.

Definition _build_context_text (context_docs : list ContextDoc) : string :=
  Py.join newline2 (build_parts 1 context_docs [] 0).

End BuildContext.

(** *** The context as the specification words it *)

(** The rendered items, numbered from [i]. *)
Fixpoint rendered (i : nat) (docs : list ContextDoc) : list string :=
  match docs with
  | [] => []
  | doc :: rest => doc_text i doc :: rendered (S i) rest
  end.

(** The parts kept under a budget: items are taken while they fit; the first
    item that does not fit is cut to the remaining budget and suffixed with
    the ellipsis when [keeps_cut remaining] holds, and dropped otherwise;
    nothing after it is looked at. *)
Fixpoint parts_within (keeps_cut : Z -> bool) (items : list string) (budget : Z)
    : list string :=
  match items with
  | [] => []
  | t :: rest =>
      if (len t <=? budget)%Z then t :: parts_within keeps_cut rest (budget - len t)
      else if keeps_cut budget then [Py.slice_to (Z.to_nat budget) t +:+ "..."]
      else []
  end.

(** The claim's threshold: at least 100 characters remain. *)
Definition at_least_100 (remaining : Z) : bool := (100 <=? remaining)%Z.

(** The code's threshold: more than 100 characters remain. *)
Definition more_than_100 (remaining : Z) : bool := (100 <? remaining)%Z.

Definition context_within (keeps_cut : Z -> bool) (docs : list ContextDoc) (max_chars : Z)
    : string :=
  Py.join newline2 (parts_within keeps_cut (rendered 1 docs) max_chars).

Definition hundred_a : string :=
  Eval cbv in fold_right (fun _ s => String "a" s) "" (seq 0 100).

(** *** Properties of the context *)

Lemma build_parts_spec (max_length : Z) (docs : list ContextDoc) :
  forall (i : nat) (parts : list string) (cur : Z),
    build_parts max_length i docs parts cur
    = parts ++ parts_within more_than_100 (rendered i docs) (max_length - cur).
Proof.
  induction docs as [|doc rest IH]; intros i parts cur; cbn [build_parts rendered parts_within].
  - by rewrite app_nil_r.
  - unfold more_than_100.
    destruct (Z.ltb_spec max_length (cur + len (doc_text i doc))) as [Hover|Hfit].
    + destruct (Z.leb_spec (len (doc_text i doc)) (max_length - cur)); [lia|].
      destruct (100 <? max_length - cur)%Z; [reflexivity|by rewrite app_nil_r].
    + destruct (Z.leb_spec (len (doc_text i doc)) (max_length - cur)); [|lia].
      rewrite IH. rewrite <- app_assoc. cbn [app].
      do 3 f_equal. lia.
Qed.

(** With exactly 100 characters of budget left the overflowing item is
    dropped, where the claim's wording keeps a cut of it: one item of 113
    characters under a budget of 100 gives the empty context. *)
Lemma build_context_drops_at_exactly_100 :
  let docs := [ {| content := hundred_a; similarity_score := 1; source := None |} ] in
  _build_context_text 100 docs = ""
  /\ context_within at_least_100 docs 100
     = Py.slice_to 100 (doc_text 1 {| content := hundred_a; similarity_score := 1;
                                      source := None |}) +:+ "..."
  /\ _build_context_text 100 docs <> context_within at_least_100 docs 100.
Proof. vm_compute. split; [reflexivity|split; [reflexivity|discriminate]]. Qed.

(** C8 (amended).  For every list of context items and every budget
    [max_length], the context is the items rendered "[Document i] <content>"
    (numbered from 1, joined by a blank line), taken while the cumulative
    length stays within [max_length]; the first item that would exceed it is
    cut to the remaining budget and suffixed with "..." when more than 100
    characters of budget remain, and dropped otherwise; later items are not
    looked at. *)
Theorem build_context_text_spec :
  forall (docs : list ContextDoc) (max_length : Z),
    _build_context_text max_length docs = context_within more_than_100 docs max_length.
Proof.
  intros docs max_length. unfold _build_context_text, context_within.
  rewrite build_parts_spec. cbn [app]. do 2 f_equal. lia.
Qed.

End Rag.

(** ** vector_service.py: the brute-force similarity index *)

Module Vector.

(** A stored segment; the "vector" key may be absent. *)
Record Segment := {
  seg_id : string;
  seg_content : string;
  seg_vector : option (list Q)
}.

(** One entry of [vectors.json]; the "segments" key may be absent. *)
Record DocVectors := {
  dv_document_id : string;
  dv_segments : option (list Segment)
}.

(** A result: the copied segment with its "similarity_score". *)
Record ScoredSegment := {
  segment : Segment;
  similarity_score : Q
}.

(** The [filters] dictionary of [search_regulations]. *)
Record Filters := {
  min_similarity : option Q;
  keywords : option (list string)
}.

(** [similarities.sort(key=lambda x: x[0], reverse=True)]: a stable sort,
    largest key first.  An element is inserted in front of the first element
    whose key is not strictly larger, so that among equal keys the element
    that came first stays first. *)
Fixpoint insert_desc {A} (x : Q * A) (l : list (Q * A)) : list (Q * A) :=
  match l with
  | [] => [x]
  | y :: l' => if Qle_bool (fst y) (fst x) then x :: y :: l' else y :: insert_desc x l'
  end.

Definition sort_desc {A} (l : list (Q * A)) : list (Q * A) :=
  foldr insert_desc [] l.

(** Largest first. *)
Definition desc {A} (a b : Q * A) : Prop := (fst b <= fst a)%Q.

Definition desc_score (a b : ScoredSegment) : Prop :=
  (similarity_score b <= similarity_score a)%Q.

Section Search.

(** [ai_client.get_embeddings([text])[0]]. *)
Variable get_embedding : string -> list Q.
(** [sklearn.metrics.pairwise.cosine_similarity] on two row vectors. *)
Variable cosine_similarity : list Q -> list Q -> Q.
(** [storage.load_vectors()], in the order of the stored object's keys. *)
Variable vectors_data : list (string * DocVectors).

Definition calculate_similarity (vector1 vector2 : list Q) : Q :=
  match vector1, vector2 with
  | [], _ | _, [] => 0
  | _, _ => cosine_similarity vector1 vector2
  end.

Definition all_segments : list Segment :=
  flat_map (fun entry => default [] (dv_segments (snd entry))) vectors_data.

(** The pairs [(similarity, segment)] of every stored segment that has a
    vector, in insertion order. *)
Definition similarities (query_embedding : list Q) : list (Q * Segment) :=
  omap (fun segment =>
          match seg_vector segment with
          | Some v => Some (calculate_similarity query_embedding v, segment)
          | None => None
          end) all_segments.

Definition to_result (p : Q * Segment) : ScoredSegment :=
  {| segment := snd p; similarity_score := fst p |}.

(** [top_k] is a count; the slice [similarities[:top_k]] is [take top_k]. *)
Definition find_similar_segments (query_text : string) (top_k : nat)
    : list ScoredSegment :=
  let query_embedding := get_embedding query_text in
  match all_segments with
  | [] => []
  | _ => map to_result (take top_k (sort_desc (similarities query_embedding)))
  end.

Definition include (filters : Filters) (s : ScoredSegment) : bool :=
  let include := true in
  let include :=
    match min_similarity filters with
    | Some m => if negb (Qle_bool m (similarity_score s)) then false else include
    | None => include
    end in
  let include :=
    match keywords filters with
    | Some kws =>
        if negb (existsb (fun keyword => Py.contains keyword (seg_content (segment s))) kws)
        then false else include
    | None => include
    end in
  include.

Definition search_regulations (query : string) (filters : option Filters) (top_k : nat)
    : list ScoredSegment :=
  let similar_segments := find_similar_segments query (top_k * 2) in
  let similar_segments :=
    match filters with
    | Some f => List.filter (include f) similar_segments
    | None => similar_segments
    end in
  take top_k similar_segments.

(** *** The search as the specification words it *)

(** Every stored segment vector scored against the query, ranked by the
    stable descending sort. *)
Definition ranked (query : string) : list ScoredSegment :=
  map to_result (sort_desc (similarities (get_embedding query))).

Definition scored (query : string) : list ScoredSegment :=
  map to_result (similarities (get_embedding query)).

Definition at_least (m : Q) (s : ScoredSegment) : bool :=
  Qle_bool m (similarity_score s).

Definition same_score (q : Q) (s : ScoredSegment) : bool :=
  Qeq_bool (similarity_score s) q.

Definition total_segments : nat := length all_segments.


(** *** Properties of the stable descending sort *)

Lemma Qle_bool_false (x y : Q) : Qle_bool x y = false -> (y < x)%Q.
Proof.
  intros H. apply Qnot_le_lt. intros Hle.
  apply Qle_bool_iff in Hle. congruence.
Qed.

Lemma insert_desc_perm {A} (x : Q * A) (l : list (Q * A)) :
  Permutation (insert_desc x l) (x :: l).
Proof.
  induction l as [|y l IH]; cbn [insert_desc]; [reflexivity|].
  destruct (Qle_bool (fst y) (fst x)); [reflexivity|].
  rewrite IH. apply perm_swap.
Qed.

Lemma sort_desc_perm {A} (l : list (Q * A)) : Permutation (sort_desc l) l.
Proof.
  induction l as [|x l IH]; cbn; [reflexivity|].
  fold (sort_desc l). rewrite insert_desc_perm. by constructor.
Qed.

Lemma insert_desc_sorted {A} (x : Q * A) (l : list (Q * A)) :
  StronglySorted desc l -> StronglySorted desc (insert_desc x l).
Proof.
  induction 1 as [|y l Hsorted IH Hall]; cbn [insert_desc].
  - repeat constructor.
  - destruct (Qle_bool (fst y) (fst x)) eqn:Hyx.
    + apply Qle_bool_iff in Hyx.
      constructor; [by constructor|].
      constructor; [exact Hyx|].
      eapply Forall_impl; [exact Hall|].
      intros z Hz. unfold desc in *. eapply Qle_trans; eassumption.
    + apply Qle_bool_false in Hyx.
      constructor; [exact IH|].
      rewrite insert_desc_perm. constructor; [|exact Hall].
      unfold desc. by apply Qlt_le_weak.
Qed.

Lemma sort_desc_sorted {A} (l : list (Q * A)) : StronglySorted desc (sort_desc l).
Proof.
  induction l as [|x l IH]; cbn; [constructor|].
  by apply insert_desc_sorted.
Qed.

(** Stability: the elements of one key keep their original order. *)
Lemma insert_desc_stable {A} (q : Q) (x : Q * A) (l : list (Q * A)) :
  List.filter (fun z => Qeq_bool (fst z) q) (insert_desc x l)
  = List.filter (fun z => Qeq_bool (fst z) q) (x :: l).
Proof.
  induction l as [|y l IH]; cbn [insert_desc]; [reflexivity|].
  destruct (Qle_bool (fst y) (fst x)) eqn:Hyx; [reflexivity|].
  apply Qle_bool_false in Hyx.
  cbn [List.filter] in *. rewrite IH.
  destruct (Qeq_bool (fst x) q) eqn:Hx; [|reflexivity].
  destruct (Qeq_bool (fst y) q) eqn:Hy; [|reflexivity].
  apply Qeq_bool_iff in Hx, Hy. rewrite Hx, Hy in Hyx.
  by apply Qlt_irrefl in Hyx.
Qed.

Lemma sort_desc_stable {A} (q : Q) (l : list (Q * A)) :
  List.filter (fun z => Qeq_bool (fst z) q) (sort_desc l)
  = List.filter (fun z => Qeq_bool (fst z) q) l.
Proof.
  induction l as [|x l IH]; [reflexivity|].
  cbn [sort_desc foldr]. fold (sort_desc l).
  rewrite insert_desc_stable. cbn [List.filter]. by rewrite IH.
Qed.

Lemma filter_map_comm {A B} (f : B -> bool) (g : A -> B) (l : list A) :
  List.filter f (map g l) = map g (List.filter (fun a => f (g a)) l).
Proof.
  induction l as [|a l IH]; [reflexivity|].
  cbn. destruct (f (g a)); cbn; by rewrite IH.
Qed.

Lemma sorted_map_result (l : list (Q * Segment)) :
  StronglySorted desc l -> StronglySorted desc_score (map to_result l).
Proof.
  induction 1 as [|y l Hsorted IH Hall]; cbn; constructor; [exact IH|].
  apply Forall_map. eapply Forall_impl; [exact Hall|]. by intros z Hz.
Qed.

Lemma sorted_take (l : list ScoredSegment) (n : nat) :
  StronglySorted desc_score l -> StronglySorted desc_score (take n l).
Proof.
  intros H. revert n. induction H as [|y l Hsorted IH Hall]; intros [|n]; cbn;
    try constructor; [apply IH|].
  eapply Forall_forall. intros z Hz.
  eapply Forall_forall in Hall; [exact Hall|].
  eapply subseteq_take, Hz.
Qed.

Lemma sorted_filter (f : ScoredSegment -> bool) (l : list ScoredSegment) :
  StronglySorted desc_score l -> StronglySorted desc_score (List.filter f l).
Proof.
  induction 1 as [|y l Hsorted IH Hall]; cbn; [constructor|].
  destruct (f y); [|exact IH].
  constructor; [exact IH|].
  apply Forall_forall. intros z Hz.
  apply list_elem_of_In, filter_In in Hz as [Hz _].
  eapply Forall_forall in Hall; [exact Hall|by apply list_elem_of_In].
Qed.

(** In a ranked list the entries at or above a threshold form a prefix, so
    over-fetching [n >= k] entries before filtering loses none of the first
    [k] that pass. *)
Lemma overfetch_filter (m : Q) (l : list ScoredSegment) :
  StronglySorted desc_score l ->
  forall k n : nat, k <= n ->
    take k (List.filter (at_least m) (take n l)) = take k (List.filter (at_least m) l).
Proof.
  induction 1 as [|y l Hsorted IH Hall]; intros k n Hkn.
  - by rewrite take_nil.
  - destruct k as [|k]; [reflexivity|].
    destruct n as [|n]; [lia|].
    cbn [take List.filter].
    destruct (at_least m y) eqn:Hy.
    + cbn [take]. f_equal. apply IH. lia.
    + assert (Hnone : forall l', l' ⊆ l -> List.filter (at_least m) l' = []).
      { intros l' Hsub. induction l' as [|z l' IHl']; [reflexivity|].
        cbn. assert (Hz : z ∈ l) by (apply Hsub; left).
        eapply Forall_forall in Hall; [|exact Hz].
        unfold at_least in *. destruct (Qle_bool m (similarity_score z)) eqn:Hmz.
        - apply Qle_bool_iff in Hmz. unfold desc_score in Hall.
          assert (Hmy : Qle_bool m (similarity_score y) = true)
            by (apply Qle_bool_iff; eapply Qle_trans; eassumption).
          congruence.
        - apply IHl'. intros w Hw. apply Hsub. by right. }
      rewrite (Hnone (take n l)) by apply subseteq_take.
      by rewrite (Hnone l).
Qed.

Lemma find_similar_segments_ranked (query : string) (n : nat) :
  find_similar_segments query n = take n (ranked query).
Proof.
  unfold find_similar_segments, ranked, similarities.
  rewrite <- fmap_take.
  destruct all_segments; [|reflexivity].
  cbn. by rewrite take_nil.
Qed.

Lemma ranked_length (query : string) : length (ranked query) <= total_segments.
Proof.
  unfold ranked, similarities, total_segments.
  rewrite length_map, (Permutation_length (sort_desc_perm _)).
  induction all_segments as [|seg l IH]; cbn; [lia|].
  destruct (seg_vector seg); cbn; lia.
Qed.

Lemma include_min_only (m : Q) (s : ScoredSegment) :
  include {| min_similarity := Some m; keywords := None |} s = at_least m s.
Proof. unfold include, at_least. cbn. by destruct (Qle_bool m (similarity_score s)). Qed.

Lemma filter_prefix (f : ScoredSegment -> bool) (l1 l2 : list ScoredSegment) :
  l1 `prefix_of` l2 -> List.filter f l1 `prefix_of` List.filter f l2.
Proof. intros [k ->]. rewrite List.filter_app. by apply prefix_app_r. Qed.

Lemma same_score_at_least (m q : Q) (l : list ScoredSegment) :
  List.filter (same_score q) (List.filter (at_least m) l)
  `prefix_of` List.filter (same_score q) l.
Proof.
  destruct (Qle_bool m q) eqn:Hmq.
  - replace (List.filter (same_score q) (List.filter (at_least m) l))
      with (List.filter (same_score q) l); [done|].
    induction l as [|x l IH]; [done|]. cbn.
    destruct (same_score q x) eqn:Hx.
    + assert (Hm : at_least m x = true).
      { unfold same_score, at_least in *. apply Qeq_bool_iff in Hx.
        apply Qle_bool_iff. rewrite Hx. by apply Qle_bool_iff. }
      rewrite Hm. cbn. by rewrite Hx, IH.
    + destruct (at_least m x); cbn; by rewrite ?Hx, IH.
  - replace (List.filter (same_score q) (List.filter (at_least m) l))
      with (@nil ScoredSegment); [apply prefix_nil|].
    induction l as [|x l IH]; [done|]. cbn.
    destruct (at_least m x) eqn:Hm; [|exact IH]. cbn.
    destruct (same_score q x) eqn:Hx; [|exact IH].
    unfold same_score, at_least in *. apply Qeq_bool_iff in Hx.
    apply Qle_bool_iff in Hm. rewrite Hx in Hm. apply Qle_bool_iff in Hm.
    congruence.
Qed.

(** C7.  For every stored index, query, threshold [m] and [top_k]:
    the ranking scores every stored segment vector across all documents
    (it is a permutation of the scored list), is sorted by non-increasing
    similarity, and keeps entries of equal similarity in insertion order;
    [search_regulations] with [min_similarity = m] returns the first
    [top_k] ranked entries whose similarity is at least [m] (all of them
    when [top_k] is at least the number of stored segments), and without
    filters the first [top_k] ranked entries (the whole ranking when
    [top_k] is at least the number of stored segments). *)
Theorem search_regulations_ranked (query : string) (m : Q) (top_k : nat) :
  let with_min := Some {| min_similarity := Some m; keywords := None |} in
  Permutation (ranked query) (scored query)
  /\ StronglySorted desc_score (ranked query)
  /\ (forall q : Q,
        List.filter (same_score q) (ranked query)
        = List.filter (same_score q) (scored query))
  /\ search_regulations query with_min top_k
     = take top_k (List.filter (at_least m) (ranked query))
  /\ StronglySorted desc_score (search_regulations query with_min top_k)
  /\ (forall q : Q,
        List.filter (same_score q) (search_regulations query with_min top_k)
        `prefix_of` List.filter (same_score q) (scored query))
  /\ (total_segments <= top_k ->
      search_regulations query with_min top_k = List.filter (at_least m) (ranked query))
  /\ search_regulations query None top_k = take top_k (ranked query)
  /\ (total_segments <= top_k -> search_regulations query None top_k = ranked query).
Proof.
  intros with_min.
  assert (Hperm : Permutation (ranked query) (scored query)).
  { unfold ranked, scored. apply Permutation_map, sort_desc_perm. }
  assert (Hsorted : StronglySorted desc_score (ranked query)).
  { apply sorted_map_result, sort_desc_sorted. }
  assert (Hstable : forall q : Q,
             List.filter (same_score q) (ranked query)
             = List.filter (same_score q) (scored query)).
  { intros q. unfold ranked, scored. rewrite !filter_map_comm. f_equal.
    apply (sort_desc_stable q). }
  assert (Hmin : search_regulations query with_min top_k
                 = take top_k (List.filter (at_least m) (ranked query))).
  { unfold search_regulations, with_min.
    rewrite find_similar_segments_ranked.
    rewrite (filter_ext _ _ (include_min_only m)).
    apply overfetch_filter; [exact Hsorted|lia]. }
  assert (Hnone : search_regulations query None top_k = take top_k (ranked query)).
  { unfold search_regulations. rewrite find_similar_segments_ranked.
    rewrite take_take. f_equal. lia. }
  repeat split; try assumption.
  - rewrite Hmin. by apply sorted_take, sorted_filter.
  - intros q. rewrite Hmin, <- Hstable.
    etrans; [apply filter_prefix, prefix_take|].
    apply same_score_at_least.
  - intros Hk. rewrite Hmin. apply take_ge.
    pose proof (ranked_length query).
    pose proof (filter_length_le (at_least m) (ranked query)). lia.
  - intros Hk. rewrite Hnone. apply take_ge.
    pose proof (ranked_length query). lia.
Qed.

End Search.

(** A two-document index and a dot-product similarity, for running the
    search: the second and third segments tie. *)
Definition demo_dot (a b : list Q) : Q :=
  foldr Qplus 0%Q (zip_with Qmult a b).

Definition demo_segment (id : string) (v : list Q) : Segment :=
  {| seg_id := id; seg_content := id; seg_vector := Some v |}.

Definition demo_index : list (string * DocVectors) :=
  [ ("d1", {| dv_document_id := "d1";
              dv_segments := Some [demo_segment "d1-0" [0; 1]%Q; demo_segment "d1-1" [1; 0]%Q] |});
    ("d2", {| dv_document_id := "d2";
              dv_segments := Some [demo_segment "d2-0" [1; 0]%Q; demo_segment "d2-1" [2; 0]%Q] |}) ].

Lemma search_regulations_ranked_witness :
  total_segments demo_index <= 4
  /\ map (fun r => seg_id (segment r))
         (search_regulations (fun _ => [1; 0]%Q) demo_dot demo_index "q" None 4)
     = ["d2-1"; "d1-1"; "d2-0"; "d1-0"].
Proof.
  split; [vm_compute; lia|].
  destruct (search_regulations_ranked (fun _ => [1; 0]%Q) demo_dot demo_index "q" 0%Q 4)
    as (_ & _ & _ & _ & _ & _ & _ & _ & Hall).
  rewrite Hall by (vm_compute; lia).
  vm_compute. reflexivity.
Defined.

End Vector.

(** ** knowledge_graph.py: extraction, relationships, merge and query *)

Module KG.

#[global] Instance Q_eq_dec : EqDecision Q.
Proof. solve_decision. Defined.

(** *** Data *)

(** A stored text segment, as [storage.load_segments] returns it. *)
Record Segment := {
  s_id : string;
  s_content : string
}.

(** The entity dictionary built by [extract_entities_from_document]. *)
Record Entity := {
  e_id : string;
  e_text : string;
  e_type : string;
  e_document_id : string;
  e_segment_id : string;
  e_confidence : Q;
  e_source : string
}.

(** The relationship dictionary built by [find_relationships]; the merge
    step assigns to "source" and "target". *)
Record Edge := {
  r_id : string;
  source : string;
  target : string;
  relation : string;
  r_confidence : Q;
  evidence : string
}.

Record Properties := {
  p_document_id : string;
  p_confidence : Q;
  p_source : string
}.

Record Node := {
  n_id : string;
  label : string;
  n_type : string;
  properties : Properties
}.

Record Metadata := {
  total_nodes : nat;
  total_edges : nat;
  document_count : nat
}.

Record GraphData := {
  nodes : list Node;
  edges : list Edge;
  metadata : Metadata
}.

Record QueryInfo := {
  qi_entity_name : string;
  qi_relation_type : option string;
  found_matches : nat
}.

Record QueryResult := {
  q_nodes : list Node;
  q_edges : list Edge;
  q_message : option string;
  query_info : option QueryInfo
}.

#[global] Instance Properties_eq_dec : EqDecision Properties.
Proof. solve_decision. Defined.
#[global] Instance Node_eq_dec : EqDecision Node.
Proof. solve_decision. Defined.

(** A [dict] from category names to lists, in insertion order. *)
Abbreviation Dict V := (list (string * list V)).

(** [k in d]. *)
Definition dict_has {V} (k : string) (d : Dict V) : bool :=
  bool_decide (k ∈ map fst d).

(** [d[k].append(v)] for a key that is present. *)
Fixpoint dict_append {V} (k : string) (v : V) (d : Dict V) : Dict V :=
  match d with
  | [] => []
  | (k', vs) :: d' =>
      if decide (k' = k) then (k', vs ++ [v]) :: d' else (k', vs) :: dict_append k v d'
  end.

(** [d[k].extend(vs)] for a key that is present. *)
Definition dict_extend {V} (k : string) (vs : list V) (d : Dict V) : Dict V :=
  foldl (fun d v => dict_append k v d) d vs.

(** [any(d.values())]: some list is non-empty. *)
Definition any_values {V} (d : Dict V) : bool :=
  existsb (fun kv => negb (bool_decide (snd kv = []))) d.

Definition entity_types : list (string * string) :=
  [ ("legal_articles", "LEGAL_ARTICLE");
    ("violations", "VIOLATION");
    ("penalties", "PENALTY");
    ("responsible_parties", "RESPONSIBLE_PARTY");
    ("related_concepts", "CONCEPT") ].

(** [self.entity_types.get(k, "UNKNOWN")]. *)
Definition entity_type_of (k : string) : string :=
  default "UNKNOWN" (snd <$> List.find (fun kv => bool_decide (fst kv = k)) entity_types).

(** *** Whitespace stripping, for [match.strip()] *)

Definition is_space (c : ascii) : bool :=
  let n := nat_of_ascii c in
  ((9 <=? n) && (n <=? 13)) || ((28 <=? n) && (n <=? 32)).

Fixpoint lstrip (s : string) : string :=
  match s with
  | String c s' => if is_space c then lstrip s' else s
  | EmptyString => EmptyString
  end.

Fixpoint rstrip (s : string) : string :=
  match s with
  | String c s' =>
      match rstrip s' with
      | EmptyString => if is_space c then EmptyString else String c EmptyString
      | t => String c t
      end
  | EmptyString => EmptyString
  end.

Definition strip (s : string) : string := rstrip (lstrip s).

(** *** The lexicons of [_local_entity_extraction] *)

Definition article_patterns : list string :=
  [ "\b(?:Article|Section|Clause|Part|Chapter|Regulation)\s+\d+[a-zA-Z]?\b";
    "\b[A-Z][A-Za-z]+\s+(?:Law|Act|Code|Regulation|Rule)\b";
    "\b(?:Title|Subtitle)\s+[IVXLCDM]+\b";
    "\bABC\s+Law\b" ].

Definition violation_keywords : list string :=
  [ "violation"; "breach"; "infringement"; "non-compliance"; "illegal";
    "prohibited"; "unlawful"; "monopoly"; "discrimination"; "fraud";
    "price fixing"; "market manipulation"; "unfair competition" ].

Definition penalty_patterns : list string :=
  [ "\$[\d,]+(?:\.\d{2})?(?:\s*(?:million|thousand|billion))?";
    "\b\d+\s*(?:years?|months?|days?)\s*(?:in\s*)?(?:prison|jail|imprisonment)";
    "\b(?:fine|penalty|sanction|punishment)\s*(?:of|up\s*to)?\s*[\w\s]+";
    "\b(?:suspension|revocation|termination)\s*of\s*(?:license|permit|authorization)" ].

Definition party_patterns : list string :=
  [ "\b(?:supplier|wholesaler|retailer|distributor|manufacturer|company|corporation|business|entity)\b";
    "\b(?:licensee|permit\s*holder|operator|owner|manager)\b" ].

Definition concept_keywords : list string :=
  [ "compliance"; "regulation"; "pricing"; "market"; "competition";
    "trade"; "commerce"; "consumer protection"; "antitrust";
    "three-tier system"; "posted price"; "inducement" ].

Definition empty_entities : Dict string :=
  [ ("legal_articles", []); ("violations", []); ("penalties", []);
    ("responsible_parties", []); ("related_concepts", []) ].

(** Case-insensitive removal of duplicates (and of empty strings), keeping
    the first occurrence. *)
Fixpoint unique_ci (items : list string) (seen : list string) : list string :=
  match items with
  | [] => []
  | item :: rest =>
      let item_lower := Py.lower item in
      if negb (bool_decide (item = "")) && negb (bool_decide (item_lower ∈ seen))
      then item :: unique_ci rest (item_lower :: seen)
      else unique_ci rest seen
  end.


(** *** Identifiers: [str(uuid.uuid4())] *)

(** A computation that draws identifiers: the state is the number of
    identifiers drawn so far. *)
Definition Gen (A : Type) : Type := nat -> A * nat.

Definition ret {A} (a : A) : Gen A := fun n => (a, n).

Definition bind {A B} (c : Gen A) (k : A -> Gen B) : Gen B :=
  fun n => let (a, n') := c n in k a n'.

Notation "x <- c ;; k" := (bind c (fun x => k))
  (at level 100, c at next level, right associativity).

(** [for a in l: acc = body(acc, a)]. *)
Fixpoint for_each {A B} (l : list A) (body : B -> A -> Gen B) (acc : B) : Gen B :=
  match l with
  | [] => ret acc
  | a :: l' => acc' <- body acc a ;; for_each l' body acc'
  end.

(** *** [_determine_relation_type] *)

Definition relation_table : list ((string * string) * string) :=
  [ (("legal_articles", "violations"), "regulates");
    (("violations", "penalties"), "leads_to");
    (("legal_articles", "penalties"), "specifies_penalty");
    (("responsible_parties", "violations"), "commits");
    (("related_concepts", "legal_articles"), "involves");
    (("related_concepts", "violations"), "defines") ].

Definition relation_map : gmap (string * string) string :=
  list_to_map relation_table.

Definition _determine_relation_type (type1 type2 : string) : string :=
  default "" (relation_map !! (type1, type2)).

(** *** [_is_similar_text] and [_merge_similar_entities] *)

(** [sum(1 for a, b in zip(text1, text2) if a == b)]. *)
Fixpoint common_chars (text1 text2 : string) : nat :=
  match text1, text2 with
  | String a t1, String b t2 =>
      (if decide (a = b) then 1 else 0) + common_chars t1 t2
  | _, _ => 0
  end.

(** The quotient [common_chars / max_len] of two integers is compared as a
    rational; the binary64 quotient compares with 0.8 in the same way for
    labels shorter than 10^16 characters. *)
Definition _is_similar_text (text1 text2 : string) (threshold : Q) : bool :=
  if decide (text1 = text2) then true
  else if (String.length text1 <? 3) || (String.length text2 <? 3) then false
  else
    let common_chars := common_chars text1 text2 in
    let max_len := Nat.max (String.length text1) (String.length text2) in
    Qle_bool threshold (Z.of_nat common_chars # Pos.of_nat max_len).

(** The merge test of [_merge_similar_entities] on two nodes. *)
Definition mergeable (node1 node2 : Node) : bool :=
  bool_decide (n_type node1 = n_type node2)
  && _is_similar_text (label node1) (label node2) 0.8.

(** The inner loop over [nodes[i+1:]]. *)
Fixpoint collect_group (node1 : Node) (rest : list Node)
    (group : list Node) (processed : gset string) : list Node * gset string :=
  match rest with
  | [] => (group, processed)
  | node2 :: rest' =>
      if decide (n_id node2 ∈ processed) then collect_group node1 rest' group processed
      else if mergeable node1 node2
      then collect_group node1 rest' (group ++ [node2]) ({[n_id node2]} ∪ processed)
      else collect_group node1 rest' group processed
  end.

(** The outer loop: the groups of at least two nodes, in order. *)
Fixpoint find_groups (nodes : list Node) (similar_groups : list (list Node))
    (processed : gset string) : list (list Node) :=
  match nodes with
  | [] => similar_groups
  | node1 :: rest =>
      if decide (n_id node1 ∈ processed) then find_groups rest similar_groups processed
      else
        let '(group, processed) := collect_group node1 rest [node1] processed in
        let similar_groups :=
          if 1 <? length group then similar_groups ++ [group] else similar_groups in
        find_groups rest similar_groups ({[n_id node1]} ∪ processed)
  end.

(** The two assignments to one edge. *)
Definition redirect (main_id : string) (merge_ids : list string) (edge : Edge) : Edge :=
  let edge :=
    if bool_decide (source edge ∈ merge_ids)
    then {| r_id := r_id edge; source := main_id; target := target edge;
            relation := relation edge; r_confidence := r_confidence edge;
            evidence := evidence edge |}
    else edge in
  if bool_decide (target edge ∈ merge_ids)
  then {| r_id := r_id edge; source := source edge; target := main_id;
          relation := relation edge; r_confidence := r_confidence edge;
          evidence := evidence edge |}
  else edge.

(** [nodes.remove(x)]: the first element equal to [x] is removed. *)
Fixpoint list_remove (x : Node) (nodes : list Node) : list Node :=
  match nodes with
  | [] => []
  | y :: nodes' => if decide (y = x) then nodes' else y :: list_remove x nodes'
  end.

(** The second loop: one group after the other, edges are redirected to the
    group's first node and the other nodes of the group are removed.  A group
    always has a first node. *)
Fixpoint apply_groups (similar_groups : list (list Node))
    (nodes : list Node) (edges : list Edge) : list Node * list Edge :=
  match similar_groups with
  | [] => (nodes, edges)
  | group :: groups' =>
      match group with
      | main_node :: others =>
          let merge_ids := map n_id others in
          let edges := map (redirect (n_id main_node) merge_ids) edges in
          let nodes :=
            foldl (fun nodes node_to_remove =>
                     if bool_decide (node_to_remove ∈ nodes)
                     then list_remove node_to_remove nodes else nodes)
                  nodes others in
          apply_groups groups' nodes edges
      | [] => apply_groups groups' nodes edges
      end
  end.

(** [_merge_similar_entities(nodes, edges)]: both lists are updated in
    place; the updated lists are returned. *)
Definition _merge_similar_entities (nodes : list Node) (edges : list Edge)
    : list Node * list Edge :=
  apply_groups (find_groups nodes [] ∅) nodes edges.

Definition node_of_entity (entity : Entity) : Node :=
  {| n_id := e_id entity;
     label := e_text entity;
     n_type := e_type entity;
     properties := {| p_document_id := e_document_id entity;
                      p_confidence := e_confidence entity;
                      p_source := e_source entity |} |}.

(** *** The two passes of [query_knowledge_graph] *)

(** [entity_name.lower() in node["label"].lower()]. *)
Definition matches (entity_name : string) (node : Node) : bool :=
  Py.contains (Py.lower entity_name) (Py.lower (label node)).

(** The loop over the nodes: the matching nodes and their identifiers. *)
Definition scan_nodes (entity_name : string) (nodes : list Node)
    : list Node * gset string :=
  foldl (fun '(matching_nodes, related_node_ids) node =>
           if matches entity_name node
           then (matching_nodes ++ [node], {[n_id node]} ∪ related_node_ids)
           else (matching_nodes, related_node_ids))
        ([], ∅) nodes.

(** The loop over the edges: an edge is kept when one of its ends is already
    related (and its relation is the requested one, if any); both its ends
    then become related, for the edges that follow in the same pass. *)
Definition scan_edges (relation_type : option string)
    (related_node_ids : gset string) (edges : list Edge)
    : list Edge * gset string :=
  foldl (fun '(related_edges, related_node_ids) edge =>
           if bool_decide (source edge ∈ related_node_ids)
              || bool_decide (target edge ∈ related_node_ids)
           then
             if match relation_type with
                | None => true
                | Some rt => bool_decide (relation edge = rt)
                end
             then (related_edges ++ [edge],
                   {[target edge]} ∪ ({[source edge]} ∪ related_node_ids))
             else (related_edges, related_node_ids)
           else (related_edges, related_node_ids))
        ([], related_node_ids) edges.

(** *** Vocabulary of the properties *)

Definition ids (l : list Node) : list string := map n_id l.

(** The nodes merged away: every node of a group but its first. *)
Definition absorbed (groups : list (list Node)) : list Node :=
  flat_map tail groups.

(** The identifiers of all entities of a mapping. *)
Definition all_ids (entities : Dict Entity) : list string :=
  flat_map (fun kv => map e_id kv.2) entities.

Definition confident (entities : Dict Entity) : Prop :=
  forall kv e, kv ∈ entities -> e ∈ kv.2 -> e_confidence e = 0.8%Q.

(** What one inferred edge records: two entities of the mapping, filed under
    different categories, found in the same segment, and the table's
    relation for that ordered pair of categories. *)
Definition inferred_from (entities : Dict Entity) (r : Edge) : Prop :=
  exists type1 list1 entity1 type2 list2 entity2,
    (type1, list1) ∈ entities /\ entity1 ∈ list1
    /\ (type2, list2) ∈ entities /\ entity2 ∈ list2
    /\ type1 <> type2
    /\ e_segment_id entity1 = e_segment_id entity2
    /\ source r = e_id entity1 /\ target r = e_id entity2
    /\ relation r = _determine_relation_type type1 type2
    /\ ((type1, type2), relation r) ∈ relation_table.

Definition relation_names : list string :=
  ["regulates"; "leads_to"; "specifies_penalty"; "commits"; "involves"; "defines"].

(** The share of positions at which two labels carry the same character,
    out of the length of the longer label. *)
Definition positional_ratio (text1 text2 : string) : Q :=
  Z.of_nat (common_chars text1 text2)
  # Pos.of_nat (Nat.max (String.length text1) (String.length text2)).

(** Similar labels, in the words of the specification. *)
Definition similar_labels (text1 text2 : string) : Prop :=
  text1 = text2
  \/ (3 <= String.length text1 /\ 3 <= String.length text2
      /\ (0.8 <= positional_ratio text1 text2)%Q).

(** What the groups found from [todo], starting with the set [processed],
    look like: each is a first node followed by at least one node that passes
    the merge test with it; a first node is never merged away; and a node not
    yet processed is merged away exactly when some earlier node, itself
    neither processed nor merged away, passes the merge test with it. *)
Definition groups_ok (todo : list Node) (processed : gset string)
    (groups : list (list Node)) : Prop :=
  (forall g, g ∈ groups ->
     exists main others,
       g = main :: others /\ others <> []
       /\ main ∈ todo /\ (n_id main ∉ processed) /\ (main ∉ absorbed groups)
       /\ forall m, m ∈ others -> m ∈ todo /\ mergeable main m = true)
  /\ (forall l1 m l2,
        todo = l1 ++ m :: l2 -> n_id m ∉ processed ->
        (m ∈ absorbed groups
         <-> exists k, k ∈ l1 /\ (n_id k ∉ processed) /\ (k ∉ absorbed groups)
                       /\ mergeable k m = true)).

(** Where an edge end is sent by one group, and by the groups in order. *)
Definition redirect_id (main_id : string) (merge_ids : list string) (x : string) : string :=
  if bool_decide (x ∈ merge_ids) then main_id else x.

Definition resolve (groups : list (list Node)) (x : string) : string :=
  foldl (fun x g =>
           match g with
           | main_node :: others => redirect_id (n_id main_node) (ids others) x
           | [] => x
           end) x groups.

Definition retarget (groups : list (list Node)) (edge : Edge) : Edge :=
  {| r_id := r_id edge;
     source := resolve groups (source edge);
     target := resolve groups (target edge);
     relation := relation edge;
     r_confidence := r_confidence edge;
     evidence := evidence edge |}.

(** Two nodes are merged by the merge step on [nodes] when the step sends
    edge ends at either of them to one and the same node. *)
Definition merged_together (nodes : list Node) (node1 node2 : Node) : Prop :=
  resolve (find_groups nodes [] ∅) (n_id node1)
  = resolve (find_groups nodes [] ∅) (n_id node2).

(** *** The builder over its collaborators *)

Section Builder.

(** The identifier returned by the [k]-th call of [uuid.uuid4]. *)
Variable uuid4 : nat -> string.
(** [storage.load_segments(doc_id)]. *)
Variable load_segments : string -> list Segment.
(** [ai_client.extract_legal_entities(text)]. *)
Variable extract_legal_entities : string -> Dict string.
(** [re.findall(pattern, text, re.IGNORECASE)] and [re.escape]. *)
Variable re_findall : string -> string -> list string.
Variable re_escape : string -> string.
(** [storage.list_documents()]. *)
Variable list_documents : list string.

(** [storage.load_knowledge_graph()]; [None] stands for an empty object or
    one without a "nodes" key. *)
Variable load_knowledge_graph : option GraphData.

Definition uuid : Gen string := fun n => (uuid4 n, S n).

(** *** [_local_entity_extraction] *)

Definition _local_entity_extraction (text : string) : Dict string :=
  let entities := empty_entities in
  let entities :=
    foldl (fun entities pattern =>
             dict_extend "legal_articles" (re_findall pattern text) entities)
          entities article_patterns in
  let entities :=
    foldl (fun entities keyword =>
             if Py.contains (Py.lower keyword) (Py.lower text) then
               let pattern :=
                 "(?:[\w\s]{0,20}" +:+ re_escape keyword +:+ "[\w\s]{0,20})" in
               let matches := re_findall pattern text in
               foldl (fun entities m => dict_append "violations" (strip m) entities)
                     entities (take 2 matches)
             else entities)
          entities violation_keywords in
  let entities :=
    foldl (fun entities pattern =>
             dict_extend "penalties" (re_findall pattern text) entities)
          entities penalty_patterns in
  let entities :=
    foldl (fun entities pattern =>
             let matches := re_findall pattern text in
             fst (foldl (fun '(entities, seen) m =>
                           if negb (bool_decide (Py.lower m ∈ seen))
                           then (dict_append "responsible_parties" m entities,
                                 Py.lower m :: seen)
                           else (entities, seen))
                        (entities, @nil string) matches))
          entities party_patterns in
  let entities :=
    foldl (fun entities keyword =>
             if Py.contains (Py.lower keyword) (Py.lower text)
             then dict_append "related_concepts" keyword entities
             else entities)
          entities concept_keywords in
  map (fun kv => (fst kv, take 5 (unique_ci (snd kv) []))) entities.

(** *** [extract_entities_from_document] *)

Definition extract_entities_from_document (doc_id : string) : Gen (Dict Entity) :=
  let segments := load_segments doc_id in
  match segments with
  | [] => ret []
  | _ =>
    let all_entities : Dict Entity := map (fun kv => (fst kv, [])) entity_types in
    for_each segments (fun all_entities segment =>
      let entities := extract_legal_entities (s_content segment) in
      let entities :=
        if negb (any_values entities)
        then _local_entity_extraction (s_content segment)
        else entities in
      for_each entities (fun all_entities '(entity_type, entity_list) =>
        if dict_has entity_type all_entities then
          for_each entity_list (fun all_entities entity_text =>
            id <- uuid ;;
            let entity_obj :=
              {| e_id := id;
                 e_text := entity_text;
                 e_type := entity_type_of entity_type;
                 e_document_id := doc_id;
                 e_segment_id := s_id segment;
                 e_confidence := if any_values entities then 0.8 else 0.6;
                 e_source := Py.slice_to 200 (s_content segment) +:+ "..." |} in
            ret (dict_append entity_type entity_obj all_entities))
          all_entities
        else ret all_entities)
      all_entities)
    all_entities
  end.

(** *** [find_relationships] *)

Definition find_relationships (entities : Dict Entity) : Gen (list Edge) :=
  for_each entities (fun relationships '(entity_type1, entity_list1) =>
    for_each entity_list1 (fun relationships entity1 =>
      for_each entities (fun relationships '(entity_type2, entity_list2) =>
        if negb (bool_decide (entity_type1 = entity_type2)) then
          for_each entity_list2 (fun relationships entity2 =>
            if bool_decide (e_segment_id entity1 = e_segment_id entity2) then
              let relation_type := _determine_relation_type entity_type1 entity_type2 in
              if negb (bool_decide (relation_type = "")) then
                id <- uuid ;;
                ret (relationships ++
                       [ {| r_id := id;
                            source := e_id entity1;
                            target := e_id entity2;
                            relation := relation_type;
                            r_confidence := 0.7;
                            evidence := e_source entity1 |} ])
              else ret relationships
            else ret relationships)
          relationships
        else ret relationships)
      relationships)
    relationships)
  [].

(** *** [build_knowledge_graph] *)

(** The first loop of [build_knowledge_graph]: the node and edge lists
    before the merge. *)
Definition collect_graph (doc_ids : list string) : Gen (list Node * list Edge) :=
  for_each doc_ids (fun '(all_nodes, all_edges) doc_id =>
    entities <- extract_entities_from_document doc_id ;;
    let all_nodes :=
      foldl (fun all_nodes '(entity_type, entity_list) =>
               foldl (fun all_nodes entity => all_nodes ++ [node_of_entity entity])
                     all_nodes entity_list)
            all_nodes entities in
    relationships <- find_relationships entities ;;
    ret (all_nodes, all_edges ++ relationships))
  ([], []).

Definition build_knowledge_graph (doc_ids : option (list string)) : Gen GraphData :=
  let doc_ids := default list_documents doc_ids in
  collected <- collect_graph doc_ids ;;
  let '(all_nodes, all_edges) := _merge_similar_entities (fst collected) (snd collected) in
  ret {| nodes := all_nodes;
         edges := all_edges;
         metadata := {| total_nodes := length all_nodes;
                        total_edges := length all_edges;
                        document_count := length doc_ids |} |}.

(** *** [query_knowledge_graph] *)

Definition query_knowledge_graph (entity_name : string) (relation_type : option string)
    : QueryResult :=
  match load_knowledge_graph with
  | None =>
      {| q_nodes := []; q_edges := [];
         q_message := Some "Knowledge graph is empty"; query_info := None |}
  | Some graph_data =>
      let '(matching_nodes, related_node_ids) :=
        scan_nodes entity_name (nodes graph_data) in
      let '(related_edges, related_node_ids) :=
        scan_edges relation_type related_node_ids (edges graph_data) in
      let result_nodes :=
        List.filter (fun node => bool_decide (n_id node ∈ related_node_ids))
                    (nodes graph_data) in
      {| q_nodes := result_nodes;
         q_edges := related_edges;
         q_message := None;
         query_info := Some {| qi_entity_name := entity_name;
                               qi_relation_type := relation_type;
                               found_matches := length matching_nodes |} |}
  end.

(** *** Well-formedness of what the builder reads and writes *)

(** Identifiers drawn between two states of the counter, without repeats. *)
Definition drawn (from upto : nat) (l : list string) : Prop :=
  from <= upto
  /\ NoDup l
  /\ forall x, x ∈ l -> exists k, from <= k /\ k < upto /\ x = uuid4 k.

(** Before the merge: node identifiers are distinct and every edge joins two
    nodes of the list. *)
Definition well_linked (upto : nat) (graph : list Node * list Edge) : Prop :=
  drawn 0 upto (ids graph.1)
  /\ forall e, e ∈ graph.2 -> source e ∈ ids graph.1 /\ target e ∈ ids graph.1.

(** The stored graph is well formed: node identifiers are distinct and every
    edge joins two stored nodes. *)
Definition stored_graph_ok : Prop :=
  forall graph_data, load_knowledge_graph = Some graph_data ->
    NoDup (ids (nodes graph_data))
    /\ forall e, e ∈ edges graph_data ->
         source e ∈ ids (nodes graph_data) /\ target e ∈ ids (nodes graph_data).

End Builder.

(** *** Sample data *)

(** A segment naming a penalty and a responsible party: the two categories
    have no table entry in either order. *)
Definition demo_entity (id text category : string) : Entity :=
  {| e_id := id; e_text := text; e_type := entity_type_of category;
     e_document_id := "d1"; e_segment_id := "s1"; e_confidence := 0.8;
     e_source := "A retailer risks a fine..." |}.

Definition demo_unrelated : Dict Entity :=
  [ ("penalties", [demo_entity "e1" "fine" "penalties"]);
    ("responsible_parties", [demo_entity "e2" "retailer" "responsible_parties"]) ].

Definition demo_uuid (k : nat) : string := "uuid-" +:+ pretty k.

Definition demo_node (id text : string) : Node :=
  {| n_id := id; label := text; n_type := "VIOLATION";
     properties := {| p_document_id := "d1"; p_confidence := 0.8; p_source := "" |} |}.

Definition demo_edge (src tgt : string) : Edge :=
  {| r_id := "r"; source := src; target := tgt; relation := "leads_to";
     r_confidence := 0.7; evidence := "" |}.

(** One stored document of one segment. *)
Definition demo_segments (text : string) (doc_id : string) : list Segment :=
  [ {| s_id := doc_id +:+ "-0"; s_content := text |} ].

(** A generation client that answers with no entity at all, and one that
    names an article and two spellings of a violation. *)
Definition demo_silent (text : string) : Dict string := empty_entities.

Definition demo_answer (text : string) : Dict string :=
  [ ("legal_articles", ["Article 5"]);
    ("violations", ["price fixing"; "price fixings"]);
    ("penalties", []); ("responsible_parties", []); ("related_concepts", []) ].

(** A regular-expression engine on a text in which no pattern matches. *)
Definition demo_no_match (pattern text : string) : list string := [].

(** The entity the rule-based strategy builds from the segment "compliance". *)
Definition demo_fallback_entity : Entity :=
  {| e_id := "uuid-0"; e_text := "compliance"; e_type := "CONCEPT";
     e_document_id := "d1"; e_segment_id := "d1-0"; e_confidence := 0.8;
     e_source := "compliance..." |}.

Definition demo_graph : GraphData :=
  {| nodes := [ demo_node "a" "Price Fixing"; demo_node "b" "Article 5";
                demo_node "c" "fine"; demo_node "d" "retailer" ];
     edges := [ demo_edge "b" "a"; demo_edge "a" "c" ];
     metadata := {| total_nodes := 4; total_edges := 2; document_count := 1 |} |}.


(** *** Loop invariants *)

(** An invariant of the accumulator and the identifier counter that every
    iteration preserves holds after the loop. *)
Lemma for_each_inv {A B} (I : B -> nat -> Prop) (l : list A)
    (body : B -> A -> Gen B) (acc : B) (n : nat) :
  I acc n ->
  (forall a acc n, a ∈ l -> I acc n -> I (body acc a n).1 (body acc a n).2) ->
  I (for_each l body acc n).1 (for_each l body acc n).2.
Proof.
  revert acc n. induction l as [|a l IH]; intros acc n Hacc Hbody; [exact Hacc|].
  cbn [for_each]. unfold bind.
  pose proof (Hbody a acc n ltac:(left) Hacc) as Hstep.
  destruct (body acc a n) as [acc' n']. cbn [fst snd] in Hstep.
  apply IH; [exact Hstep|].
  intros a' acc'' n'' Ha'. apply Hbody. by right.
Qed.

Lemma foldl_inv {A B} (I : B -> Prop) (f : B -> A -> B) (l : list A) (b : B) :
  I b -> (forall b a, a ∈ l -> I b -> I (f b a)) -> I (foldl f b l).
Proof.
  revert b. induction l as [|a l IH]; intros b Hb Hstep; [exact Hb|].
  cbn. apply IH; [apply Hstep; [left|exact Hb]|].
  intros b' a' Ha'. apply Hstep. by right.
Qed.

Lemma dict_append_elem {V} (P : V -> Prop) (k : string) (v : V) (d : Dict V) :
  P v ->
  (forall kv x, kv ∈ d -> x ∈ kv.2 -> P x) ->
  forall kv x, kv ∈ dict_append k v d -> x ∈ kv.2 -> P x.
Proof.
  intros Hv. induction d as [|[k' vs] d IH]; intros Hd kv x Hkv Hx; cbn in Hkv.
  - by apply elem_of_nil in Hkv.
  - case_decide; apply elem_of_cons in Hkv as [->|Hkv]; cbn in *.
    + apply elem_of_app in Hx as [Hx|Hx].
      * eapply (Hd (k', vs)); [left|exact Hx].
      * apply list_elem_of_singleton in Hx as ->. exact Hv.
    + eapply Hd; [right; exact Hkv|exact Hx].
    + eapply (Hd (k', vs)); [left|exact Hx].
    + eapply IH; [|exact Hkv|exact Hx].
      intros kv' x' Hkv' Hx'. eapply Hd; [right; exact Hkv'|exact Hx'].
Qed.

Lemma any_values_elem {V} (d : Dict V) (k : string) (vs : list V) (v : V) :
  (k, vs) ∈ d -> v ∈ vs -> any_values d = true.
Proof.
  intros Hk Hv. unfold any_values. apply existsb_exists.
  exists (k, vs). split; [by apply list_elem_of_In|].
  cbn. rewrite bool_decide_eq_false_2; [done|].
  intros ->. by apply elem_of_nil in Hv.
Qed.

(** *** The relation table *)

Lemma determine_relation_type_table (type1 type2 : string) :
  _determine_relation_type type1 type2 <> "" ->
  ((type1, type2), _determine_relation_type type1 type2) ∈ relation_table.
Proof.
  unfold _determine_relation_type, relation_map. intros Hne.
  destruct (list_to_map relation_table !! (type1, type2)) as [rel|] eqn:Hlook;
    [|done].
  by apply elem_of_list_to_map_2 in Hlook.
Qed.

Lemma relation_table_names (key : string * string) (rel : string) :
  (key, rel) ∈ relation_table -> rel ∈ relation_names.
Proof.
  unfold relation_table, relation_names. intros H.
  repeat (apply elem_of_cons in H as [[= -> ->]|H]; [repeat constructor|]).
  by apply elem_of_nil in H.
Qed.

(** *** Label similarity *)

Lemma ratio_at_least_iff (c m : nat) :
  0 < m ->
  (0.8 <= Z.of_nat c # Pos.of_nat m)%Q <-> 4 * m <= 5 * c.
Proof.
  intros Hm. unfold Qle. cbn [Qnum Qden].
  assert (Hpos : Z.pos (Pos.of_nat m) = Z.of_nat m).
  { rewrite <- positive_nat_Z, Nat2Pos.id; lia. }
  rewrite Hpos. lia.
Qed.

Lemma common_chars_le (text1 text2 : string) :
  common_chars text1 text2 <= Nat.min (String.length text1) (String.length text2).
Proof.
  revert text2. induction text1 as [|a t1 IH]; intros [|b t2]; cbn; try lia.
  specialize (IH t2). case_decide; lia.
Qed.

Lemma common_chars_full (text1 text2 : string) :
  String.length text1 = String.length text2 ->
  common_chars text1 text2 = String.length text1 ->
  text1 = text2.
Proof.
  revert text2. induction text1 as [|a t1 IH]; intros [|b t2]; cbn; try done.
  intros Hlen Hcommon. pose proof (common_chars_le t1 t2).
  case_decide; [|lia]. subst. f_equal. apply IH; lia.
Qed.

Lemma is_similar_text_spec (text1 text2 : string) :
  _is_similar_text text1 text2 0.8 = true <-> similar_labels text1 text2.
Proof.
  unfold _is_similar_text, similar_labels, positional_ratio.
  case_decide as Heq; [tauto|].
  destruct (String.length text1 <? 3) eqn:H1; cbn [orb].
  { apply Nat.ltb_lt in H1. split; [done|]. intros [?|(? & ? & ?)]; [done|lia]. }
  destruct (String.length text2 <? 3) eqn:H2.
  { apply Nat.ltb_lt in H2. split; [done|]. intros [?|(? & ? & ?)]; [done|lia]. }
  apply Nat.ltb_ge in H1, H2. rewrite Qle_bool_iff. split.
  - intros Hratio. right. by repeat split.
  - intros [?|(_ & _ & Hratio)]; [done|exact Hratio].
Qed.

(** Unless both labels are empty, similarity is decided by the ratio alone:
    labels shorter than three characters that differ stay below 0.8. *)
Lemma is_similar_text_ratio (text1 text2 : string) :
  0 < Nat.max (String.length text1) (String.length text2) ->
  _is_similar_text text1 text2 0.8 = true <-> (0.8 <= positional_ratio text1 text2)%Q.
Proof.
  intros Hmax. rewrite is_similar_text_spec. unfold similar_labels, positional_ratio.
  rewrite ratio_at_least_iff by exact Hmax.
  split.
  - intros [->|(_ & _ & Hratio)]; [|exact Hratio].
    assert (Hfull : forall t, common_chars t t = String.length t).
    { induction t as [|a t IHt]; cbn; [done|]. case_decide; [lia|done]. }
    rewrite Hfull. lia.
  - intros Hratio.
    destruct (decide (text1 = text2)) as [Heq|Hne]; [by left|right].
    pose proof (common_chars_le text1 text2) as Hle.
    pose proof (common_chars_full text1 text2) as Hfull.
    destruct (decide (String.length text1 = String.length text2)) as [Hlen|Hlen].
    + specialize (Hfull Hlen).
      assert (common_chars text1 text2 <> String.length text1) by tauto.
      repeat split; lia.
    + repeat split; lia.
Qed.

(** *** The groups of the merge step *)

Lemma node_of_id (l : list Node) (x y : Node) :
  NoDup (ids l) -> x ∈ l -> y ∈ l -> n_id x = n_id y -> x = y.
Proof.
  induction l as [|z l IH]; cbn; intros Hnd Hx Hy Hid.
  - by apply elem_of_nil in Hx.
  - apply NoDup_cons in Hnd as [Hz Hnd].
    apply elem_of_cons in Hx as [->|Hx]; apply elem_of_cons in Hy as [->|Hy].
    + done.
    + exfalso. apply Hz. rewrite Hid. by apply list_elem_of_fmap_2.
    + exfalso. apply Hz. rewrite <- Hid. by apply list_elem_of_fmap_2.
    + by apply IH.
Qed.

(** The inner loop gathers, in order, the later nodes that are not yet
    processed and pass the merge test, and marks them processed. *)
Lemma collect_group_spec (node1 : Node) (rest : list Node) :
  NoDup (ids rest) ->
  forall (group : list Node) (processed : gset string),
    let taken :=
      List.filter (fun x => bool_decide (n_id x ∉ processed) && mergeable node1 x) rest in
    collect_group node1 rest group processed
    = (group ++ taken, list_to_set (ids taken) ∪ processed).
Proof.
  induction rest as [|node2 rest IH]; intros Hnd group processed; cbn.
  - rewrite app_nil_r. f_equal. cbn. by rewrite union_empty_l_L.
  - apply NoDup_cons in Hnd as [Hfresh Hnd].
    case_decide as Hproc.
    + rewrite bool_decide_eq_false_2 by tauto. cbn. by apply IH.
    + rewrite bool_decide_eq_true_2 by done. cbn.
      destruct (mergeable node1 node2) eqn:Hm; [|by apply IH].
      rewrite IH by done. cbn.
      assert (Hsame :
        List.filter (fun x => bool_decide (n_id x ∉ {[n_id node2]} ∪ processed)
                              && mergeable node1 x) rest
        = List.filter (fun x => bool_decide (n_id x ∉ processed)
                                && mergeable node1 x) rest).
      { apply filter_ext_in. intros x Hx. f_equal. apply bool_decide_ext.
        assert (n_id x <> n_id node2).
        { intros Heq. apply Hfresh. rewrite <- Heq.
          by apply list_elem_of_fmap_2, list_elem_of_In. }
        rewrite not_elem_of_union, not_elem_of_singleton. tauto. }
      rewrite Hsame, <- app_assoc. cbn. f_equal.
      apply set_eq. intros y. rewrite !elem_of_union. tauto.
Qed.

Lemma groups_ok_absorbed (todo : list Node) (processed : gset string)
    (groups : list (list Node)) (x : Node) :
  groups_ok todo processed groups -> x ∈ absorbed groups -> x ∈ todo.
Proof.
  intros [Hgroups _] Hx. unfold absorbed in Hx.
  apply list_elem_of_In, in_flat_map in Hx as (g & Hg & Hx).
  apply list_elem_of_In in Hg, Hx.
  destruct (Hgroups g Hg) as (main & others & -> & _ & _ & _ & _ & Hothers).
  by apply Hothers.
Qed.

Lemma find_groups_spec (todo : list Node) :
  NoDup (ids todo) ->
  forall (groups : list (list Node)) (processed : gset string),
    exists new,
      find_groups todo groups processed = groups ++ new
      /\ groups_ok todo processed new.
Proof.
  induction todo as [|node1 rest IH]; intros Hnd groups processed.
  { exists []. cbn. rewrite app_nil_r. split; [done|]. split.
    - intros g Hg. by apply elem_of_nil in Hg.
    - intros [|??] ??; discriminate. }
  cbn [find_groups].
  pose proof Hnd as Hnd0.
  apply NoDup_cons in Hnd as [Hfresh Hnd].
  assert (Hnot_rest : forall x, x ∈ rest -> n_id x <> n_id node1).
  { intros x Hx Heq. apply Hfresh. rewrite <- Heq. by apply list_elem_of_fmap_2. }
  case_decide as Hproc.
  - (* node1 was merged away earlier *)
    destruct (IH Hnd groups processed) as (new & Heq & Hok).
    exists new. split; [exact Heq|].
    destruct Hok as [Hgroups Hchar]. split.
    + intros g Hg. destruct (Hgroups g Hg) as (main & others & -> & ? & ? & ? & ? & Hoth).
      exists main, others. repeat split; try done; [by right|by right; apply Hoth|by apply Hoth].
    + intros [|k0 l1] m l2 Htodo Hm; cbn in Htodo; injection Htodo as <- ->; [done|].
      rewrite (Hchar l1 m l2 eq_refl Hm). split.
      * intros (k & Hk & ?). exists k. split; [by right|done].
      * intros (k & Hk & Hkp & ?). exists k.
        apply elem_of_cons in Hk as [->|Hk]; [done|]. by split.
  - (* node1 starts a group *)
    rewrite collect_group_spec by exact Hnd. cbn [app].
    set (taken := List.filter _ rest).
    assert (Htaken : forall x, x ∈ taken
              <-> x ∈ rest /\ (n_id x ∉ processed) /\ mergeable node1 x = true).
    { intros x. unfold taken. rewrite list_elem_of_In, filter_In, <- list_elem_of_In.
      rewrite andb_true_iff, bool_decide_eq_true. tauto. }
    assert (Hids_taken : forall x, x ∈ rest -> n_id x ∈ ids taken <-> x ∈ taken).
    { intros x Hx. split; [|by apply list_elem_of_fmap_2].
      intros Hid. apply list_elem_of_fmap in Hid as (y & Hid & Hy).
      assert (y ∈ rest) by by apply Htaken.
      by rewrite (node_of_id rest x y Hnd Hx ltac:(done) Hid). }
    set (groups' := if 1 <? length (node1 :: taken) then groups ++ [node1 :: taken] else groups).
    set (processed' := {[n_id node1]} ∪ (list_to_set (ids taken) ∪ processed)).
    destruct (IH Hnd groups' processed') as (new & Heq & Hok).
    set (first := if 1 <? length (node1 :: taken) then [node1 :: taken] else []).
    exists (first ++ new).
    assert (Habs : absorbed (first ++ new) = taken ++ absorbed new).
    { unfold absorbed, first. rewrite flat_map_app. cbn [length].
      destruct taken; cbn; by rewrite ?app_nil_r. }
    split.
    { rewrite Heq. unfold groups', first.
      destruct (1 <? length (node1 :: taken)); by rewrite <- ?app_assoc. }
    assert (Hnew_rest : forall x, x ∈ absorbed new -> x ∈ rest)
      by (intros x; by apply groups_ok_absorbed with (processed := processed')).
    assert (Hproc' : forall x, x ∈ rest ->
              n_id x ∉ processed' <-> (n_id x ∉ processed) /\ (x ∉ taken)).
    { intros x Hx. unfold processed'.
      rewrite !not_elem_of_union, not_elem_of_singleton, elem_of_list_to_set.
      rewrite (Hids_taken x Hx). specialize (Hnot_rest x Hx). tauto. }
    destruct Hok as [Hgroups Hchar]. split.
    + intros g Hg. rewrite Habs.
      apply elem_of_app in Hg as [Hg|Hg].
      * unfold first in Hg. destruct (1 <? length (node1 :: taken)) eqn:Hlen;
          [|by apply elem_of_nil in Hg].
        apply list_elem_of_singleton in Hg as ->.
        exists node1, taken. repeat split.
        -- intros ->. cbn in Hlen. discriminate.
        -- by left.
        -- exact Hproc.
        -- intros Hin. apply elem_of_app in Hin as [Hin|Hin].
           ++ apply Htaken in Hin as [Hin _]. by apply (Hnot_rest node1).
           ++ apply Hnew_rest in Hin. by apply (Hnot_rest node1).
        -- right. by apply Htaken.
        -- by apply Htaken.
      * destruct (Hgroups g Hg) as (main & others & -> & ? & Hmain & Hmp & Hma & Hoth).
        exists main, others. repeat split; try done.
        -- by right.
        -- by apply (Hproc' main Hmain).
        -- intros Hin. apply elem_of_app in Hin as [Hin|Hin]; [|done].
           by apply (Hproc' main Hmain) in Hmp as [_ ?].
        -- right. by apply Hoth.
        -- by apply Hoth.
    + intros [|k0 l1] m l2 Htodo Hm; cbn in Htodo; injection Htodo as -> ->.
      * (* the first node itself is never merged away *)
        rewrite Habs. split.
        -- intros Hin. exfalso. apply elem_of_app in Hin as [Hin|Hin].
           ++ apply Htaken in Hin as [Hin _]. by apply (Hnot_rest m).
           ++ apply Hnew_rest in Hin. by apply (Hnot_rest m).
        -- intros (k & Hk & _). by apply elem_of_nil in Hk.
      * assert (Hm_rest : m ∈ l1 ++ m :: l2) by (apply elem_of_app; right; left).
        assert (Hl1_rest : forall k, k ∈ l1 -> k ∈ l1 ++ m :: l2)
          by (intros k Hk; apply elem_of_app; by left).
        rewrite Habs. destruct (mergeable k0 m) eqn:Hmerge.
        -- (* taken by the first node *)
           split.
           ++ intros _. exists k0. repeat split; [by left|exact Hproc| |exact Hmerge].
              intros Hin. apply elem_of_app in Hin as [Hin|Hin].
              ** apply Htaken in Hin as [Hin _]. by apply (Hnot_rest k0).
              ** apply Hnew_rest in Hin. by apply (Hnot_rest k0).
           ++ intros _. apply elem_of_app. left. by apply Htaken.
        -- assert (Hm_not_taken : m ∉ taken).
           { intros Hin. apply Htaken in Hin as (_ & _ & ?). congruence. }
           assert (Hm' : n_id m ∉ processed') by by apply (Hproc' m Hm_rest).
           rewrite elem_of_app, (Hchar l1 m l2 eq_refl Hm'). split.
           ++ intros [?|(k & Hk & Hkp & Hka & Hkm)]; [done|].
              apply (Hproc' k (Hl1_rest k Hk)) in Hkp as [Hkp Hkt].
              exists k. repeat split; [by right|exact Hkp| |exact Hkm].
              intros Hin. apply elem_of_app in Hin as [?|?]; done.
           ++ intros (k & Hk & Hkp & Hka & Hkm).
              apply elem_of_cons in Hk as [->|Hk]; [congruence|].
              right. exists k. repeat split; [exact Hk| | |exact Hkm].
              ** apply (Hproc' k (Hl1_rest k Hk)). split; [exact Hkp|].
                 intros Hin. apply Hka. apply elem_of_app. by left.
              ** intros Hin. apply Hka. apply elem_of_app. by right.
Qed.

(** *** The second loop of the merge step *)

Lemma filter_all {A} (f : A -> bool) (l : list A) :
  (forall x, x ∈ l -> f x = true) -> List.filter f l = l.
Proof.
  induction l as [|x l IH]; intros Hall; cbn; [done|].
  rewrite Hall by left. f_equal. apply IH. intros y Hy. apply Hall. by right.
Qed.

Lemma filter_twice {A} (f g : A -> bool) (l : list A) :
  List.filter f (List.filter g l) = List.filter (fun x => g x && f x) l.
Proof.
  induction l as [|x l IH]; cbn; [done|].
  destruct (g x); cbn; [destruct (f x)|]; by rewrite IH.
Qed.

Lemma NoDup_list_filter {A} (f : A -> bool) (l : list A) :
  NoDup l -> NoDup (List.filter f l).
Proof. intros H. by apply NoDup_ListNoDup, List.NoDup_filter, NoDup_ListNoDup. Qed.

Lemma NoDup_ids_filter (f : Node -> bool) (l : list Node) :
  NoDup (ids l) -> NoDup (ids (List.filter f l)).
Proof.
  induction l as [|x l IH]; cbn; [done|].
  intros [Hx Hnd]%NoDup_cons. destruct (f x); cbn; [|by apply IH].
  apply NoDup_cons. split; [|by apply IH].
  intros Hin. apply Hx. apply list_elem_of_fmap in Hin as (y & -> & Hy).
  apply list_elem_of_fmap_2.
  by apply list_elem_of_In, filter_In in Hy as [Hy%list_elem_of_In _].
Qed.

Lemma list_remove_filter (x : Node) (nodes : list Node) :
  NoDup nodes ->
  list_remove x nodes = List.filter (fun y => bool_decide (y <> x)) nodes.
Proof.
  induction nodes as [|y nodes IH]; intros Hnd; cbn; [done|].
  apply NoDup_cons in Hnd as [Hy Hnd].
  case_decide as Hyx.
  - subst. rewrite bool_decide_eq_false_2 by tauto.
    symmetry. apply filter_all. intros z Hz. apply bool_decide_eq_true_2.
    by intros ->.
  - rewrite bool_decide_eq_true_2 by done. f_equal. by apply IH.
Qed.

Lemma remove_others (others nodes : list Node) :
  NoDup nodes ->
  foldl (fun nodes node_to_remove =>
           if bool_decide (node_to_remove ∈ nodes)
           then list_remove node_to_remove nodes else nodes) nodes others
  = List.filter (fun y => bool_decide (y ∉ others)) nodes.
Proof.
  revert nodes. induction others as [|x others IH]; intros nodes Hnd; cbn [foldl].
  - symmetry. apply filter_all. intros y _. apply bool_decide_eq_true_2.
    apply not_elem_of_nil.
  - assert (Hstep : (if bool_decide (x ∈ nodes) then list_remove x nodes else nodes)
                    = List.filter (fun y => bool_decide (y <> x)) nodes).
    { case_bool_decide as Hin; [by apply list_remove_filter|].
      symmetry. apply filter_all. intros y Hy. apply bool_decide_eq_true_2.
      by intros ->. }
    rewrite Hstep, IH by by apply NoDup_list_filter.
    rewrite filter_twice. apply filter_ext. intros y.
    rewrite <- bool_decide_and. apply bool_decide_ext.
    rewrite not_elem_of_cons. tauto.
Qed.

(** The surviving nodes are the nodes not merged away, in their order. *)
Lemma apply_groups_nodes (groups : list (list Node)) :
  forall (nodes : list Node) (edges : list Edge),
    NoDup nodes ->
    (apply_groups groups nodes edges).1
    = List.filter (fun y => bool_decide (y ∉ absorbed groups)) nodes.
Proof.
  induction groups as [|g groups IH]; intros nodes edges Hnd; cbn [apply_groups].
  - symmetry. apply filter_all. intros y _. apply bool_decide_eq_true_2.
    apply not_elem_of_nil.
  - destruct g as [|main_node others]; [by apply IH|].
    rewrite remove_others by done.
    rewrite IH by by apply NoDup_list_filter.
    rewrite filter_twice. apply filter_ext. intros y.
    rewrite <- bool_decide_and. apply bool_decide_ext.
    unfold absorbed. cbn [flat_map tail]. rewrite not_elem_of_app. tauto.
Qed.

Lemma redirect_retarget (groups : list (list Node)) (main_node : Node)
    (others : list Node) (edge : Edge) :
  retarget groups (redirect (n_id main_node) (ids others) edge)
  = retarget ((main_node :: others) :: groups) edge.
Proof.
  destruct edge as [rid src tgt rel conf ev].
  unfold retarget, redirect, resolve, redirect_id. cbn.
  by repeat case_bool_decide.
Qed.

(** Every edge is kept; its two ends are sent through the groups. *)
Lemma apply_groups_edges (groups : list (list Node)) :
  forall (nodes : list Node) (edges : list Edge),
    (apply_groups groups nodes edges).2 = map (retarget groups) edges.
Proof.
  induction groups as [|g groups IH]; intros nodes edges; cbn [apply_groups].
  - cbn. induction edges as [|[] edges IHe]; cbn; [done|]. by rewrite <- IHe.
  - destruct g as [|main_node others]; [by rewrite IH|].
    rewrite IH, map_map. apply map_ext. intros edge. apply redirect_retarget.
Qed.

Lemma resolve_cons (g : list Node) (groups : list (list Node)) (x : string) :
  resolve (g :: groups) x
  = resolve groups
      match g with
      | main_node :: others => redirect_id (n_id main_node) (ids others) x
      | [] => x
      end.
Proof. reflexivity. Qed.

Lemma resolve_cases (groups : list (list Node)) (x : string) :
  resolve groups x = x
  \/ exists main_node others,
       (main_node :: others) ∈ groups /\ resolve groups x = n_id main_node.
Proof.
  revert x. induction groups as [|g groups IH]; intros x; [by left|].
  rewrite resolve_cons.
  destruct g as [|main_node others].
  { destruct (IH x) as [->|(m & o & Hin & ->)]; [by left|].
    right. exists m, o. split; [by right|done]. }
  unfold redirect_id. case_bool_decide as Hx.
  - destruct (IH (n_id main_node)) as [->|(m & o & Hin & ->)].
    + right. exists main_node, others. split; [by left|done].
    + right. exists m, o. split; [by right|done].
  - destruct (IH x) as [->|(m & o & Hin & ->)]; [by left|].
    right. exists m, o. split; [by right|done].
Qed.

Lemma ids_absorbed_cons (g : list Node) (groups : list (list Node)) :
  ids (absorbed (g :: groups)) = ids (tail g) ++ ids (absorbed groups).
Proof. unfold ids, absorbed. cbn [flat_map]. by rewrite map_app. Qed.

(** When no first node of a group is among the identifiers merged away, an
    edge end never comes to rest on an identifier merged away. *)
Lemma resolve_not_absorbed (merged : list string) (groups : list (list Node)) :
  (forall main_node others, (main_node :: others) ∈ groups -> n_id main_node ∉ merged) ->
  (forall x, x ∈ ids (absorbed groups) -> x ∈ merged) ->
  forall x, resolve groups x ∉ ids (absorbed groups).
Proof.
  induction groups as [|g groups IH]; intros Hmains Hsub x.
  { cbn. apply not_elem_of_nil. }
  assert (Hmains' : forall m o, (m :: o) ∈ groups -> n_id m ∉ merged)
    by (intros m o Hin; apply (Hmains m o); by right).
  assert (Hsub' : forall y, y ∈ ids (absorbed groups) -> y ∈ merged).
  { intros y Hy. apply Hsub. rewrite ids_absorbed_cons. apply elem_of_app. by right. }
  assert (Htail : forall y, y ∈ ids (tail g) -> y ∈ merged).
  { intros y Hy. apply Hsub. rewrite ids_absorbed_cons. apply elem_of_app. by left. }
  rewrite resolve_cons, ids_absorbed_cons, not_elem_of_app.
  split; [|by apply IH].
  destruct g as [|main_node others]; [apply not_elem_of_nil|].
  cbn [tail] in *.
  assert (Hx1 : redirect_id (n_id main_node) (ids others) x ∉ ids others).
  { unfold redirect_id. case_bool_decide as Hx; [|exact Hx].
    intros Hin. apply (Hmains main_node others); [by left|by apply Htail]. }
  destruct (resolve_cases groups (redirect_id (n_id main_node) (ids others) x))
    as [Heq|(m & o & Hin & Heq)]; rewrite Heq; [exact Hx1|].
  intros Hin'. apply (Hmains' m o Hin). by apply Htail.
Qed.

(** *** The merge step as a whole *)

(** With distinct node identifiers the merge step keeps, in order, the nodes
    of no group's tail, and sends every edge end through the groups. *)
Lemma merge_spec (nodes : list Node) (edges : list Edge) :
  NoDup (ids nodes) ->
  let groups := find_groups nodes [] ∅ in
  _merge_similar_entities nodes edges
  = (List.filter (fun y => bool_decide (y ∉ absorbed groups)) nodes,
     map (retarget groups) edges)
  /\ groups_ok nodes ∅ groups.
Proof.
  intros Hnd groups. unfold _merge_similar_entities. fold groups.
  split.
  - rewrite (surjective_pairing (apply_groups groups nodes edges)).
    rewrite apply_groups_nodes, apply_groups_edges; [done|].
    by apply NoDup_fmap_1 in Hnd.
  - destruct (find_groups_spec nodes Hnd [] ∅) as (new & Heq & Hok).
    unfold groups. by rewrite Heq.
Qed.

Lemma survives_iff (nodes : list Node) (edges : list Edge) (m : Node) :
  NoDup (ids nodes) ->
  m ∈ (_merge_similar_entities nodes edges).1
  <-> m ∈ nodes /\ m ∉ absorbed (find_groups nodes [] ∅).
Proof.
  intros Hnd. destruct (merge_spec nodes edges Hnd) as [-> _]. cbn [fst].
  rewrite list_elem_of_In, filter_In, <- list_elem_of_In, bool_decide_eq_true.
  tauto.
Qed.

(** A node survives the merge exactly when no earlier surviving node passes
    the merge test with it. *)
Lemma merge_first_match (nodes : list Node) (edges : list Edge) :
  NoDup (ids nodes) ->
  forall l1 m l2,
    nodes = l1 ++ m :: l2 ->
    (m ∈ (_merge_similar_entities nodes edges).1
     <-> forall k, k ∈ l1 -> k ∈ (_merge_similar_entities nodes edges).1 ->
                   mergeable k m = false).
Proof.
  intros Hnd l1 m l2 Hnodes.
  destruct (merge_spec nodes edges Hnd) as [_ [_ Hchar]].
  specialize (Hchar l1 m l2 Hnodes (not_elem_of_empty _)).
  assert (Hm : m ∈ nodes) by (rewrite Hnodes; apply elem_of_app; right; left).
  assert (Hl1 : forall k, k ∈ l1 -> k ∈ nodes)
    by (intros k Hk; rewrite Hnodes; apply elem_of_app; by left).
  rewrite survives_iff by done. split.
  - intros [_ Hnot] k Hk Hsurv. apply survives_iff in Hsurv as [_ Hk_not]; [|done].
    destruct (mergeable k m) eqn:Hmerge; [|done].
    exfalso. apply Hnot, Hchar. exists k. repeat split; try done;
      apply not_elem_of_empty.
  - intros Hnone. split; [exact Hm|].
    intros Habs. apply Hchar in Habs as (k & Hk & _ & Hk_not & Hmerge).
    rewrite Hnone in Hmerge; [done|exact Hk|].
    apply survives_iff; [done|]. split; [by apply Hl1|exact Hk_not].
Qed.

Lemma merge_two_nodes (node1 node2 : Node) (edges : list Edge) :
  n_id node1 <> n_id node2 ->
  (_merge_similar_entities [node1; node2] edges).1
  = if mergeable node1 node2 then [node1] else [node1; node2].
Proof.
  intros Hne.
  assert (Hnd : NoDup (ids [node1; node2])).
  { cbn. apply NoDup_cons. split; [|apply NoDup_singleton].
    by intros ?%list_elem_of_singleton. }
  destruct (merge_spec [node1; node2] edges Hnd) as [-> [_ Hchar]]. cbn [fst].
  pose proof (Hchar [] node1 [node2] eq_refl (not_elem_of_empty _)) as H1.
  pose proof (Hchar [node1] node2 [] eq_refl (not_elem_of_empty _)) as H2.
  assert (Hn1 : node1 ∉ absorbed (find_groups [node1; node2] [] ∅)).
  { intros Hin. apply H1 in Hin as (k & Hk & _). by apply elem_of_nil in Hk. }
  cbn [List.filter]. rewrite bool_decide_eq_true_2 by exact Hn1.
  destruct (mergeable node1 node2) eqn:Hmerge.
  - rewrite bool_decide_eq_false_2; [done|].
    intros Hnot. apply Hnot, H2. exists node1.
    repeat split; [by left|apply not_elem_of_empty|exact Hn1|exact Hmerge].
  - rewrite bool_decide_eq_true_2; [done|].
    intros Hin. apply H2 in Hin as (k & Hk & _ & _ & Hkm).
    apply list_elem_of_singleton in Hk as ->. congruence.
Qed.

(** After the merge every edge end is the identifier of a surviving node,
    and no edge is lost. *)
Lemma merge_keeps_edges_resolved (nodes : list Node) (edges : list Edge) :
  NoDup (ids nodes) ->
  (forall e, e ∈ edges -> source e ∈ ids nodes /\ target e ∈ ids nodes) ->
  (forall e, e ∈ (_merge_similar_entities nodes edges).2 ->
     source e ∈ ids (_merge_similar_entities nodes edges).1
     /\ target e ∈ ids (_merge_similar_entities nodes edges).1)
  /\ length (_merge_similar_entities nodes edges).2 = length edges.
Proof.
  intros Hnd Hends.
  destruct (merge_spec nodes edges Hnd) as [Hmerge Hok].
  set (groups := find_groups nodes [] ∅) in *.
  rewrite Hmerge. cbn [fst snd]. split; [|by rewrite length_map].
  assert (Hresolve : forall x, x ∈ ids nodes ->
            resolve groups x
            ∈ ids (List.filter (fun y => bool_decide (y ∉ absorbed groups)) nodes)).
  { intros x Hx.
    assert (Hmain_in : forall m o, (m :: o) ∈ groups -> m ∈ nodes /\ m ∉ absorbed groups).
    { intros m o Hin. destruct Hok as [Hgroups _].
      destruct (Hgroups _ Hin) as (m' & o' & [= <- <-] & _ & Hm & _ & Hma & _). done. }
    assert (Hin_nodes : resolve groups x ∈ ids nodes).
    { destruct (resolve_cases groups x) as [->|(m & o & Hin & ->)]; [done|].
      apply list_elem_of_fmap_2. by apply (Hmain_in m o). }
    assert (Hnot : resolve groups x ∉ ids (absorbed groups)).
    { apply (resolve_not_absorbed (ids (absorbed groups))); [|done].
      intros m o Hin Hid. destruct (Hmain_in m o Hin) as [Hm Hma].
      apply list_elem_of_fmap in Hid as (a & Hid & Ha).
      assert (a ∈ nodes) by by eapply groups_ok_absorbed.
      by rewrite (node_of_id nodes m a Hnd Hm ltac:(done) Hid) in Hma. }
    apply list_elem_of_fmap in Hin_nodes as (y & Hy & Hy_in).
    rewrite Hy. apply list_elem_of_fmap_2.
    rewrite list_elem_of_In, filter_In, <- list_elem_of_In, bool_decide_eq_true.
    split; [done|]. intros Ha. apply Hnot. rewrite Hy. by apply list_elem_of_fmap_2. }
  intros e He. apply list_elem_of_fmap in He as (e0 & -> & He0).
  destruct (Hends e0 He0). cbn. split; by apply Hresolve.
Qed.

Lemma mergeable_spec (node1 node2 : Node) :
  mergeable node1 node2 = true
  <-> n_type node1 = n_type node2 /\ similar_labels (label node1) (label node2).
Proof.
  unfold mergeable.
  by rewrite andb_true_iff, bool_decide_eq_true, is_similar_text_spec.
Qed.

(** Merging is not decided pair by pair.  With the labels "aaaaa", "aaaab"
    and "aaabb" of one type, the second and third nodes have identical type
    and ratio 4/5 = 0.8, yet the third node survives next to the first while
    the second is merged into the first, and the edge between them ends up
    joining two distinct nodes.  With "aaaaa", "aaaab" and "baaaa" the second
    and third nodes, of ratio 3/5, both end up in the first node. *)
Lemma merge_is_not_pairwise :
  ~ (forall (nodes : list Node) (node1 node2 : Node),
        NoDup (ids nodes) -> node1 ∈ nodes -> node2 ∈ nodes ->
        mergeable node1 node2 = true -> merged_together nodes node1 node2)
  /\ ~ (forall (nodes : list Node) (node1 node2 : Node),
          NoDup (ids nodes) -> node1 ∈ nodes -> node2 ∈ nodes ->
          merged_together nodes node1 node2 ->
          node1 = node2 \/ mergeable node1 node2 = true)
  /\ mergeable (demo_node "b" "aaaab") (demo_node "c" "aaabb") = true
  /\ (positional_ratio "aaaab" "aaabb" == 0.8)%Q
  /\ _merge_similar_entities
       [demo_node "a" "aaaaa"; demo_node "b" "aaaab"; demo_node "c" "aaabb"]
       [demo_edge "b" "c"]
     = ([demo_node "a" "aaaaa"; demo_node "c" "aaabb"], [demo_edge "a" "c"])
  /\ mergeable (demo_node "b" "aaaab") (demo_node "d" "baaaa") = false
  /\ (positional_ratio "aaaab" "baaaa" == 0.6)%Q
  /\ _merge_similar_entities
       [demo_node "a" "aaaaa"; demo_node "b" "aaaab"; demo_node "d" "baaaa"]
       [demo_edge "b" "d"]
     = ([demo_node "a" "aaaaa"], [demo_edge "a" "a"]).
Proof.
  assert (Hnd : forall l : list string, bool_decide (NoDup l) = true -> NoDup l)
    by (intros l; apply bool_decide_eq_true_1).
  split; [|split].
  - intros Hclaim.
    specialize (Hclaim
      [demo_node "a" "aaaaa"; demo_node "b" "aaaab"; demo_node "c" "aaabb"]
      (demo_node "b" "aaaab") (demo_node "c" "aaabb")).
    assert (Hmerged : "a" = "c"); [|discriminate Hmerged].
    apply Hclaim; [apply Hnd; vm_compute; reflexivity| | |vm_compute; reflexivity].
    + right; left.
    + right; right; left.
  - intros Hclaim.
    destruct (Hclaim
      [demo_node "a" "aaaaa"; demo_node "b" "aaaab"; demo_node "d" "baaaa"]
      (demo_node "b" "aaaab") (demo_node "d" "baaaa")) as [Heq|Hm].
    + apply Hnd; vm_compute; reflexivity.
    + right; left.
    + right; right; left.
    + vm_compute. reflexivity.
    + discriminate Heq.
    + vm_compute in Hm. discriminate Hm.
  - vm_compute. repeat split; reflexivity.
Qed.

(** C4 (amended).  The merge test on two nodes passes exactly when they have
    identical type and similar labels, where similar means equal, or both of
    length at least 3 with positional ratio at least 0.8; unless both labels
    are empty, labels are similar exactly when the ratio is at least 0.8.
    In a node list with distinct identifiers a node is merged away exactly
    when some earlier node that itself survives passes the merge test with
    it (first match wins; a node already merged away absorbs nothing); two
    nodes alone are merged exactly when they pass the merge test. *)
Theorem merge_similar_entities_first_match :
  (forall node1 node2 : Node,
      mergeable node1 node2 = true
      <-> n_type node1 = n_type node2
          /\ similar_labels (label node1) (label node2))
  /\ (forall text1 text2 : string,
        0 < Nat.max (String.length text1) (String.length text2) ->
        similar_labels text1 text2 <-> (0.8 <= positional_ratio text1 text2)%Q)
  /\ (forall (nodes : list Node) (edges : list Edge),
        NoDup (ids nodes) ->
        forall l1 m l2,
          nodes = l1 ++ m :: l2 ->
          (m ∈ (_merge_similar_entities nodes edges).1
           <-> forall k, k ∈ l1 -> k ∈ (_merge_similar_entities nodes edges).1 ->
                         mergeable k m = false))
  /\ (forall (node1 node2 : Node) (edges : list Edge),
        n_id node1 <> n_id node2 ->
        (_merge_similar_entities [node1; node2] edges).1
        = if mergeable node1 node2 then [node1] else [node1; node2]).
Proof.
  split; [exact mergeable_spec|].
  split; [|split; [exact merge_first_match|exact merge_two_nodes]].
  intros text1 text2 Hmax.
  by rewrite <- is_similar_text_spec, is_similar_text_ratio.
Qed.

(** *** The two passes of the query *)

Lemma scan_nodes_related (entity_name : string) (nodes : list Node) (x : string) :
  x ∈ (scan_nodes entity_name nodes).2 ->
  exists node, node ∈ nodes /\ matches entity_name node = true /\ n_id node = x.
Proof.
  unfold scan_nodes. revert x.
  apply (foldl_inv (fun acc => forall x, x ∈ acc.2 -> exists node, _)).
  { intros x Hx. by apply not_elem_of_empty in Hx. }
  intros [matching related] node Hnode Hinv x. cbn [snd] in *.
  destruct (matches entity_name node) eqn:Hmatch; cbn [snd]; [|by apply Hinv].
  intros [Hx|Hx]%elem_of_union; [|by apply Hinv].
  apply elem_of_singleton in Hx as ->. by exists node.
Qed.

(** The edges kept by the pass over the edges are stored edges whose two
    ends are related at the end of the pass, and an identifier is related
    at the end only if it was at the start or is an end of a kept edge. *)
Lemma scan_edges_related (relation_type : option string)
    (related0 : gset string) (edges : list Edge) :
  let kept := (scan_edges relation_type related0 edges).1 in
  let related := (scan_edges relation_type related0 edges).2 in
  (forall e, e ∈ kept -> e ∈ edges /\ source e ∈ related /\ target e ∈ related)
  /\ (forall x, x ∈ related ->
        x ∈ related0 \/ exists e, e ∈ kept /\ (x = source e \/ x = target e)).
Proof.
  unfold scan_edges.
  apply (foldl_inv (fun acc =>
    (forall e, e ∈ acc.1 -> e ∈ edges /\ source e ∈ acc.2 /\ target e ∈ acc.2)
    /\ (forall x, x ∈ acc.2 ->
          x ∈ related0 \/ exists e, e ∈ acc.1 /\ (x = source e \/ x = target e)))).
  { cbn. split; [intros e He; by apply elem_of_nil in He|by left]. }
  intros [kept related] edge Hedge [Hkept Hrel]. cbn [fst snd] in *.
  destruct (bool_decide (source edge ∈ related) || bool_decide (target edge ∈ related));
    [|by split].
  destruct (match relation_type with None => true | Some rt => _ end); [|by split].
  cbn [fst snd]. split.
  - intros e [He|He]%elem_of_app.
    + destruct (Hkept e He) as (? & ? & ?). rewrite !elem_of_union. tauto.
    + apply list_elem_of_singleton in He as ->.
      rewrite !elem_of_union, !elem_of_singleton. tauto.
  - intros x Hx. apply elem_of_union in Hx as [Hx|Hx].
    { apply elem_of_singleton in Hx as ->.
      right. exists edge. split; [apply elem_of_app; right; left|by right]. }
    apply elem_of_union in Hx as [Hx|Hx].
    { apply elem_of_singleton in Hx as ->.
      right. exists edge. split; [apply elem_of_app; right; left|by left]. }
    destruct (Hrel x Hx) as [?|(e & He & Hx')]; [by left|].
    right. exists e. split; [apply elem_of_app; by left|exact Hx'].
Qed.

(** *** Entities and nodes *)

Lemma all_ids_append (k : string) (e : Entity) (d : Dict Entity) :
  all_ids (dict_append k e d) = all_ids d
  \/ Permutation (all_ids (dict_append k e d)) (e_id e :: all_ids d).
Proof.
  induction d as [|[k' vs] d IH]; cbn; [by left|].
  case_decide.
  - right. unfold all_ids. cbn. rewrite map_app. cbn.
    rewrite <- app_assoc. cbn. by rewrite <- Permutation_middle.
  - unfold all_ids in *. cbn. destruct IH as [->|IH]; [by left|right].
    rewrite IH. by rewrite <- Permutation_middle.
Qed.

Lemma nodes_of_entities (entities : Dict Entity) (all_nodes : list Node) :
  foldl (fun all_nodes '(entity_type, entity_list) =>
           foldl (fun all_nodes entity => all_nodes ++ [node_of_entity entity])
                 all_nodes entity_list)
        all_nodes entities
  = all_nodes ++ flat_map (fun kv => map node_of_entity kv.2) entities.
Proof.
  revert all_nodes. induction entities as [|[t l] entities IH]; intros all_nodes; cbn.
  - by rewrite app_nil_r.
  - rewrite IH. rewrite app_assoc. f_equal.
    clear. revert all_nodes. induction l as [|e l IHl]; intros all_nodes; cbn.
    + by rewrite app_nil_r.
    + rewrite IHl. by rewrite <- app_assoc.
Qed.

Lemma ids_nodes_of_entities (entities : Dict Entity) :
  ids (flat_map (fun kv => map node_of_entity kv.2) entities) = all_ids entities.
Proof.
  unfold ids, all_ids. induction entities as [|[t l] entities IH]; cbn; [done|].
  rewrite map_app, IH, map_map. done.
Qed.

(** *** Properties of the builder *)

Section Facts.

Variable uuid4 : nat -> string.
Variable load_segments : string -> list Segment.
Variable extract_legal_entities : string -> Dict string.
Variable re_findall : string -> string -> list string.
Variable re_escape : string -> string.
Variable list_documents : list string.
Variable load_knowledge_graph : option GraphData.

(** *** Confidence of extracted entities *)

(** C3 (the code's behaviour).  Every entity [extract_entities_from_document]
    produces carries confidence 0.8, whichever strategy produced its text:
    the confidence is chosen by testing the entity lists in use, which are
    the rule-based ones once the fallback has run, and an entity is only
    built from a non-empty list.  The 0.6 of the rule-based strategy is never
    assigned. *)
Theorem extract_confidence_never_lowered (doc_id : string) (n : nat)
    (category : string) (found : list Entity) (e : Entity) :
  (category, found)
  ∈ (extract_entities_from_document uuid4 load_segments extract_legal_entities
       re_findall re_escape doc_id n).1 ->
  e ∈ found ->
  e_confidence e = 0.8%Q.
Proof.
  intros Hcat He.
  enough (Hall : confident
                   (extract_entities_from_document uuid4 load_segments
                      extract_legal_entities re_findall re_escape doc_id n).1)
    by exact (Hall _ _ Hcat He).
  clear. unfold extract_entities_from_document.
  destruct (load_segments doc_id) as [|seg segs] eqn:Hsegs.
  { intros kv e Hkv. by apply elem_of_nil in Hkv. }
  apply (for_each_inv (fun d _ => confident d)).
  { intros kv e Hkv He. cbn in Hkv.
    repeat (apply elem_of_cons in Hkv as [->|Hkv]; [by apply elem_of_nil in He|]).
    by apply elem_of_nil in Hkv. }
  intros segment all_entities n1 _ Hinv.
  set (entities := if negb (any_values (extract_legal_entities (s_content segment)))
                   then _ else _).
  apply (for_each_inv (fun d _ => confident d)); [exact Hinv|].
  intros [entity_type entity_list] all_entities2 n2 Hin Hinv2.
  destruct (dict_has entity_type all_entities2); [|exact Hinv2].
  apply (for_each_inv (fun d _ => confident d)); [exact Hinv2|].
  intros entity_text all_entities3 n3 Htext Hinv3.
  cbn. intros kv e.
  apply (dict_append_elem (fun e => e_confidence e = 0.8%Q)); [|exact Hinv3].
  cbn. by rewrite (any_values_elem _ _ _ _ Hin Htext).
Qed.

(** *** Relationship inference *)

Lemma find_relationships_inferred (entities : Dict Entity) (n : nat) :
  Forall (inferred_from entities) (find_relationships uuid4 entities n).1.
Proof.
  unfold find_relationships.
  apply (for_each_inv (fun rels _ => Forall (inferred_from entities) rels)); [constructor|].
  intros [type1 list1] rels1 n1 Hin1 Hinv1.
  apply (for_each_inv (fun rels _ => Forall (inferred_from entities) rels)); [exact Hinv1|].
  intros entity1 rels2 n2 He1 Hinv2.
  apply (for_each_inv (fun rels _ => Forall (inferred_from entities) rels)); [exact Hinv2|].
  intros [type2 list2] rels3 n3 Hin2 Hinv3.
  case_bool_decide as Htypes; cbn [negb]; [exact Hinv3|].
  apply (for_each_inv (fun rels _ => Forall (inferred_from entities) rels)); [exact Hinv3|].
  intros entity2 rels4 n4 He2 Hinv4.
  case_bool_decide as Hseg; [|exact Hinv4].
  case_bool_decide as Hrel; cbn [negb]; [exact Hinv4|].
  cbn. apply Forall_app. split; [exact Hinv4|].
  constructor; [|constructor].
  exists type1, list1, entity1, type2, list2, entity2. cbn.
  repeat split; try done.
  by apply determine_relation_type_table.
Qed.

(** C6.  For every entity mapping, every edge [find_relationships] produces
    joins two entities of the mapping filed under different categories and
    found in the same segment, its relation is the one the fixed table gives
    for that ordered pair of categories, and it is one of the six relation
    names; when no pair of categories of the mapping has a table entry, no
    edge is produced. *)
Theorem find_relationships_table (entities : Dict Entity) (n : nat) :
  Forall (fun r => inferred_from entities r /\ relation r ∈ relation_names)
         (find_relationships uuid4 entities n).1
  /\ ((forall type1 list1 type2 list2,
          (type1, list1) ∈ entities -> (type2, list2) ∈ entities ->
          relation_map !! (type1, type2) = None) ->
      (find_relationships uuid4 entities n).1 = []).
Proof.
  assert (Hall : Forall (fun r => inferred_from entities r /\ relation r ∈ relation_names)
                        (find_relationships uuid4 entities n).1).
  { eapply Forall_impl; [apply find_relationships_inferred|].
    intros r Hr. split; [exact Hr|].
    destruct Hr as (t1 & l1 & e1 & t2 & l2 & e2 & _ & _ & _ & _ & _ & _ & _ & _ & _ & Htab).
    by eapply relation_table_names. }
  split; [exact Hall|].
  intros Habsent.
  destruct (find_relationships uuid4 entities n).1 as [|r rels]; [reflexivity|].
  apply Forall_cons in Hall as [[Hr Hname] _].
  destruct Hr as (t1 & l1 & e1 & t2 & l2 & e2 & Hin1 & _ & Hin2 & _ & _ & _ & _ & _ & Hrel & _).
  unfold _determine_relation_type in Hrel.
  rewrite (Habsent _ _ _ _ Hin1 Hin2) in Hrel. cbn in Hrel.
  rewrite Hrel in Hname. unfold relation_names in Hname.
  repeat (apply elem_of_cons in Hname as [Hname|Hname]; [discriminate Hname|]).
  by apply elem_of_nil in Hname.
Qed.

(** *** The graph before the merge *)

Section Fresh.

(** [uuid.uuid4] never returns the same identifier twice. *)
Hypothesis uuid4_inj : Inj (=) (=) uuid4.

Lemma drawn_next (from upto : nat) (l : list string) :
  drawn uuid4 from upto l -> drawn uuid4 from (S upto) (uuid4 upto :: l).
Proof.
  intros (Hle & Hnd & Hall). repeat split; [lia| |].
  - apply NoDup_cons. split; [|exact Hnd].
    intros Hin. destruct (Hall _ Hin) as (k & _ & Hk & Heq).
    apply uuid4_inj in Heq. lia.
  - intros x Hx. apply elem_of_cons in Hx as [->|Hx].
    + exists upto. repeat split; lia.
    + destruct (Hall _ Hx) as (k & ? & ? & ?). exists k. repeat split; [lia|lia|done].
Qed.

Lemma drawn_later (from upto upto' : nat) (l : list string) :
  upto <= upto' -> drawn uuid4 from upto l -> drawn uuid4 from upto' l.
Proof.
  intros Hle (Hle' & Hnd & Hall). repeat split; [lia|exact Hnd|].
  intros x Hx. destruct (Hall _ Hx) as (k & ? & ? & ?). exists k. repeat split; [lia|lia|done].
Qed.

Lemma drawn_perm (from upto : nat) (l l' : list string) :
  Permutation l' l -> drawn uuid4 from upto l -> drawn uuid4 from upto l'.
Proof.
  intros Hperm (Hle & Hnd & Hall). repeat split; [exact Hle|by rewrite Hperm|].
  intros x Hx. apply Hall. by rewrite <- Hperm.
Qed.

(** The entities extracted from one document carry identifiers drawn uuid4 during
    the extraction, all distinct. *)
Lemma extract_entities_drawn (doc_id : string) (n : nat) :
  drawn uuid4 n
    (extract_entities_from_document uuid4 load_segments extract_legal_entities
       re_findall re_escape doc_id n).2
    (all_ids
       (extract_entities_from_document uuid4 load_segments extract_legal_entities
          re_findall re_escape doc_id n).1).
Proof.
  unfold extract_entities_from_document.
  destruct (load_segments doc_id) as [|seg segs].
  { cbn. repeat split; [lia|constructor|]. intros x Hx. by apply elem_of_nil in Hx. }
  apply (for_each_inv (fun d c => drawn uuid4 n c (all_ids d))).
  { cbn. repeat split; [lia|constructor|]. intros x Hx. by apply elem_of_nil in Hx. }
  intros segment d1 c1 _ H1.
  apply (for_each_inv (fun d c => drawn uuid4 n c (all_ids d))); [exact H1|].
  intros [entity_type entity_list] d2 c2 _ H2.
  destruct (dict_has entity_type d2); [|exact H2].
  apply (for_each_inv (fun d c => drawn uuid4 n c (all_ids d))); [exact H2|].
  intros entity_text d3 c3 _ H3. unfold bind, uuid, ret. cbn [fst snd].
  match goal with
  | |- drawn uuid4 _ _ (all_ids (dict_append ?k ?e ?d)) =>
      destruct (all_ids_append k e d) as [->|Hperm]
  end.
  - apply drawn_later with (upto := c3); [lia|exact H3].
  - apply (drawn_perm _ _ _ _ Hperm). cbn [e_id]. by apply drawn_next.
Qed.

Lemma find_relationships_counter (entities : Dict Entity) (n : nat) :
  n <= (find_relationships uuid4 entities n).2.
Proof.
  unfold find_relationships.
  apply (for_each_inv (fun _ c => n <= c)); [lia|].
  intros [type1 list1] r1 c1 _ H1.
  apply (for_each_inv (fun _ c => n <= c)); [exact H1|].
  intros entity1 r2 c2 _ H2.
  apply (for_each_inv (fun _ c => n <= c)); [exact H2|].
  intros [type2 list2] r3 c3 _ H3.
  destruct (negb _); [|exact H3].
  apply (for_each_inv (fun _ c => n <= c)); [exact H3|].
  intros entity2 r4 c4 _ H4.
  destruct (bool_decide _); [|exact H4].
  destruct (negb _); [|exact H4].
  cbn. lia.
Qed.

Lemma find_relationships_ends (entities : Dict Entity) (n : nat) (r : Edge) :
  r ∈ (find_relationships uuid4 entities n).1 ->
  source r ∈ all_ids entities /\ target r ∈ all_ids entities.
Proof.
  intros Hr.
  pose proof (find_relationships_inferred entities n) as Hall.
  rewrite Forall_forall in Hall.
  destruct (Hall r Hr)
    as (t1 & l1 & e1 & t2 & l2 & e2 & Hin1 & He1 & Hin2 & He2 & _ & _ & -> & -> & _).
  assert (Hid : forall t l e, (t, l) ∈ entities -> e ∈ l -> e_id e ∈ all_ids entities).
  { intros t l e Hin He. unfold all_ids.
    apply list_elem_of_In, in_flat_map. exists (t, l).
    split; [by apply list_elem_of_In|]. cbn.
    by apply list_elem_of_In, list_elem_of_fmap_2. }
  split; eauto.
Qed.

Lemma collect_graph_well_linked (doc_ids : list string) (n : nat) :
  well_linked uuid4
    (collect_graph uuid4 load_segments extract_legal_entities
       re_findall re_escape doc_ids n).2
    (collect_graph uuid4 load_segments extract_legal_entities
       re_findall re_escape doc_ids n).1.
Proof.
  unfold collect_graph.
  apply (for_each_inv (fun g c => well_linked uuid4 c g)).
  { split; [|intros e He; by apply elem_of_nil in He].
    cbn. repeat split; [lia|constructor|]. intros x Hx. by apply elem_of_nil in Hx. }
  intros doc_id [all_nodes all_edges] c _ [Hdrawn Hends]. cbn [fst snd] in *.
  unfold bind.
  pose proof (extract_entities_drawn doc_id c) as Hext.
  destruct (extract_entities_from_document uuid4 load_segments extract_legal_entities
        re_findall re_escape doc_id c) as [entities c1].
  cbn [fst snd] in Hext.
  pose proof (find_relationships_counter entities c1) as Hcount.
  pose proof (find_relationships_ends entities c1) as Hrel.
  destruct (find_relationships uuid4 entities c1) as [relationships c2].
  cbn [fst snd] in *. unfold ret. cbn [fst snd].
  rewrite nodes_of_entities. unfold well_linked. cbn [fst snd].
  assert (Hids : ids (all_nodes ++ flat_map (fun kv => map node_of_entity kv.2) entities)
                 = ids all_nodes ++ all_ids entities).
  { unfold ids at 1. rewrite map_app. fold (ids all_nodes).
    f_equal. apply ids_nodes_of_entities. }
  rewrite Hids. split.
  - destruct Hdrawn as (_ & Hnd & Hall). destruct Hext as (Hle & Hnd' & Hall').
    repeat split; [lia| |].
    + apply NoDup_app. repeat split; [exact Hnd| |exact Hnd'].
      intros x Hx Hx'. destruct (Hall _ Hx) as (k & _ & Hk & ->).
      destruct (Hall' _ Hx') as (k' & Hk' & _ & Heq).
      apply uuid4_inj in Heq. lia.
    + intros x Hx. apply elem_of_app in Hx as [Hx|Hx].
      * destruct (Hall _ Hx) as (k & ? & ? & ?). exists k. repeat split; [lia|lia|done].
      * destruct (Hall' _ Hx) as (k & ? & ? & ?). exists k. repeat split; [lia|lia|done].
  - intros e He. rewrite !elem_of_app. apply elem_of_app in He as [He|He].
    + destruct (Hends e He). tauto.
    + destruct (Hrel e He). tauto.
Qed.

Lemma build_is_merge_of_collect (doc_ids : option (list string)) (n : nat) :
  let gathered :=
    (collect_graph uuid4 load_segments extract_legal_entities
       re_findall re_escape (default list_documents doc_ids) n).1 in
  let graph :=
    (build_knowledge_graph uuid4 load_segments extract_legal_entities
       re_findall re_escape list_documents doc_ids n).1 in
  (nodes graph, edges graph) = _merge_similar_entities gathered.1 gathered.2.
Proof.
  intros gathered graph.
  unfold graph, gathered, build_knowledge_graph, bind, ret.
  destruct (collect_graph uuid4 load_segments extract_legal_entities re_findall
              re_escape (default list_documents doc_ids) n) as [collected c].
  cbn [fst snd].
  by destruct (_merge_similar_entities collected.1 collected.2).
Qed.

(** Every graph [build_knowledge_graph] writes is well formed for the query:
    node identifiers are distinct and every edge joins two of its nodes. *)
Lemma build_graph_stored_ok (doc_ids : option (list string)) (n : nat) :
  stored_graph_ok
    (Some (build_knowledge_graph uuid4 load_segments extract_legal_entities
             re_findall re_escape list_documents doc_ids n).1).
Proof.
  intros g [= <-].
  pose proof (build_is_merge_of_collect doc_ids n) as Hgraph. cbn zeta in Hgraph.
  pose proof (collect_graph_well_linked (default list_documents doc_ids) n)
    as [(_ & Hnd & _) Hends].
  destruct (merge_keeps_edges_resolved _ _ Hnd Hends) as [Hresolved _].
  destruct (merge_spec _ (collect_graph uuid4 load_segments extract_legal_entities
                            re_findall re_escape (default list_documents doc_ids) n).1.2
                       Hnd) as [Hmerge _].
  rewrite <- Hgraph in Hresolved. cbn [fst snd] in Hresolved.
  split; [|exact Hresolved].
  rewrite Hmerge in Hgraph. injection Hgraph as -> _.
  by apply NoDup_ids_filter.
Qed.

(** C5.  For the node and edge collections [build_knowledge_graph] gathers
    from any documents, after the merge step every edge's source and target
    is the identifier of a node still in the node list, and the graph has as
    many edges as were gathered; on any input at all the merge step returns
    as many edges as it was given. *)
Theorem build_edges_resolved (doc_ids : option (list string)) (n : nat) :
  let gathered :=
    (collect_graph uuid4 load_segments extract_legal_entities
       re_findall re_escape (default list_documents doc_ids) n).1 in
  let graph :=
    (build_knowledge_graph uuid4 load_segments extract_legal_entities
       re_findall re_escape list_documents doc_ids n).1 in
  (forall e, e ∈ edges graph ->
     source e ∈ ids (nodes graph) /\ target e ∈ ids (nodes graph))
  /\ length (edges graph) = length gathered.2
  /\ (forall (nodes : list Node) (edges : list Edge),
        length (_merge_similar_entities nodes edges).2 = length edges).
Proof.
  intros gathered graph.
  assert (Hany : forall (nodes : list Node) (edges : list Edge),
             length (_merge_similar_entities nodes edges).2 = length edges).
  { intros ns es. unfold _merge_similar_entities.
    by rewrite apply_groups_edges, length_map. }
  pose proof (collect_graph_well_linked (default list_documents doc_ids) n)
    as [(_ & Hnd & _) Hends].
  fold gathered in Hnd, Hends.
  destruct (merge_keeps_edges_resolved gathered.1 gathered.2 Hnd Hends)
    as [Hresolved Hlen].
  pose proof (build_is_merge_of_collect doc_ids n) as Hgraph.
  cbn zeta in Hgraph. fold gathered graph in Hgraph.
  apply (f_equal fst) in Hgraph as Hnodes. apply (f_equal snd) in Hgraph as Hedges.
  cbn [fst snd] in Hnodes, Hedges. rewrite Hnodes, Hedges.
  repeat split; [by apply Hresolved|by apply Hresolved|exact Hlen|exact Hany].
Qed.

End Fresh.

(** *** The graph query *)


End Facts.

(** *** Running the builder on sample data *)

Lemma find_relationships_table_witness :
  (find_relationships demo_uuid demo_unrelated 0).1 = [].
Proof.
  apply (find_relationships_table demo_uuid demo_unrelated 0).
  intros type1 list1 type2 list2 H1 H2.
  unfold demo_unrelated in H1, H2.
  repeat (apply elem_of_cons in H1 as [[= -> ->]|H1]);
    repeat (apply elem_of_cons in H2 as [[= -> ->]|H2]);
    try (by apply elem_of_nil in H1); try (by apply elem_of_nil in H2);
    vm_compute; reflexivity.
Defined.

Lemma demo_uuid_inj : Inj (=) (=) demo_uuid.
Proof.
  intros a b Heq. unfold demo_uuid in Heq.
  by apply (inj (String.app "uuid-")), (inj pretty) in Heq.
Qed.

(** The fallback at work: the client names nothing, the rule-based strategy
    finds the concept "compliance", and the entity carries 0.8. *)
Lemma extract_confidence_never_lowered_witness :
  any_values (demo_silent "compliance") = false
  /\ ("related_concepts", [demo_fallback_entity])
     ∈ (extract_entities_from_document demo_uuid (demo_segments "compliance")
          demo_silent demo_no_match (fun kw => kw) "d1" 0).1
  /\ e_confidence demo_fallback_entity = 0.8%Q.
Proof.
  assert (Hrun : ("related_concepts", [demo_fallback_entity])
     ∈ (extract_entities_from_document demo_uuid (demo_segments "compliance")
          demo_silent demo_no_match (fun kw => kw) "d1" 0).1).
  { vm_compute. do 4 apply list_elem_of_further. apply list_elem_of_here. }
  split; [reflexivity|]. split; [exact Hrun|].
  apply (extract_confidence_never_lowered demo_uuid (demo_segments "compliance")
           demo_silent demo_no_match (fun kw => kw) "d1" 0
           "related_concepts" [demo_fallback_entity] demo_fallback_entity Hrun).
  apply list_elem_of_here.
Defined.

(** The boundary: ratio 4/5 merges two nodes. *)
Lemma merge_similar_entities_first_match_witness :
  (positional_ratio "aaaaa" "aaaab" == 0.8)%Q
  /\ (_merge_similar_entities [demo_node "a" "aaaaa"; demo_node "b" "aaaab"] []).1
     = [demo_node "a" "aaaaa"].
Proof.
  split; [reflexivity|].
  destruct merge_similar_entities_first_match as (_ & _ & _ & Htwo).
  rewrite Htwo; [reflexivity|discriminate].
Defined.

(** Two documents that name the same article and two spellings of one
    violation: of the six nodes gathered the merge leaves two, and all four
    edges remain, with both ends among the two. *)
Lemma build_edges_resolved_witness :
  let graph :=
    (build_knowledge_graph demo_uuid (demo_segments "Fixing prices breaks Article 5")
       demo_answer demo_no_match (fun kw => kw) [] (Some ["d1"; "d2"]) 0).1 in
  length (nodes graph) = 2 /\ length (edges graph) = 4
  /\ forall e, e ∈ edges graph ->
       source e ∈ ids (nodes graph) /\ target e ∈ ids (nodes graph).
Proof.
  split; [reflexivity|]. split; [reflexivity|].
  apply (build_edges_resolved demo_uuid (demo_segments "Fixing prices breaks Article 5")
           demo_answer demo_no_match (fun kw => kw) [] demo_uuid_inj
           (Some ["d1"; "d2"]) 0).
Defined.




End KG.

(** * knowledge_graph.py: the rule-based extraction and the entity records *)

Module Extraction.
Import KG.

(** The five categories, in the order of the dictionaries. *)
Definition categories : list string := map fst entity_types.

(** The list filed under [k] (the empty list for a key that is absent). *)
Definition dict_lookup {V} (k : string) (d : Dict V) : list V :=
  default [] (snd <$> List.find (fun kv => bool_decide (fst kv = k)) d).

(** [keyword.lower() in text.lower()]. *)
Definition mentions (text keyword : string) : bool :=
  Py.contains (Py.lower keyword) (Py.lower text).

Section Strategy.

Variable extract_legal_entities : string -> Dict string.
Variable re_findall : string -> string -> list string.
Variable re_escape : string -> string.

(** The entity lists [extract_entities_from_document] works with on one
    segment: the client's, or the rule-based ones when the client names
    nothing. *)
Definition entities_in_use (segment : Segment) : Dict string :=
  let entities := extract_legal_entities (s_content segment) in
  if negb (any_values entities)
  then _local_entity_extraction re_findall re_escape (s_content segment)
  else entities.

End Strategy.

(** What the record of an entity filed under [category] for document
    [doc_id] holds. *)
Definition filed (segments : list Segment) (in_use : Segment -> Dict string)
    (doc_id category : string) (e : Entity) : Prop :=
  e_type e = entity_type_of category
  /\ e_type e <> "UNKNOWN"
  /\ e_document_id e = doc_id
  /\ exists segment found,
       segment ∈ segments
       /\ (category, found) ∈ in_use segment
       /\ e_text e ∈ found
       /\ e_segment_id e = s_id segment
       /\ e_source e = Py.slice_to 200 (s_content segment) +:+ "...".

(** *** Dictionaries of lists *)

Lemma dict_append_keys {V} (k : string) (v : V) (d : Dict V) :
  map fst (dict_append k v d) = map fst d.
Proof.
  induction d as [|[k' vs] d IH]; cbn; [done|].
  case_decide; cbn; [done|by rewrite IH].
Qed.

Lemma dict_lookup_append_ne {V} (k k' : string) (v : V) (d : Dict V) :
  k <> k' -> dict_lookup k (dict_append k' v d) = dict_lookup k d.
Proof.
  intros Hne. unfold dict_lookup.
  induction d as [|[k0 vs] d IH]; cbn; [done|].
  case_decide as Hk0; cbn.
  - subst k0. rewrite bool_decide_eq_false_2 by done. done.
  - case_bool_decide; [done|exact IH].
Qed.

Lemma dict_lookup_append_eq {V} (k : string) (v : V) (d : Dict V) :
  k ∈ map fst d -> dict_lookup k (dict_append k v d) = dict_lookup k d ++ [v].
Proof.
  unfold dict_lookup.
  induction d as [|[k0 vs] d IH]; cbn; intros Hk; [by apply elem_of_nil in Hk|].
  case_decide as Hk0; cbn.
  - subst k0. by rewrite !bool_decide_eq_true_2.
  - rewrite !bool_decide_eq_false_2 by done.
    apply IH. apply elem_of_cons in Hk as [->|Hk]; done.
Qed.

Lemma dict_lookup_elem {V} (k : string) (vs : list V) (d : Dict V) :
  NoDup (map fst d) -> (k, vs) ∈ d -> dict_lookup k d = vs.
Proof.
  unfold dict_lookup.
  induction d as [|[k0 vs0] d IH]; cbn; intros Hnd Hin; [by apply elem_of_nil in Hin|].
  apply NoDup_cons in Hnd as [Hk0 Hnd].
  apply elem_of_cons in Hin as [[= -> ->]|Hin].
  - by rewrite bool_decide_eq_true_2.
  - case_bool_decide as Heq; [|by apply IH].
    subst k0. exfalso. apply Hk0.
    change k with (fst (k, vs)). by apply list_elem_of_fmap_2.
Qed.

Lemma dict_lookup_map {V} (f : list V -> list V) (k : string) (d : Dict V) :
  f [] = [] ->
  dict_lookup k (map (fun kv => (fst kv, f (snd kv))) d) = f (dict_lookup k d).
Proof.
  intros Hf. unfold dict_lookup.
  induction d as [|[k0 vs] d IH]; cbn; [by rewrite Hf|].
  case_bool_decide; [done|exact IH].
Qed.

(** *** Removal of duplicates *)

Lemma unique_ci_spec (items seen : list string) :
  ("" ∉ unique_ci items seen)
  /\ NoDup (map Py.lower (unique_ci items seen))
  /\ forall x, x ∈ unique_ci items seen -> x ∈ items /\ Py.lower x ∉ seen.
Proof.
  revert seen. induction items as [|item rest IH]; intros seen; cbn [unique_ci].
  { repeat split; [apply not_elem_of_nil|constructor| |];
      by apply elem_of_nil in H. }
  destruct (IH seen) as (He & Hnd & Hin).
  destruct (IH (Py.lower item :: seen)) as (He' & Hnd' & Hin').
  case_bool_decide as Hempty; cbn [negb andb].
  { repeat split; [exact He|exact Hnd| |]; destruct (Hin x H); [by right|done]. }
  case_bool_decide as Hseen; cbn [negb andb].
  { repeat split; [exact He|exact Hnd| |]; destruct (Hin x H); [by right|done]. }
  repeat split.
  - intros [Heq|Hin0]%elem_of_cons; [by symmetry in Heq|done].
  - cbn. apply NoDup_cons. split; [|exact Hnd'].
    intros (y & Hy & Hyin)%list_elem_of_fmap.
    destruct (Hin' y Hyin) as [_ Hnot]. apply Hnot. rewrite <- Hy. left.
  - apply elem_of_cons in H as [->|H]; [left|right; by destruct (Hin' x H)].
  - apply elem_of_cons in H as [->|H]; [exact Hseen|].
    destruct (Hin' x H) as [_ Hnot]. intros Hx. apply Hnot. by right.
Qed.

(** A list without empty strings and without two entries equal up to case
    is left as it is. *)
Lemma unique_ci_id (items seen : list string) :
  "" ∉ items -> NoDup (map Py.lower items) ->
  (forall x, x ∈ items -> Py.lower x ∉ seen) ->
  unique_ci items seen = items.
Proof.
  revert seen. induction items as [|item rest IH]; intros seen He Hnd Hseen; [done|].
  cbn [unique_ci]. cbn in Hnd. apply NoDup_cons in Hnd as [Hitem Hnd].
  rewrite bool_decide_eq_false_2
    by (intros ->; apply He; left).
  rewrite bool_decide_eq_false_2 by (apply Hseen; left).
  cbn [negb andb]. f_equal. apply IH; [|exact Hnd|].
  - intros H. apply He. by right.
  - intros x Hx [Heq|Hin]%elem_of_cons.
    + apply Hitem. rewrite <- Heq. by apply list_elem_of_fmap_2.
    + eapply Hseen; [right; exact Hx|exact Hin].
Qed.

Lemma list_filter_sublist {A} (f : A -> bool) (l : list A) :
  List.filter f l `sublist_of` l.
Proof.
  induction l as [|a l IH]; cbn; [constructor|].
  destruct (f a); by constructor.
Qed.

(** *** The rule-based extraction *)

Lemma concept_stage (text : string) (keywords : list string) (d : Dict string) :
  "related_concepts" ∈ map fst d ->
  let d' :=
    foldl (fun entities keyword =>
             if Py.contains (Py.lower keyword) (Py.lower text)
             then dict_append "related_concepts" keyword entities
             else entities) d keywords in
  map fst d' = map fst d
  /\ dict_lookup "related_concepts" d'
     = dict_lookup "related_concepts" d ++ List.filter (mentions text) keywords.
Proof.
  revert d. induction keywords as [|kw keywords IH]; intros d Hk;
    cbn [foldl List.filter].
  { by rewrite app_nil_r. }
  unfold mentions at 1.
  destruct (Py.contains (Py.lower kw) (Py.lower text)).
  - destruct (IH (dict_append "related_concepts" kw d)) as [Hkeys Hlook].
    { by rewrite dict_append_keys. }
    cbn zeta in Hkeys, Hlook. rewrite Hkeys, Hlook, dict_append_keys.
    rewrite dict_lookup_append_eq by done. by rewrite <- app_assoc.
  - by apply IH.
Qed.

(** Before the concepts are looked for, the dictionary has its five keys and
    nothing is filed under "related_concepts". *)
Lemma earlier_stages (re_findall : string -> string -> list string)
    (re_escape : string -> string) (text : string) :
  let I := fun d : Dict string =>
    map fst d = categories /\ dict_lookup "related_concepts" d = [] in
  I (foldl (fun entities pattern =>
             fst (foldl (fun '(entities, seen) m =>
                           if negb (bool_decide (Py.lower m ∈ seen))
                           then (dict_append "responsible_parties" m entities,
                                 Py.lower m :: seen)
                           else (entities, seen))
                        (entities, @nil string) (re_findall pattern text)))
      (foldl (fun entities pattern =>
                dict_extend "penalties" (re_findall pattern text) entities)
         (foldl (fun entities keyword =>
                   if Py.contains (Py.lower keyword) (Py.lower text) then
                     foldl (fun entities m => dict_append "violations" (strip m) entities)
                           entities
                           (take 2 (re_findall
                                      ("(?:[\w\s]{0,20}" +:+ re_escape keyword
                                       +:+ "[\w\s]{0,20})") text))
                   else entities)
            (foldl (fun entities pattern =>
                      dict_extend "legal_articles" (re_findall pattern text) entities)
               empty_entities article_patterns)
            violation_keywords)
         penalty_patterns)
      party_patterns).
Proof.
  intros I.
  assert (Happ : forall k v d, k <> "related_concepts" -> I d -> I (dict_append k v d)).
  { intros k v d Hk [Hkeys Hl]. split; [by rewrite dict_append_keys|].
    by rewrite dict_lookup_append_ne. }
  assert (Hext : forall k vs d, k <> "related_concepts" -> I d -> I (dict_extend k vs d)).
  { intros k vs d Hk Hd. unfold dict_extend. apply foldl_inv; [exact Hd|].
    intros d' v _ Hd'. by apply Happ. }
  apply foldl_inv.
  2:{ intros d pattern _ Hd. cbv zeta.
      apply (foldl_inv (fun p => I p.1)); [exact Hd|].
      intros [d' seen] m _ Hd'. destruct (negb _); [|exact Hd'].
      cbn [fst]. by apply Happ. }
  apply foldl_inv; [|intros d pattern _ Hd; by apply Hext].
  apply foldl_inv.
  2:{ intros d keyword _ Hd. destruct (Py.contains _ _); [|exact Hd].
      cbv zeta. apply foldl_inv; [exact Hd|].
      intros d' m _ Hd'. by apply Happ. }
  apply foldl_inv; [by split|].
  intros d pattern _ Hd. by apply Hext.
Qed.

Lemma local_extraction_concepts_lookup
    (re_findall : string -> string -> list string)
    (re_escape : string -> string) (text : string) :
  map fst (_local_entity_extraction re_findall re_escape text) = categories
  /\ dict_lookup "related_concepts" (_local_entity_extraction re_findall re_escape text)
     = take 5 (List.filter (mentions text) concept_keywords).
Proof.
  unfold _local_entity_extraction. cbv zeta.
  destruct (earlier_stages re_findall re_escape text) as [Hkeys Hnone].
  match goal with
  | |- context [foldl ?f ?d concept_keywords] =>
      destruct (concept_stage text concept_keywords d) as [Hkeys' Hlook]
  end.
  { rewrite Hkeys. by apply (bool_decide_unpack _). }
  cbv zeta in Hkeys', Hlook. split.
  - rewrite map_map. cbn [fst]. etrans; [|exact Hkeys]. etrans; [|exact Hkeys']. done.
  - rewrite (dict_lookup_map (fun l => take 5 (unique_ci l []))) by done.
    rewrite Hlook, Hnone. cbn [app]. f_equal.
    apply unique_ci_id.
    + intros Hin. eapply elem_of_sublist in Hin; [|apply list_filter_sublist].
      revert Hin. by apply (bool_decide_unpack _).
    + eapply sublist_NoDup; [|apply (fmap_sublist Py.lower), list_filter_sublist].
      by apply (bool_decide_unpack _).
    + intros x _. apply not_elem_of_nil.
Qed.

Lemma dict_lookup_in {V} (k : string) (d : Dict V) :
  k ∈ map fst d -> (k, dict_lookup k d) ∈ d.
Proof.
  unfold dict_lookup.
  induction d as [|[k0 vs] d IH]; cbn; intros Hk; [by apply elem_of_nil in Hk|].
  case_bool_decide as Heq; cbn in *.
  - subst k0. left.
  - right. apply IH. apply elem_of_cons in Hk as [->|Hk]; done.
Qed.

(** X1.  Whatever the regular-expression engine returns, the rule-based
    extraction answers with the five categories in their fixed order, and
    every list it returns has at most five entries, no empty string, and no
    two entries equal up to letter case. *)
Theorem local_extraction_bounded
    (re_findall : string -> string -> list string)
    (re_escape : string -> string) (text : string) :
  map fst (_local_entity_extraction re_findall re_escape text)
  = ["legal_articles"; "violations"; "penalties"; "responsible_parties";
     "related_concepts"]
  /\ Forall (fun kv => length kv.2 <= 5
                       /\ ("" ∉ kv.2)
                       /\ NoDup (map Py.lower kv.2))
            (_local_entity_extraction re_findall re_escape text).
Proof.
  split; [apply local_extraction_concepts_lookup|].
  unfold _local_entity_extraction. cbv zeta.
  apply Forall_fmap, Forall_true. intros [k l]. unfold compose. cbn [fst snd].
  destruct (unique_ci_spec l []) as (He & Hnd & _).
  repeat split.
  - rewrite length_take. lia.
  - intros Hin. apply He. eapply elem_of_sublist; [exact Hin|apply sublist_take].
  - eapply sublist_NoDup; [exact Hnd|].
    apply (fmap_sublist Py.lower), sublist_take.
Qed.

(** X2.  The concepts the rule-based extraction reports are the lexicon's
    keywords that occur in the text without regard to case, in the lexicon's
    order and cut after the fifth: a keyword that occurs is left out exactly
    when five earlier keywords occur too. *)
Theorem local_extraction_concepts
    (re_findall : string -> string -> list string)
    (re_escape : string -> string) (text : string) :
  ("related_concepts", take 5 (List.filter (mentions text) concept_keywords))
  ∈ _local_entity_extraction re_findall re_escape text.
Proof.
  destruct (local_extraction_concepts_lookup re_findall re_escape text) as [Hkeys <-].
  apply dict_lookup_in. rewrite Hkeys. by apply (bool_decide_unpack _).
Qed.

(** *** The entity records *)

Lemma dict_append_elem_key {V} (P : string -> V -> Prop) (k : string) (v : V)
    (d : Dict V) :
  P k v ->
  (forall kv x, kv ∈ d -> x ∈ kv.2 -> P kv.1 x) ->
  forall kv x, kv ∈ dict_append k v d -> x ∈ kv.2 -> P kv.1 x.
Proof.
  intros Hv. induction d as [|[k' vs] d IH]; intros Hd kv x Hkv Hx; cbn in Hkv.
  - by apply elem_of_nil in Hkv.
  - case_decide; apply elem_of_cons in Hkv as [->|Hkv]; cbn in *.
    + apply elem_of_app in Hx as [Hx|Hx].
      * apply (Hd (k', vs)); [left|exact Hx].
      * apply list_elem_of_singleton in Hx as ->. by subst k'.
    + apply Hd; [right; exact Hkv|exact Hx].
    + apply (Hd (k', vs)); [left|exact Hx].
    + apply IH; [|exact Hkv|exact Hx].
      intros kv' x' Hkv' Hx'. apply Hd; [right; exact Hkv'|exact Hx'].
Qed.

Lemma known_category (category : string) :
  category ∈ categories -> entity_type_of category <> "UNKNOWN".
Proof.
  unfold categories. cbn. intros H.
  repeat (apply elem_of_cons in H as [->|H]; [by vm_compute|]).
  by apply elem_of_nil in H.
Qed.

Section Records.

Variable uuid4 : nat -> string.
Variable load_segments : string -> list Segment.
Variable extract_legal_entities : string -> Dict string.
Variable re_findall : string -> string -> list string.
Variable re_escape : string -> string.

(** X3.  Every entity [extract_entities_from_document] files is filed under
    one of the five categories and records where it comes from: its type is
    the category's type (never "UNKNOWN"), its document is the one asked
    for, its text is a name the strategy in use listed under that category
    for one of the document's segments, and it carries that segment's
    identifier and the first 200 characters of the segment followed by
    "...".  Names listed under any other category are dropped. *)
Theorem extract_entities_filed (doc_id : string) (n : nat) :
  Forall (fun kv =>
            kv.1 ∈ categories
            /\ Forall (filed (load_segments doc_id)
                         (entities_in_use extract_legal_entities re_findall re_escape)
                         doc_id kv.1) kv.2)
    (extract_entities_from_document uuid4 load_segments extract_legal_entities
       re_findall re_escape doc_id n).1.
Proof.
  unfold extract_entities_from_document.
  destruct (load_segments doc_id) as [|seg segs] eqn:Hsegs; [constructor|].
  rewrite <- Hsegs.
  set (P := fun k e =>
         filed (load_segments doc_id)
           (entities_in_use extract_legal_entities re_findall re_escape) doc_id k e).
  set (I := fun (d : Dict Entity) (_ : nat) =>
         map fst d = categories
         /\ forall kv e, kv ∈ d -> e ∈ kv.2 -> P kv.1 e).
  match goal with
  | |- Forall _ (for_each ?l ?body ?acc n).1 =>
      assert (HI : I (for_each l body acc n).1 (for_each l body acc n).2)
  end.
  2:{ destruct HI as [Hkeys Hall]. apply Forall_forall. intros kv Hkv. split.
      - rewrite <- Hkeys. by apply list_elem_of_fmap_2.
      - apply Forall_forall. intros e He. by apply Hall. }
  apply (for_each_inv I).
  { split; [done|]. intros kv e Hkv He.
    cbn in Hkv. repeat (apply elem_of_cons in Hkv as [->|Hkv];
                        [by apply elem_of_nil in He|]).
    by apply elem_of_nil in Hkv. }
  intros segment d1 c1 Hseg H1.
  apply (for_each_inv I); [exact H1|].
  intros [entity_type entity_list] d2 c2 Hlist H2.
  destruct (dict_has entity_type d2) eqn:Hhas; [|exact H2].
  apply bool_decide_eq_true in Hhas.
  apply (for_each_inv (fun d c => I d c)); [exact H2|].
  intros entity_text d3 c3 Htext [Hkeys Hall].
  unfold bind, uuid, ret. cbn [fst snd]. split.
  { by rewrite dict_append_keys. }
  apply dict_append_elem_key; [|exact Hall].
  destruct H2 as [Hkeys2 _]. rewrite Hkeys2 in Hhas.
  repeat split; cbn.
  - by apply known_category.
  - exists segment, entity_list. repeat split; done.
Qed.

End Records.

(** *** Loops that only add to their accumulator *)

(** When no iteration takes anything away (the accumulator only moves up in
    a preorder [R]), the loop as a whole takes nothing away. *)
Lemma for_each_grows {A B} (R : B -> B -> Prop) `{!PreOrder R} (I : B -> Prop)
    (l : list A) (body : B -> A -> Gen B) :
  (forall a acc n, a ∈ l -> I acc -> I (body acc a n).1 /\ R acc (body acc a n).1) ->
  forall acc n, I acc ->
    I (for_each l body acc n).1 /\ R acc (for_each l body acc n).1.
Proof.
  induction l as [|a l IH]; intros Hbody acc n Hacc; [by split|].
  cbn [for_each]. unfold bind.
  destruct (Hbody a acc n ltac:(left) Hacc) as [HI HR].
  destruct (body acc a n) as [acc' n']. cbn [fst] in HI, HR.
  destruct (IH (fun a' acc'' n'' Ha' => Hbody a' acc'' n'' ltac:(by right)) acc' n' HI)
    as [HI' HR'].
  split; [exact HI'|]. by etrans.
Qed.

(** What one iteration establishes, and no later growth undoes, holds at the
    end of the loop. *)
Lemma for_each_reaches {A B} (R : B -> B -> Prop) `{!PreOrder R} (I Q : B -> Prop)
    (l : list A) (body : B -> A -> Gen B) (a : A) :
  (forall x y, R x y -> Q x -> Q y) ->
  (forall a acc n, a ∈ l -> I acc -> I (body acc a n).1 /\ R acc (body acc a n).1) ->
  a ∈ l ->
  (forall acc n, I acc -> Q (body acc a n).1) ->
  forall acc n, I acc -> Q (for_each l body acc n).1.
Proof.
  intros Hup. induction l as [|a0 l IH]; intros Hbody Ha Hhit acc n Hacc;
    [by apply elem_of_nil in Ha|].
  cbn [for_each]. unfold bind.
  destruct (Hbody a0 acc n ltac:(left) Hacc) as [HI _].
  pose proof (Hhit acc n Hacc) as Hq.
  assert (Hrest : forall a' acc'' n'', a' ∈ l -> I acc'' ->
            I (body acc'' a' n'').1 /\ R acc'' (body acc'' a' n'').1)
    by (intros a' acc'' n'' Ha'; apply Hbody; by right).
  apply elem_of_cons in Ha as [->|Ha].
  - destruct (body acc a0 n) as [acc' n']. cbn [fst] in HI, Hq.
    destruct (for_each_grows R I l body Hrest acc' n' HI) as [_ HR].
    by apply (Hup acc').
  - clear Hq. destruct (body acc a0 n) as [acc' n']. cbn [fst] in HI.
    by apply IH.
Qed.

(** One dictionary holds everything another does, under the same keys. *)
Definition dict_le {V} (d d' : Dict V) : Prop :=
  map fst d = map fst d' /\ forall k x, x ∈ dict_lookup k d -> x ∈ dict_lookup k d'.

#[local] Instance dict_le_preorder {V} : PreOrder (@dict_le V).
Proof.
  split.
  - intros d. by split.
  - intros d1 d2 d3 [Hk1 H1] [Hk2 H2]. split; [by rewrite Hk1|].
    intros k x Hx. by apply H2, H1.
Qed.

Lemma dict_append_le {V} (k : string) (v : V) (d : Dict V) :
  dict_le d (dict_append k v d).
Proof.
  split; [by rewrite dict_append_keys|].
  intros k' x Hx. destruct (decide (k' = k)) as [->|Hne].
  - destruct (decide (k ∈ map fst d)) as [Hin|Hout].
    + rewrite dict_lookup_append_eq by done. apply elem_of_app. by left.
    + exfalso. revert Hx. unfold dict_lookup.
      clear -Hout. induction d as [|[k0 vs] d IH]; cbn in *.
      * apply not_elem_of_nil.
      * apply not_elem_of_cons in Hout as [Hne Hout].
        rewrite bool_decide_eq_false_2 by done. by apply IH.
  - by rewrite dict_lookup_append_ne.
Qed.

Section Complete.

Variable uuid4 : nat -> string.
Variable load_segments : string -> list Segment.
Variable extract_legal_entities : string -> Dict string.
Variable re_findall : string -> string -> list string.
Variable re_escape : string -> string.

(** X4.  No name is lost: every name the strategy in use lists under one of
    the five categories, for a segment of the document, is the text of an
    entity filed under that category for that segment. *)
Theorem extract_entities_complete (doc_id : string) (n : nat)
    (segment : Segment) (category : string) (found : list string) (text : string) :
  segment ∈ load_segments doc_id ->
  (category, found)
    ∈ entities_in_use extract_legal_entities re_findall re_escape segment ->
  category ∈ categories ->
  text ∈ found ->
  exists entity_list e,
    (category, entity_list)
      ∈ (extract_entities_from_document uuid4 load_segments extract_legal_entities
           re_findall re_escape doc_id n).1
    /\ e ∈ entity_list
    /\ e_text e = text
    /\ e_segment_id e = s_id segment.
Proof.
  intros Hseg Hfound Hcat Htext.
  unfold extract_entities_from_document.
  destruct (load_segments doc_id) as [|seg segs] eqn:Hsegs;
    [by apply elem_of_nil in Hseg|].
  rewrite <- Hsegs in *. clear seg segs Hsegs.
  set (I := fun d : Dict Entity => map fst d = categories).
  set (Found := fun d : Dict Entity =>
         exists e, e ∈ dict_lookup category d
                   /\ e_text e = text /\ e_segment_id e = s_id segment).
  assert (Hup : forall x y : Dict Entity, dict_le x y -> Found x -> Found y).
  { intros x y [_ Hle] (e & He & Hq). exists e. split; [by apply Hle|exact Hq]. }
  assert (Hleaf : forall k v (d : Dict Entity),
            I d -> I (dict_append k v d) /\ dict_le d (dict_append k v d)).
  { intros k v d Hd. split; [unfold I; by rewrite dict_append_keys|].
    apply dict_append_le. }
  match goal with
  | |- context [for_each ?l ?body ?acc n] =>
      assert (HI : I acc) by done;
      assert (HQ : I (for_each l body acc n).1 /\ Found (for_each l body acc n).1)
  end.
  2:{ destruct HQ as [Hkeys (e & He & Hq)].
      eexists _, e. split; [|by split].
      apply dict_lookup_in. unfold I in Hkeys. by rewrite Hkeys. }
  assert (Hgrow3 : forall (seg : Segment) (k : string) (conf : Q),
            forall t acc c, I acc ->
              let body := fun all_entities entity_text =>
                id <- uuid uuid4 ;;
                ret (dict_append k
                       {| e_id := id; e_text := entity_text;
                          e_type := entity_type_of k; e_document_id := doc_id;
                          e_segment_id := s_id seg; e_confidence := conf;
                          e_source := Py.slice_to 200 (s_content seg) +:+ "..." |}
                       all_entities) in
              I (body acc t c).1 /\ dict_le acc (body acc t c).1).
  { intros seg k conf t acc c Hacc. cbv zeta. unfold bind, uuid, ret.
    cbn [fst snd]. by apply Hleaf. }
  assert (Hgrow2 : forall seg kv acc c, I acc ->
            let entities :=
              entities_in_use extract_legal_entities re_findall re_escape seg in
            let body := fun all_entities '(entity_type, entity_list) =>
              if dict_has entity_type all_entities then
                for_each entity_list (fun all_entities entity_text =>
                  id <- uuid uuid4 ;;
                  ret (dict_append entity_type
                         {| e_id := id; e_text := entity_text;
                            e_type := entity_type_of entity_type;
                            e_document_id := doc_id;
                            e_segment_id := s_id seg;
                            e_confidence := if any_values entities then 0.8 else 0.6;
                            e_source := Py.slice_to 200 (s_content seg) +:+ "..." |}
                         all_entities))
                  all_entities
              else ret all_entities in
            I (body acc kv c).1 /\ dict_le acc (body acc kv c).1).
  { intros seg [k l] acc c Hacc. cbv beta iota zeta.
    destruct (dict_has k acc); [|split; [exact Hacc|reflexivity]].
    apply (for_each_grows dict_le I); [|exact Hacc].
    intros t acc' c' _ Hacc'. by apply Hgrow3. }
  split.
  { apply (for_each_grows dict_le I); [|exact HI].
    intros seg acc c _ Hacc.
    apply (for_each_grows dict_le I); [|exact Hacc].
    intros kv acc' c' _ Hacc'. by apply (Hgrow2 seg). }
  apply (for_each_reaches dict_le I Found _ _ segment); [exact Hup| |exact Hseg| |exact HI].
  { intros seg acc c _ Hacc.
    apply (for_each_grows dict_le I); [|exact Hacc].
    intros kv acc' c' _ Hacc'. by apply (Hgrow2 seg). }
  intros acc c Hacc.
  apply (for_each_reaches dict_le I Found _ _ (category, found));
    [exact Hup| |exact Hfound| |exact Hacc].
  { intros kv acc' c' _ Hacc'. by apply (Hgrow2 segment). }
  intros acc' c' Hacc'.
  assert (Hhas : dict_has category acc' = true).
  { apply bool_decide_eq_true. unfold I in Hacc'. by rewrite Hacc'. }
  rewrite Hhas.
  apply (for_each_reaches dict_le I Found _ _ text); [exact Hup| |exact Htext| |exact Hacc'].
  { intros t acc'' c'' _ Hacc''. by apply Hgrow3. }
  intros acc'' c'' Hacc''. unfold bind, uuid, ret. cbn [fst snd].
  eexists. split.
  - rewrite dict_lookup_append_eq by (unfold I in Hacc''; by rewrite Hacc'').
    apply elem_of_app. right. left.
  - by cbn.
Qed.

End Complete.

(** The concept "compliance", found by the rule-based strategy in a
    one-segment document, is filed. *)
Lemma extract_entities_complete_witness :
  exists entity_list e,
    ("related_concepts", entity_list)
      ∈ (extract_entities_from_document demo_uuid (demo_segments "compliance")
           demo_silent demo_no_match (fun kw => kw) "d1" 0).1
    /\ e ∈ entity_list
    /\ e_text e = "compliance"
    /\ e_segment_id e = "d1-0".
Proof.
  apply (extract_entities_complete demo_uuid (demo_segments "compliance")
           demo_silent demo_no_match (fun kw => kw) "d1" 0
           {| s_id := "d1-0"; s_content := "compliance" |}
           "related_concepts" ["compliance"] "compliance").
  - vm_compute. apply list_elem_of_here.
  - vm_compute. do 4 apply list_elem_of_further. apply list_elem_of_here.
  - vm_compute. do 4 apply list_elem_of_further. apply list_elem_of_here.
  - apply list_elem_of_here.
Defined.

End Extraction.

(** * knowledge_graph.py: what [find_relationships] never misses *)

Module Relationships.
Import KG.

(** The edge [find_relationships] records for a pair of entities. *)
Definition links (entity1 entity2 : Entity) (relation_type : string) (r : Edge) : Prop :=
  source r = e_id entity1
  /\ target r = e_id entity2
  /\ relation r = relation_type
  /\ r_confidence r = 0.7%Q
  /\ evidence r = e_source entity1.

(** An article and a violation named in the same segment. *)
Definition demo_linked : Dict Entity :=
  [ ("legal_articles", [demo_entity "e1" "Article 5" "legal_articles"]);
    ("violations", [demo_entity "e2" "price fixing" "violations"]) ].

Section Complete.

Variable uuid4 : nat -> string.

(** X5.  Every ordered pair of entities that are filed under different
    categories, come from the same segment, and whose categories have an
    entry in the relation table, gets an edge: from the first to the second,
    with the table's relation, confidence 0.7 and the first entity's
    excerpt as evidence. *)
Theorem find_relationships_complete (entities : Dict Entity) (n : nat)
    (type1 type2 : string) (list1 list2 : list Entity) (entity1 entity2 : Entity) :
  (type1, list1) ∈ entities -> entity1 ∈ list1 ->
  (type2, list2) ∈ entities -> entity2 ∈ list2 ->
  type1 <> type2 ->
  e_segment_id entity1 = e_segment_id entity2 ->
  _determine_relation_type type1 type2 <> "" ->
  exists r, r ∈ (find_relationships uuid4 entities n).1
            /\ links entity1 entity2 (_determine_relation_type type1 type2) r.
Proof.
  intros Hin1 He1 Hin2 He2 Htypes Hseg Hrel.
  set (Found := fun rels : list Edge =>
         exists r, r ∈ rels
                   /\ links entity1 entity2 (_determine_relation_type type1 type2) r).
  set (I := fun _ : list Edge => True).
  assert (Hup : forall x y : list Edge, x `prefix_of` y -> Found x -> Found y).
  { intros x y [k ->] (r & Hr & Hl). exists r. split; [|exact Hl].
    apply elem_of_app. by left. }
  assert (Hgrow4 : forall (t1 t2 : string) (e1 e2 : Entity) rels c,
            let body := fun (relationships : list Edge) (entity2 : Entity) =>
              if bool_decide (e_segment_id e1 = e_segment_id entity2) then
                let relation_type := _determine_relation_type t1 t2 in
                if negb (bool_decide (relation_type = "")) then
                  id <- uuid uuid4 ;;
                  ret (relationships ++
                         [ {| r_id := id; source := e_id e1; target := e_id entity2;
                              relation := relation_type; r_confidence := 0.7;
                              evidence := e_source e1 |} ])
                else ret relationships
              else ret relationships in
            I rels -> I (body rels e2 c).1 /\ rels `prefix_of` (body rels e2 c).1).
  { intros t1 t2 e1 e2 rels c body _. subst body. cbv beta zeta.
    destruct (bool_decide _); [|done].
    destruct (negb _); [|done].
    split; [done|]. unfold bind, uuid, ret. cbn [fst snd]. by apply prefix_app_r. }
  assert (Hgrow3 : forall (t1 : string) (e1 : Entity) (kv : string * list Entity) rels c,
            let body := fun (relationships : list Edge) '(entity_type2, entity_list2) =>
              if negb (bool_decide (t1 = entity_type2)) then
                for_each entity_list2 (fun relationships entity2 =>
                  if bool_decide (e_segment_id e1 = e_segment_id entity2) then
                    let relation_type := _determine_relation_type t1 entity_type2 in
                    if negb (bool_decide (relation_type = "")) then
                      id <- uuid uuid4 ;;
                      ret (relationships ++
                             [ {| r_id := id; source := e_id e1;
                                  target := e_id entity2;
                                  relation := relation_type; r_confidence := 0.7;
                                  evidence := e_source e1 |} ])
                    else ret relationships
                  else ret relationships)
                relationships
              else ret relationships in
            I rels -> I (body rels kv c).1 /\ rels `prefix_of` (body rels kv c).1).
  { intros t1 e1 [t2 l2] rels c body _. subst body. cbv beta iota zeta.
    destruct (negb _); [|done].
    apply (Extraction.for_each_grows prefix I); [|done].
    intros e2 rels' c' _ _. by apply (Hgrow4 t1 t2 e1 e2). }
  unfold find_relationships.
  apply (Extraction.for_each_reaches prefix I Found _ _ (type1, list1));
    [exact Hup| |exact Hin1| |done].
  { intros [t1 l1] rels c _ _.
    apply (Extraction.for_each_grows prefix I); [|done].
    intros e1 rels' c' _ _.
    apply (Extraction.for_each_grows prefix I); [|done].
    intros kv rels'' c'' _ _. by apply (Hgrow3 t1 e1 kv). }
  intros rels c _.
  apply (Extraction.for_each_reaches prefix I Found _ _ entity1);
    [exact Hup| |exact He1| |done].
  { intros e1 rels' c' _ _.
    apply (Extraction.for_each_grows prefix I); [|done].
    intros kv rels'' c'' _ _. by apply (Hgrow3 type1 e1 kv). }
  intros rels' c' _.
  apply (Extraction.for_each_reaches prefix I Found _ _ (type2, list2));
    [exact Hup| |exact Hin2| |done].
  { intros kv rels'' c'' _ _. by apply (Hgrow3 type1 entity1 kv). }
  intros rels'' c'' _.
  rewrite (bool_decide_eq_false_2 (type1 = type2)) by done. cbn [negb].
  apply (Extraction.for_each_reaches prefix I Found _ _ entity2);
    [exact Hup| |exact He2| |done].
  { intros e2 rels3 c3 _ _. by apply (Hgrow4 type1 type2 entity1 e2). }
  intros rels3 c3 _.
  rewrite bool_decide_eq_true_2 by done. cbv zeta.
  rewrite bool_decide_eq_false_2 by done. cbn [negb].
  unfold bind, uuid, ret. cbn [fst snd].
  eexists. split; [apply elem_of_app; right; left|].
  by repeat split.
Qed.

End Complete.

Lemma find_relationships_complete_witness :
  exists r, r ∈ (find_relationships demo_uuid demo_linked 0).1
            /\ links (demo_entity "e1" "Article 5" "legal_articles")
                 (demo_entity "e2" "price fixing" "violations") "regulates" r.
Proof.
  apply (find_relationships_complete demo_uuid demo_linked 0
           "legal_articles" "violations"
           [demo_entity "e1" "Article 5" "legal_articles"]
           [demo_entity "e2" "price fixing" "violations"]).
  - apply list_elem_of_here.
  - apply list_elem_of_here.
  - apply list_elem_of_further, list_elem_of_here.
  - apply list_elem_of_here.
  - discriminate.
  - reflexivity.
  - vm_compute. discriminate.
Defined.

End Relationships.

(** * knowledge_graph.py: more on [_merge_similar_entities] *)

Module Merge.
Import KG.

(** No node of the list passes the merge test with a later one. *)
Definition all_distinct (nodes : list Node) : Prop :=
  ForallOrdPairs (fun k m => mergeable k m = false) nodes.

(** Two nodes named alike and a third one. *)
Definition demo_nodes : list Node :=
  [demo_node "a" "price fixing"; demo_node "b" "price fixinG"; demo_node "c" "fraud"].

Lemma collect_group_none (node1 : Node) (rest group : list Node)
    (processed : gset string) :
  Forall (fun m => mergeable node1 m = false) rest ->
  collect_group node1 rest group processed = (group, processed).
Proof.
  induction 1 as [|m rest Hm _ IH]; cbn [collect_group]; [done|].
  rewrite Hm. by case_decide.
Qed.

Lemma find_groups_none (nodes : list Node) (similar_groups : list (list Node))
    (processed : gset string) :
  all_distinct nodes -> find_groups nodes similar_groups processed = similar_groups.
Proof.
  intros Hnodes. revert processed.
  induction Hnodes as [|node1 rest Hfirst _ IH]; intros processed;
    cbn [find_groups]; [done|].
  case_decide; [apply IH|].
  rewrite collect_group_none by done. cbn. apply IH.
Qed.

(** The nodes that survive the merge are pairwise unmergeable. *)
Lemma survivors_distinct (nodes : list Node) (edges : list Edge) :
  NoDup (ids nodes) -> all_distinct (_merge_similar_entities nodes edges).1.
Proof.
  intros Hnd.
  pose proof (merge_first_match nodes edges Hnd) as Hfirst.
  pose proof (survives_iff nodes edges) as Hsurv.
  destruct (merge_spec nodes edges Hnd) as [Heq _]. cbv zeta in Heq.
  rewrite Heq in *. cbn [fst] in *. clear Heq.
  set (f := fun y => bool_decide (y ∉ absorbed (find_groups nodes [] ∅))) in *.
  enough (Hall : forall pre suf, nodes = pre ++ suf ->
                   all_distinct (List.filter f suf)) by apply (Hall [] nodes eq_refl).
  intros pre suf. revert pre.
  induction suf as [|m suf IH]; intros pre Hnodes; cbn [List.filter]; [constructor|].
  assert (Hrest : all_distinct (List.filter f suf)).
  { apply (IH (pre ++ [m])). by rewrite <- app_assoc. }
  destruct (f m) eqn:Hm; [|exact Hrest].
  constructor; [|exact Hrest].
  apply Forall_forall. intros x Hx.
  apply list_elem_of_In, filter_In in Hx as [Hx Hfx].
  apply list_elem_of_In, list_elem_of_split in Hx as (l1 & l2 & ->).
  assert (Hin : forall y, y ∈ m :: l1 ++ x :: l2 -> y ∈ nodes).
  { intros y Hy. rewrite Hnodes. apply elem_of_app. by right. }
  assert (Hkeep : forall y, y ∈ m :: l1 ++ x :: l2 -> f y = true ->
                            y ∈ List.filter f nodes).
  { intros y Hy Hfy. apply list_elem_of_In, filter_In.
    split; [by apply list_elem_of_In, Hin|exact Hfy]. }
  apply (Hfirst (pre ++ m :: l1) x l2).
  - by rewrite Hnodes, <- app_assoc.
  - apply Hkeep; [|exact Hfx]. right. apply elem_of_app. right. left.
  - apply elem_of_app. right. left.
  - apply Hkeep; [left|exact Hm].
Qed.

(** X6.  When no node passes the merge test with a later node of the list,
    the merge step changes nothing: nodes and edges come back as given. *)
Theorem merge_leaves_distinct_nodes (nodes : list Node) (edges : list Edge) :
  all_distinct nodes -> _merge_similar_entities nodes edges = (nodes, edges).
Proof.
  intros Hnodes. unfold _merge_similar_entities.
  by rewrite find_groups_none.
Qed.

(** X7.  Merging is idempotent: on nodes with distinct identifiers, merging
    the result of a merge once more returns it unchanged. *)
Theorem merge_idempotent (nodes : list Node) (edges : list Edge) :
  NoDup (ids nodes) ->
  let merged := _merge_similar_entities nodes edges in
  _merge_similar_entities merged.1 merged.2 = merged.
Proof.
  intros Hnd merged.
  rewrite (surjective_pairing merged) at 3.
  unfold _merge_similar_entities at 1.
  rewrite find_groups_none; [done|].
  by apply survivors_distinct.
Qed.

(** X8.  On nodes with distinct identifiers the merge only removes nodes:
    the survivors are a sublist of the input, the first node always
    survives, and every node removed has the type of, and a label similar
    to, a surviving node that stands before it. *)
Theorem merge_survivors (nodes : list Node) (edges : list Edge) :
  NoDup (ids nodes) ->
  let kept := (_merge_similar_entities nodes edges).1 in
  kept `sublist_of` nodes
  /\ head kept = head nodes
  /\ forall l1 m l2, nodes = l1 ++ m :: l2 -> m ∉ kept ->
       exists k, k ∈ l1 /\ k ∈ kept /\ n_type k = n_type m
                 /\ similar_labels (label k) (label m).
Proof.
  intros Hnd kept.
  pose proof (survives_iff nodes edges) as Hsurv.
  pose proof (merge_first_match nodes edges Hnd) as Hfirst.
  destruct (merge_spec nodes edges Hnd) as [Heq [_ Hchar]]. cbv zeta in Heq.
  split; [|split].
  - unfold kept. rewrite Heq. apply Extraction.list_filter_sublist.
  - destruct nodes as [|m nodes']; [done|].
    assert (Hm : m ∈ kept).
    { apply (Hfirst [] m nodes' eq_refl). intros k Hk. by apply elem_of_nil in Hk. }
    unfold kept in *. rewrite Heq in *. cbn [fst List.filter] in *.
    destruct (bool_decide (m ∉ _)) eqn:Hkeep; [done|].
    apply list_elem_of_In, filter_In in Hm as [_ Hm].
    apply bool_decide_eq_false in Hkeep. by apply bool_decide_eq_true in Hm.
  - intros l1 m l2 Hnodes Hout.
    assert (Hm : m ∈ nodes) by (rewrite Hnodes; apply elem_of_app; right; left).
    assert (Habs : m ∈ absorbed (find_groups nodes [] ∅)).
    { destruct (decide (m ∈ absorbed (find_groups nodes [] ∅))) as [|Hno]; [done|].
      exfalso. apply Hout. by apply Hsurv. }
    apply (Hchar l1 m l2 Hnodes) in Habs as (k & Hk & _ & Hkabs & Hmerge);
      [|apply not_elem_of_empty].
    exists k. split; [exact Hk|]. split.
    { apply Hsurv; [done|]. split; [|exact Hkabs].
      rewrite Hnodes. apply elem_of_app. by left. }
    by apply mergeable_spec.
Qed.

Lemma demo_nodes_ids : NoDup (ids demo_nodes).
Proof. apply (bool_decide_unpack _). vm_compute. exact I. Qed.

Lemma merge_leaves_distinct_nodes_witness :
  _merge_similar_entities [demo_node "a" "price fixing"; demo_node "c" "fraud"]
    [demo_edge "a" "c"]
  = ([demo_node "a" "price fixing"; demo_node "c" "fraud"], [demo_edge "a" "c"]).
Proof.
  apply merge_leaves_distinct_nodes.
  repeat constructor.
Defined.

Lemma merge_idempotent_witness :
  let merged := _merge_similar_entities demo_nodes [demo_edge "b" "c"] in
  merged = ([demo_node "a" "price fixing"; demo_node "c" "fraud"], [demo_edge "a" "c"])
  /\ _merge_similar_entities merged.1 merged.2 = merged.
Proof.
  split; [reflexivity|].
  apply (merge_idempotent demo_nodes [demo_edge "b" "c"] demo_nodes_ids).
Defined.

Lemma merge_survivors_witness :
  let kept := (_merge_similar_entities demo_nodes []).1 in
  kept `sublist_of` demo_nodes
  /\ head kept = head demo_nodes
  /\ forall l1 m l2, demo_nodes = l1 ++ m :: l2 -> m ∉ kept ->
       exists k, k ∈ l1 /\ k ∈ kept /\ n_type k = n_type m
                 /\ similar_labels (label k) (label m).
Proof.
  apply (merge_survivors demo_nodes [] demo_nodes_ids).
Defined.

End Merge.

(** * knowledge_graph.py: what [query_knowledge_graph] returns *)

Module Query.
Import KG.

(** An edge passes the relation filter of the query. *)
Definition wanted (relation_type : option string) (edge : Edge) : bool :=
  match relation_type with
  | None => true
  | Some rt => bool_decide (relation edge = rt)
  end.

(** The edges kept by one pass over [edges], starting from the related
    identifiers [related]. *)
Fixpoint walk (relation_type : option string) (related : gset string)
    (edges : list Edge) : list Edge :=
  match edges with
  | [] => []
  | edge :: edges' =>
      if (bool_decide (source edge ∈ related) || bool_decide (target edge ∈ related))
         && wanted relation_type edge
      then edge :: walk relation_type
                     ({[target edge]} ∪ ({[source edge]} ∪ related)) edges'
      else walk relation_type related edges'
  end.

(** The identifier is an end of the edge. *)
Definition end_of (edge : Edge) (x : string) : Prop :=
  x = source edge \/ x = target edge.

Lemma scan_nodes_spec (entity_name : string) (nodes : list Node) :
  (scan_nodes entity_name nodes).1 = List.filter (matches entity_name) nodes
  /\ forall x, x ∈ (scan_nodes entity_name nodes).2
               <-> x ∈ ids (List.filter (matches entity_name) nodes).
Proof.
  unfold scan_nodes.
  enough (Hgen : forall ms (rel : gset string),
            let r := foldl (fun '(matching_nodes, related_node_ids) node =>
                              if matches entity_name node
                              then (matching_nodes ++ [node],
                                    {[n_id node]} ∪ related_node_ids)
                              else (matching_nodes, related_node_ids))
                           (ms, rel) nodes in
            r.1 = ms ++ List.filter (matches entity_name) nodes
            /\ forall x, x ∈ r.2
                 <-> x ∈ rel \/ x ∈ ids (List.filter (matches entity_name) nodes)).
  { destruct (Hgen [] ∅) as [H1 H2]. split; [exact H1|].
    intros x. rewrite H2. rewrite elem_of_empty. tauto. }
  induction nodes as [|node nodes IH]; intros ms rel; cbn [foldl List.filter].
  { cbn. split; [by rewrite app_nil_r|]. intros x. rewrite elem_of_nil. tauto. }
  destruct (matches entity_name node).
  - destruct (IH (ms ++ [node]) ({[n_id node]} ∪ rel)) as [H1 H2].
    cbv zeta in *. split; [by rewrite H1, <- app_assoc|].
    intros x. rewrite H2. cbn. rewrite elem_of_union, elem_of_singleton, elem_of_cons.
    tauto.
  - apply IH.
Qed.

Lemma scan_edges_walk (relation_type : option string) (related : gset string)
    (edges : list Edge) :
  (scan_edges relation_type related edges).1 = walk relation_type related edges.
Proof.
  unfold scan_edges.
  enough (Hgen : forall kept rel,
            (foldl (fun '(related_edges, related_node_ids) edge =>
                      if bool_decide (source edge ∈ related_node_ids)
                         || bool_decide (target edge ∈ related_node_ids)
                      then
                        if match relation_type with
                           | None => true
                           | Some rt => bool_decide (relation edge = rt)
                           end
                        then (related_edges ++ [edge],
                              {[target edge]} ∪ ({[source edge]} ∪ related_node_ids))
                        else (related_edges, related_node_ids)
                      else (related_edges, related_node_ids))
                   (kept, rel) edges).1
            = kept ++ walk relation_type rel edges) by apply (Hgen [] related).
  induction edges as [|edge edges IH]; intros kept rel; cbn [foldl walk].
  { by rewrite app_nil_r. }
  unfold wanted at 1.
  destruct (bool_decide (source edge ∈ rel) || bool_decide (target edge ∈ rel));
    cbn [andb]; [|apply IH].
  destruct (match relation_type with None => true | Some rt => _ end); [|apply IH].
  by rewrite IH, <- app_assoc.
Qed.

Lemma walk_sublist (relation_type : option string) (related : gset string)
    (edges : list Edge) :
  walk relation_type related edges `sublist_of` edges.
Proof.
  revert related. induction edges as [|edge edges IH]; intros related; cbn [walk];
    [constructor|].
  destruct (_ && _); constructor; apply IH.
Qed.

Lemma walk_wanted (relation_type : option string) (related : gset string)
    (edges : list Edge) :
  Forall (fun e => wanted relation_type e = true) (walk relation_type related edges).
Proof.
  revert related. induction edges as [|edge edges IH]; intros related; cbn [walk];
    [constructor|].
  destruct (_ && _) eqn:Hkeep; [|apply IH].
  apply andb_true_iff in Hkeep as [_ Hw]. constructor; [exact Hw|apply IH].
Qed.

(** Every kept edge touches an identifier that was related when the pass
    started or is an end of an edge kept before it. *)
Lemma walk_chain (relation_type : option string) (related : gset string)
    (edges : list Edge) (pre post : list Edge) (e : Edge) :
  walk relation_type related edges = pre ++ e :: post ->
  exists x, end_of e x /\ (x ∈ related \/ exists e', e' ∈ pre /\ end_of e' x).
Proof.
  revert related pre. induction edges as [|edge edges IH]; intros related pre;
    cbn [walk].
  { by destruct pre. }
  destruct (_ && _) eqn:Hkeep; [|apply IH].
  destruct pre as [|e0 pre]; cbn.
  - intros [= <- Hrest]. apply andb_true_iff in Hkeep as [Htouch _].
    apply orb_true_iff in Htouch as [Hx|Hx]; apply bool_decide_eq_true in Hx.
    + exists (source edge). split; [by left|by left].
    + exists (target edge). split; [by right|by left].
  - intros [= <- Hrest]. destruct (IH _ _ Hrest) as (x & Hend & Hx).
    exists x. split; [exact Hend|].
    destruct Hx as [Hx|(e' & He' & Hx)].
    + rewrite !elem_of_union, !elem_of_singleton in Hx.
      destruct Hx as [->|[->|Hx]].
      * right. exists edge. split; [left|by right].
      * right. exists edge. split; [left|by left].
      * by left.
    + right. exists e'. split; [by right|exact Hx].
Qed.

(** An edge that touches an identifier related at the start of the pass,
    and passes the filter, is kept. *)
Lemma walk_complete (relation_type : option string) (related : gset string)
    (edges : list Edge) (e : Edge) :
  e ∈ edges ->
  source e ∈ related \/ target e ∈ related ->
  wanted relation_type e = true ->
  e ∈ walk relation_type related edges.
Proof.
  intros He Htouch Hw. revert related Htouch.
  induction edges as [|edge edges IH]; intros related Htouch; cbn [walk];
    [by apply elem_of_nil in He|].
  apply elem_of_cons in He as [<-|He].
  - rewrite Hw.
    assert (bool_decide (source e ∈ related) || bool_decide (target e ∈ related) = true)
      as ->.
    { apply orb_true_iff. rewrite !bool_decide_eq_true. exact Htouch. }
    left.
  - destruct (_ && _).
    + right. apply IH; [exact He|].
      rewrite !elem_of_union. tauto.
    + by apply IH.
Qed.

Lemma walk_nothing_related (relation_type : option string) (edges : list Edge) :
  walk relation_type ∅ edges = [].
Proof.
  induction edges as [|edge edges IH]; cbn [walk]; [done|].
  rewrite !bool_decide_eq_false_2 by apply not_elem_of_empty. exact IH.
Qed.

Lemma scan_edges_keeps_related (relation_type : option string)
    (related : gset string) (edges : list Edge) (x : string) :
  x ∈ related -> x ∈ (scan_edges relation_type related edges).2.
Proof.
  intros Hx. unfold scan_edges.
  apply (foldl_inv (fun acc => x ∈ acc.2)); [exact Hx|].
  intros [kept rel] edge _ Hrel. cbn [snd] in *.
  destruct (_ || _); [|exact Hrel].
  destruct (match relation_type with None => true | Some rt => _ end); [|exact Hrel].
  cbn [snd]. rewrite !elem_of_union. tauto.
Qed.

Lemma list_filter_nil {A} (f : A -> bool) (l : list A) :
  (forall x, x ∈ l -> f x = false) -> List.filter f l = [].
Proof.
  induction l as [|x l IH]; intros Hall; cbn; [done|].
  rewrite Hall by left. apply IH. intros y Hy. apply Hall. by right.
Qed.

(** The three parts of the answer for a stored graph. *)
Lemma query_fields (graph_data : GraphData) (entity_name : string)
    (relation_type : option string) :
  let result := query_knowledge_graph (Some graph_data) entity_name relation_type in
  let related := (scan_nodes entity_name (nodes graph_data)).2 in
  q_edges result = walk relation_type related (edges graph_data)
  /\ q_nodes result
     = List.filter
         (fun node =>
            bool_decide (n_id node
                           ∈ (scan_edges relation_type related (edges graph_data)).2))
         (nodes graph_data)
  /\ found_matches <$> query_info result
     = Some (length (List.filter (matches entity_name) (nodes graph_data))).
Proof.
  cbv zeta. unfold query_knowledge_graph.
  rewrite <- scan_edges_walk.
  destruct (scan_nodes_spec entity_name (nodes graph_data)) as [<- _].
  destruct (scan_nodes entity_name (nodes graph_data)) as [matching related].
  cbn [fst snd].
  by destruct (scan_edges relation_type related (edges graph_data)) as [kept final].
Qed.

Lemma matching_node_returned (graph_data : GraphData) (entity_name : string)
    (relation_type : option string) (node : Node) :
  node ∈ nodes graph_data -> matches entity_name node = true ->
  node ∈ q_nodes (query_knowledge_graph (Some graph_data) entity_name relation_type)
  /\ n_id node ∈ (scan_nodes entity_name (nodes graph_data)).2.
Proof.
  intros Hin Hm.
  destruct (query_fields graph_data entity_name relation_type) as (_ & Hnodes & _).
  destruct (scan_nodes_spec entity_name (nodes graph_data)) as [_ Hrel].
  assert (Hid : n_id node ∈ (scan_nodes entity_name (nodes graph_data)).2).
  { apply Hrel. apply list_elem_of_fmap_2.
    apply list_elem_of_In, filter_In. split; [by apply list_elem_of_In|exact Hm]. }
  split; [|exact Hid]. rewrite Hnodes.
  apply list_elem_of_In, filter_In. split; [by apply list_elem_of_In|].
  apply bool_decide_eq_true. by apply scan_edges_keeps_related.
Qed.

Lemma no_match_none_related (entity_name : string) (nodes : list Node) :
  (forall node, node ∈ nodes -> matches entity_name node = false) ->
  (scan_nodes entity_name nodes).2 = ∅.
Proof.
  intros Hnone.
  destruct (scan_nodes_spec entity_name nodes) as [_ Hrel].
  rewrite (list_filter_nil _ _ Hnone) in Hrel.
  apply set_eq. intros x. rewrite Hrel, elem_of_empty.
  split; [|done]. apply not_elem_of_nil.
Qed.

Lemma none_related_nothing_returned (graph_data : GraphData)
    (entity_name : string) (relation_type : option string) :
  (scan_nodes entity_name (nodes graph_data)).2 = ∅ ->
  let result := query_knowledge_graph (Some graph_data) entity_name relation_type in
  q_nodes result = [] /\ q_edges result = [].
Proof.
  intros Hempty result.
  destruct (query_fields graph_data entity_name relation_type) as (Hedges & Hnodes & _).
  fold result in Hedges, Hnodes.
  rewrite Hempty in *. rewrite walk_nothing_related in Hedges.
  split; [|exact Hedges].
  rewrite Hnodes. apply list_filter_nil. intros node _.
  apply bool_decide_eq_false. intros Hin.
  destruct (scan_edges_related relation_type ∅ (edges graph_data)) as [_ Hfinal].
  cbv zeta in Hfinal. apply Hfinal in Hin as [Hin|(e & He & _)].
  - by apply not_elem_of_empty in Hin.
  - rewrite scan_edges_walk, walk_nothing_related in He. by apply elem_of_nil in He.
Qed.

(** X9.  A query of a stored graph misses nothing near a match: every node
    whose label contains the name (without regard to case) is returned, the
    number of matches reported is the number of such nodes, and every stored
    edge with an end at such a node is returned, provided it carries the
    requested relation when one is requested. *)
Theorem query_returns_matches (graph_data : GraphData) (entity_name : string)
    (relation_type : option string) :
  let result := query_knowledge_graph (Some graph_data) entity_name relation_type in
  (forall node, node ∈ nodes graph_data -> matches entity_name node = true ->
     node ∈ q_nodes result)
  /\ (forall node e, node ∈ nodes graph_data -> matches entity_name node = true ->
        e ∈ edges graph_data -> end_of e (n_id node) ->
        wanted relation_type e = true ->
        e ∈ q_edges result)
  /\ found_matches <$> query_info result
     = Some (length (List.filter (matches entity_name) (nodes graph_data))).
Proof.
  intros result.
  destruct (query_fields graph_data entity_name relation_type) as (Hedges & _ & Hinfo).
  fold result in Hedges, Hinfo.
  split; [|split; [|exact Hinfo]].
  - intros node Hin Hm. by apply matching_node_returned.
  - intros node e Hin Hm He Hend Hw. rewrite Hedges.
    destruct (matching_node_returned graph_data entity_name relation_type node Hin Hm)
      as [_ Hid].
    apply walk_complete; [exact He| |exact Hw].
    destruct Hend as [Hend|Hend]; [left|right]; by rewrite <- Hend.
Qed.

(** X10.  A query of a stored graph invents nothing and follows edges only
    forward through the stored list: the nodes and edges returned are
    sublists of the stored ones, every edge returned carries the requested
    relation when one is requested, and every edge returned has an end at a
    matching node or at an end of an edge returned before it. *)
Theorem query_returns_stored (graph_data : GraphData) (entity_name : string)
    (relation_type : option string) :
  let result := query_knowledge_graph (Some graph_data) entity_name relation_type in
  q_nodes result `sublist_of` nodes graph_data
  /\ q_edges result `sublist_of` edges graph_data
  /\ Forall (fun e => wanted relation_type e = true) (q_edges result)
  /\ forall pre e post, q_edges result = pre ++ e :: post ->
       exists x, end_of e x
         /\ ((exists node, node ∈ nodes graph_data
                           /\ matches entity_name node = true /\ n_id node = x)
             \/ exists e', e' ∈ pre /\ end_of e' x).
Proof.
  intros result.
  destruct (query_fields graph_data entity_name relation_type) as (Hedges & Hnodes & _).
  fold result in Hedges, Hnodes. rewrite Hedges, Hnodes.
  split; [apply Extraction.list_filter_sublist|].
  split; [apply walk_sublist|].
  split; [apply walk_wanted|].
  intros pre e post Hsplit.
  destruct (walk_chain _ _ _ _ _ _ Hsplit) as (x & Hend & Hx).
  exists x. split; [exact Hend|].
  destruct Hx as [Hx|Hx]; [left|by right].
  by apply scan_nodes_related in Hx.
Qed.

(** X11.  When no stored node's label contains the name, the query returns
    no node and no edge, whatever the edges are. *)
Theorem query_without_match (graph_data : GraphData) (entity_name : string)
    (relation_type : option string) :
  (forall node, node ∈ nodes graph_data -> matches entity_name node = false) ->
  let result := query_knowledge_graph (Some graph_data) entity_name relation_type in
  q_nodes result = [] /\ q_edges result = []
  /\ found_matches <$> query_info result = Some 0.
Proof.
  intros Hnone result.
  destruct (none_related_nothing_returned graph_data entity_name relation_type)
    as [Hnodes Hedges]; [by apply no_match_none_related|].
  destruct (query_fields graph_data entity_name relation_type) as (_ & _ & Hinfo).
  fold result in Hnodes, Hedges, Hinfo.
  rewrite (list_filter_nil _ _ Hnone) in Hinfo.
  by repeat split.
Qed.

Lemma query_without_match_witness :
  let result := query_knowledge_graph (Some demo_graph) "monopoly" None in
  q_nodes result = [] /\ q_edges result = []
  /\ found_matches <$> query_info result = Some 0.
Proof.
  apply (query_without_match demo_graph "monopoly" None).
  intros node Hnode. cbn in Hnode.
  repeat (apply elem_of_cons in Hnode as [->|Hnode]; [reflexivity|]).
  by apply elem_of_nil in Hnode.
Defined.

End Query.

(** * vector_service.py: searching with any filters *)

Module Filtering.
Import Vector.

(** What a result that passes [filters] satisfies. *)
Definition passes (filters : Filters) (r : ScoredSegment) : Prop :=
  (forall m, min_similarity filters = Some m -> (m <= similarity_score r)%Q)
  /\ (forall kws, keywords filters = Some kws ->
        exists keyword, keyword ∈ kws
                        /\ Py.contains keyword (seg_content (segment r)) = true).

Lemma include_passes (filters : Filters) (r : ScoredSegment) :
  include filters r = true <-> passes filters r.
Proof.
  unfold include, passes. destruct filters as [[m|] [kws|]]; cbn.
  - destruct (Qle_bool m (similarity_score r)) eqn:Hm; cbn.
    + destruct (existsb _ kws) eqn:Hk; cbn.
      * split; [intros _|done]. split.
        { intros ? [= <-]. by apply Qle_bool_iff. }
        intros ? [= <-]. apply existsb_exists in Hk as (kw & Hin & Hkw).
        exists kw. split; [by apply list_elem_of_In|exact Hkw].
      * split; [done|]. intros [_ Hkws].
        destruct (Hkws kws eq_refl) as (kw & Hin & Hkw).
        assert (existsb (fun keyword => Py.contains keyword (seg_content (segment r))) kws
                = true); [|congruence].
        apply existsb_exists. exists kw. split; [by apply list_elem_of_In|exact Hkw].
    + split; [by destruct (existsb _ kws)|]. intros [Hmin _].
      specialize (Hmin m eq_refl). apply Qle_bool_iff in Hmin. congruence.
  - destruct (Qle_bool m (similarity_score r)) eqn:Hm; cbn.
    + split; [intros _|done]. split; [|done].
      intros ? [= <-]. by apply Qle_bool_iff.
    + split; [done|]. intros [Hmin _].
      specialize (Hmin m eq_refl). apply Qle_bool_iff in Hmin. congruence.
  - destruct (existsb _ kws) eqn:Hk; cbn.
    + split; [intros _|done]. split; [done|].
      intros ? [= <-]. apply existsb_exists in Hk as (kw & Hin & Hkw).
      exists kw. split; [by apply list_elem_of_In|exact Hkw].
    + split; [done|]. intros [_ Hkws].
      destruct (Hkws kws eq_refl) as (kw & Hin & Hkw).
      assert (existsb (fun keyword => Py.contains keyword (seg_content (segment r))) kws
              = true); [|congruence].
      apply existsb_exists. exists kw. split; [by apply list_elem_of_In|exact Hkw].
  - by split.
Qed.

Section Search.

Variable get_embedding : string -> list Q.
Variable cosine_similarity : list Q -> list Q -> Q.
Variable vectors_data : list (string * DocVectors).

Lemma ranked_sorted (query : string) :
  StronglySorted desc_score (ranked get_embedding cosine_similarity vectors_data query).
Proof. apply sorted_map_result, sort_desc_sorted. Qed.

(** X12.  Whatever the filters, [search_regulations] returns at most
    [top_k] results, in ranking order, every one of which passes every
    filter given: its score is at least the minimum and its content contains
    one of the keywords, as written.  Results are only ever taken from the
    first [2 * top_k] entries of the ranking: a segment ranked lower is
    never returned, even when fewer than [top_k] results pass. *)
Theorem search_regulations_filtered (query : string) (filters : Filters)
    (top_k : nat) :
  let found :=
    search_regulations get_embedding cosine_similarity vectors_data
      query (Some filters) top_k in
  length found <= top_k
  /\ found `sublist_of`
       take (top_k * 2) (ranked get_embedding cosine_similarity vectors_data query)
  /\ StronglySorted desc_score found
  /\ Forall (passes filters) found.
Proof.
  intros found. unfold found, search_regulations.
  rewrite find_similar_segments_ranked.
  split; [rewrite length_take; lia|].
  split; [etrans; [apply sublist_take|apply Extraction.list_filter_sublist]|].
  split; [apply sorted_take, sorted_filter, sorted_take, ranked_sorted|].
  apply Forall_forall. intros r Hr.
  apply include_passes.
  apply elem_of_take in Hr as (i & Hr & _).
  apply list_elem_of_lookup_2, list_elem_of_In, filter_In in Hr as [_ Hr]. exact Hr.
Qed.

End Search.

End Filtering.

(** * rag_service.py: retrieval, graph enrichment and the answer *)

Module Retrieval.

Definition nl : string := String "010" "".

(** The defaults of [retrieve_relevant_documents] and [_build_context_text].
    Scores and thresholds are compared as rationals, each the exact value
    of its binary64 number: the default threshold is the value of the
    literal [0.3], which is 5404319552844595 / 2^54, a little below 3/10. *)
Definition default_similarity_threshold : Q :=
  5404319552844595 # 18014398509481984.
Definition default_max_length : Z := 3000.

(** One entry of "sources". *)
Record Source := {
  src_content : string;
  src_similarity_score : Q;
  src_document_id : string
}.

(** The dictionary [generate_answer] returns, with the two keys
    [ask_question] adds to it. *)
Record Answer := {
  answer : string;
  confidence : float;
  sources : list Source;
  context_used : nat;
  query : option string;
  retrieval_count : option nat
}.

(** A retrieved segment as a context item.  A stored segment has no "source"
    key; it has no "document_id" key either ([segment_text] and
    [embed_text_segments] write none), which is why a source reports the
    default "unknown". *)
Definition context_of (s : Vector.ScoredSegment) : Rag.ContextDoc :=
  {| Rag.content := Vector.seg_content (Vector.segment s);
     Rag.similarity_score := Vector.similarity_score s;
     Rag.source := None |}.

(** One entry of "sources" for a context item. *)
Definition source_of (doc : Rag.ContextDoc) : Source :=
  {| src_content := Py.slice_to 200 (Rag.content doc) +:+ "...";
     src_similarity_score := Rag.similarity_score doc;
     src_document_id := "unknown" |}.

(** [doc.get("source") != "knowledge_graph"]. *)
Definition from_documents (doc : Rag.ContextDoc) : bool :=
  negb (bool_decide (Rag.source doc = Some "knowledge_graph")).

(** [next((n for n in nodes if n["id"] == x), {})]. *)
Definition node_with_id (nodes : list KG.Node) (x : string) : option KG.Node :=
  List.find (fun n => bool_decide (KG.n_id n = x)) nodes.

Definition _format_kg_context (kg_results : KG.QueryResult) : string :=
  let context_parts := ["Related legal entities and relationships:" +:+ nl] in
  let context_parts :=
    foldl (fun context_parts node =>
             context_parts
             ++ ["- " +:+ KG.label node +:+ " (" +:+ KG.n_type node +:+ ")"])
          context_parts (take 5 (KG.q_nodes kg_results)) in
  let context_parts :=
    match KG.q_edges kg_results with
    | [] => context_parts
    | _ =>
        foldl (fun context_parts edge =>
                 let source_node := node_with_id (KG.q_nodes kg_results) (KG.source edge) in
                 let target_node := node_with_id (KG.q_nodes kg_results) (KG.target edge) in
                 match source_node, target_node with
                 | Some source_node, Some target_node =>
                     context_parts
                     ++ ["- " +:+ KG.label source_node +:+ " " +:+ KG.relation edge
                         +:+ " " +:+ KG.label target_node]
                 | _, _ => context_parts
                 end)
              (context_parts ++ [nl +:+ "Related legal relationships:"])
              (take 3 (KG.q_edges kg_results))
    end in
  Py.join nl context_parts.

(** The prompt of [generate_answer]. *)
Definition answer_prompt (context_text query : string) : string :=
  "As a legal expert, please answer the question based on the following legal documents. Ensure your answer is accurate, complete, and cites specific articles or documents."
  +:+ nl +:+ nl +:+ "Related Legal Documents:" +:+ nl +:+ context_text
  +:+ nl +:+ nl +:+ "Question: " +:+ query
  +:+ nl +:+ nl +:+ "Please answer in the following format:"
  +:+ nl +:+ "1. Direct answer to the question"
  +:+ nl +:+ "2. Specific legal articles or regulations cited"
  +:+ nl +:+ "3. Related suggestions or considerations"
  +:+ nl +:+ nl +:+ "Answer:".

Section Service.

Variable get_embedding : string -> list Q.
Variable cosine_similarity : list Q -> list Q -> Q.
Variable vectors_data : list (string * Vector.DocVectors).
Variable load_knowledge_graph : option KG.GraphData.
(** [ai_client.generate_text(prompt, max_tokens=1500)]: the text, or the
    message of the exception it raises. *)
Variable generate_text : string -> string + string.
(** The weighted sum of [_calculate_answer_confidence] (lines 139-147) on a
    non-empty context, in binary64. *)
Variable weighted_confidence : list Rag.ContextDoc -> string -> float.

Definition retrieve_relevant_documents (query : string) (top_k : nat)
    (similarity_threshold : Q) : list Vector.ScoredSegment :=
  let similar_segments :=
    Vector.find_similar_segments get_embedding cosine_similarity vectors_data
      query (top_k * 2) in
  let filtered_segments :=
    List.filter (fun segment =>
                   Qle_bool similarity_threshold (Vector.similarity_score segment))
                similar_segments in
  take top_k filtered_segments.

Definition enhance_context_with_kg (query : string)
    (retrieved_docs : list Rag.ContextDoc) : list Rag.ContextDoc :=
  let enhanced_docs := retrieved_docs in
  let kg_results := KG.query_knowledge_graph load_knowledge_graph query None in
  match KG.q_nodes kg_results with
  | [] => enhanced_docs
  | _ =>
      let kg_context :=
        {| Rag.content := _format_kg_context kg_results;
           Rag.similarity_score := 0.9;
           Rag.source := Some "knowledge_graph" |} in
      kg_context :: enhanced_docs
  end.

Definition _calculate_answer_confidence (context_docs : list Rag.ContextDoc)
    (query : string) : float :=
  match context_docs with
  | [] => 0%float
  | _ => weighted_confidence context_docs query
  end.

Definition generate_answer (query : string) (context_docs : list Rag.ContextDoc)
    : Answer :=
  let context_text := Rag._build_context_text default_max_length context_docs in
  let prompt := answer_prompt context_text query in
  match generate_text prompt with
  | inl answer =>
      let confidence := _calculate_answer_confidence context_docs query in
      let sources := map source_of (List.filter from_documents (take 3 context_docs)) in
      {| answer := answer; confidence := confidence; sources := sources;
         context_used := length context_docs;
         query := None; retrieval_count := None |}
  | inr e =>
      {| answer := "Sorry, an error occurred while generating the answer: " +:+ e;
         confidence := 0; sources := []; context_used := 0;
         query := None; retrieval_count := None |}
  end.

(** The collaborators above never fail, so the handler around the whole of
    [ask_question] is never entered. *)
Definition ask_question (question : string) (top_k : nat) (use_kg : bool) : Answer :=
  let retrieved_docs :=
    retrieve_relevant_documents question top_k default_similarity_threshold in
  match retrieved_docs with
  | [] =>
      {| answer := "Sorry, no relevant regulatory documents found to answer your question.";
         confidence := 0; sources := []; context_used := 0;
         query := None; retrieval_count := None |}
  | _ =>
      let enhanced_docs :=
        if use_kg
        then enhance_context_with_kg question (map context_of retrieved_docs)
        else map context_of retrieved_docs in
      let result := generate_answer question enhanced_docs in
      {| answer := answer result; confidence := confidence result;
         sources := sources result; context_used := context_used result;
         query := Some question;
         retrieval_count := Some (length retrieved_docs) |}
  end.

(** The graph has a node whose label contains the question. *)
Definition graph_mentions (question : string) : Prop :=
  exists graph_data node,
    load_knowledge_graph = Some graph_data
    /\ node ∈ KG.nodes graph_data
    /\ KG.matches question node = true.

End Service.

(** *** Lengths of strings *)

Lemma length_app (s t : string) :
  String.length (s +:+ t) = String.length s + String.length t.
Proof.
  induction s as [|c s IH]; [done|].
  change (String c s +:+ t) with (String c (s +:+ t)).
  cbn [String.length plus]. by rewrite IH.
Qed.

Lemma length_slice_to (n : nat) (s : string) :
  String.length (Py.slice_to n s) <= n.
Proof.
  unfold Py.slice_to. revert s. induction n as [|n IH]; intros [|c s]; cbn; try lia.
  specialize (IH s). lia.
Qed.

(** The characters of a list of parts, and of the parts joined by a
    separator. *)
Definition total_length (parts : list string) : Z :=
  foldr (fun p acc => (Rag.len p + acc)%Z) 0%Z parts.

Lemma total_length_cons (p : string) (parts : list string) :
  total_length (p :: parts) = (Rag.len p + total_length parts)%Z.
Proof. reflexivity. Qed.

Lemma length_join (sep : string) (parts : list string) :
  Rag.len (Py.join sep parts)
  = (total_length parts + Rag.len sep * Z.of_nat (pred (length parts)))%Z.
Proof.
  induction parts as [|p [|p' rest] IH]; cbn [Py.join length pred].
  - unfold Rag.len. cbn. lia.
  - rewrite total_length_cons. cbn. lia.
  - cbn [Py.join length pred] in IH. rewrite total_length_cons.
    unfold Rag.len in *. rewrite !length_app. lia.
Qed.

Lemma parts_within_length (keeps_cut : Z -> bool) (items : list string) (budget : Z) :
  (total_length (Rag.parts_within keeps_cut items budget) <= Z.max 0 budget + 3)%Z
  /\ length (Rag.parts_within keeps_cut items budget) <= length items.
Proof.
  revert budget. induction items as [|t rest IH]; intros budget;
    cbn [Rag.parts_within length]; [cbn; lia|].
  destruct (Z.leb_spec (Rag.len t) budget) as [Hfit|Hover].
  - destruct (IH (budget - Rag.len t)%Z) as [Hlen Hcount].
    rewrite total_length_cons. cbn [length]. unfold Rag.len in *. lia.
  - destruct (keeps_cut budget); [|cbn; lia].
    rewrite total_length_cons. unfold Rag.len. rewrite length_app.
    pose proof (length_slice_to (Z.to_nat budget) t). cbn. lia.
Qed.

(** *** Sample data *)

(** A query direction orthogonal to every stored vector, and one in the
    direction of most of them. *)
Definition demo_far (text : string) : list Q := [0; 0]%Q.
Definition demo_near (text : string) : list Q := [1; 0]%Q.

Definition demo_generate (prompt : string) : string + string := inl "Yes.".
Definition demo_confidence (docs : list Rag.ContextDoc) (query : string) : float :=
  0.5%float.

(** *** Properties *)

(** The default threshold is the number the binary64 literal [0.3] is,
    which is below 3/10. *)
Lemma default_similarity_threshold_exact :
  (exists v, Py.exact 0.3%float = Some v /\ (v == default_similarity_threshold)%Q)
  /\ (default_similarity_threshold < 3 # 10)%Q.
Proof.
  split; [|reflexivity].
  eexists. split; [vm_compute; reflexivity|]. vm_compute. reflexivity.
Qed.

Lemma from_documents_context_of (s : Vector.ScoredSegment) :
  from_documents (context_of s) = true.
Proof. reflexivity. Qed.

Lemma kg_nodes_cases (load_knowledge_graph : option KG.GraphData)
    (question : string) :
  (KG.q_nodes (KG.query_knowledge_graph load_knowledge_graph question None) = []
   /\ ~ graph_mentions load_knowledge_graph question)
  \/ (KG.q_nodes (KG.query_knowledge_graph load_knowledge_graph question None) <> []
      /\ graph_mentions load_knowledge_graph question).
Proof.
  destruct load_knowledge_graph as [graph_data|].
  2:{ left. split; [done|]. intros (g & node & Hload & _). discriminate. }
  destruct (List.filter (KG.matches question) (KG.nodes graph_data))
    as [|node rest] eqn:Hfilter.
  - assert (Hnone : forall node, node ∈ KG.nodes graph_data ->
                      KG.matches question node = false).
    { intros node Hin. destruct (KG.matches question node) eqn:Hm; [|done].
      assert (Hnode : node ∈ List.filter (KG.matches question) (KG.nodes graph_data))
        by (apply list_elem_of_In, filter_In; split; [by apply list_elem_of_In|done]).
      rewrite Hfilter in Hnode. by apply elem_of_nil in Hnode. }
    left. split.
    + by apply (Query.none_related_nothing_returned graph_data question None),
        Query.no_match_none_related.
    + intros (g & node & [= <-] & Hin & Hm). rewrite Hnone in Hm; done.
  - assert (Hnode : node ∈ List.filter (KG.matches question) (KG.nodes graph_data))
      by (rewrite Hfilter; left).
    apply list_elem_of_In, filter_In in Hnode as [Hin%list_elem_of_In Hm].
    right. split; [|by exists graph_data, node].
    destruct (Query.matching_node_returned graph_data question None node Hin Hm)
      as [Hnode _].
    intros Hnil. rewrite Hnil in Hnode. by apply elem_of_nil in Hnode.
Qed.

(** The two outcomes of the enrichment. *)
Lemma enhance_cases (load_knowledge_graph : option KG.GraphData) (query : string)
    (retrieved_docs : list Rag.ContextDoc) :
  let enhanced := enhance_context_with_kg load_knowledge_graph query retrieved_docs in
  (~ graph_mentions load_knowledge_graph query /\ enhanced = retrieved_docs)
  \/ (graph_mentions load_knowledge_graph query
      /\ exists summary,
           enhanced = summary :: retrieved_docs
           /\ Rag.source summary = Some "knowledge_graph"
           /\ Rag.similarity_score summary = 0.9%Q
           /\ from_documents summary = false).
Proof.
  intros enhanced. unfold enhanced, enhance_context_with_kg. cbv zeta.
  destruct (kg_nodes_cases load_knowledge_graph query) as [[Hnil Hno]|[Hsome Hm]].
  - left. by rewrite Hnil.
  - right. split; [exact Hm|].
    destruct (KG.q_nodes (KG.query_knowledge_graph load_knowledge_graph query None));
      [done|].
    eexists. by repeat split.
Qed.

Section Facts.

Variable get_embedding : string -> list Q.
Variable cosine_similarity : list Q -> list Q -> Q.
Variable vectors_data : list (string * Vector.DocVectors).
Variable load_knowledge_graph : option KG.GraphData.
Variable generate_text : string -> string + string.
Variable weighted_confidence : list Rag.ContextDoc -> string -> float.

(** X13.  Retrieval for question answering is the filtered search: it
    returns what [search_regulations] returns for the single filter
    "min_similarity"; so it returns at most [top_k] segments, each scoring
    at least the threshold, best first. *)
Theorem retrieve_is_filtered_search (query : string) (top_k : nat)
    (similarity_threshold : Q) :
  let retrieved :=
    retrieve_relevant_documents get_embedding cosine_similarity vectors_data
      query top_k similarity_threshold in
  retrieved
  = Vector.search_regulations get_embedding cosine_similarity vectors_data query
      (Some {| Vector.min_similarity := Some similarity_threshold;
               Vector.keywords := None |}) top_k
  /\ length retrieved <= top_k
  /\ Forall (fun s => (similarity_threshold <= Vector.similarity_score s)%Q) retrieved
  /\ StronglySorted Vector.desc_score retrieved.
Proof.
  intros retrieved. unfold retrieved, retrieve_relevant_documents.
  split; [|split; [|split]].
  - unfold Vector.search_regulations. f_equal. apply filter_ext.
    intros s. by rewrite Vector.include_min_only.
  - rewrite length_take. lia.
  - apply Forall_forall. intros s Hs.
    apply elem_of_take in Hs as (i & Hs & _).
    apply list_elem_of_lookup_2, list_elem_of_In, filter_In in Hs as [_ Hs].
    by apply Qle_bool_iff.
  - rewrite Vector.find_similar_segments_ranked.
    apply Vector.sorted_take, Vector.sorted_filter, Vector.sorted_take,
      Filtering.ranked_sorted.
Qed.

(** X15.  Graph enrichment never touches the retrieved documents: when no
    stored node's label contains the question (or no graph is stored) the
    context is the retrieved documents unchanged, and otherwise it is one
    summary item, marked as coming from the knowledge graph and scored 0.9,
    followed by the retrieved documents in their order. *)
Theorem enhance_context_keeps_documents (query : string)
    (retrieved_docs : list Rag.ContextDoc) :
  let enhanced := enhance_context_with_kg load_knowledge_graph query retrieved_docs in
  (~ graph_mentions load_knowledge_graph query -> enhanced = retrieved_docs)
  /\ (graph_mentions load_knowledge_graph query ->
      exists summary,
        enhanced = summary :: retrieved_docs
        /\ Rag.source summary = Some "knowledge_graph"
        /\ Rag.similarity_score summary = 0.9%Q
        /\ from_documents summary = false).
Proof.
  intros enhanced.
  destruct (enhance_cases load_knowledge_graph query retrieved_docs)
    as [[Hno Heq]|[Hm Hsummary]]; fold enhanced in Heq || fold enhanced in Hsummary.
  - split; [done|]. intros Hm. by destruct Hno.
  - split; [intros Hno; by destruct Hno|]. by intros _.
Qed.

(** X16.  When every segment among the first [2 * top_k] of the ranking
    scores below the default threshold, the binary64 number 0.3 (in
    particular when nothing is indexed), the answer is the fixed apology
    with confidence 0 and no sources, whatever the generation client would
    say and whether or not the graph is used. *)
Theorem ask_question_nothing_found (question : string) (top_k : nat) (use_kg : bool) :
  Forall (fun s => (Vector.similarity_score s < default_similarity_threshold)%Q)
    (take (top_k * 2)
       (Vector.ranked get_embedding cosine_similarity vectors_data question)) ->
  ask_question get_embedding cosine_similarity vectors_data load_knowledge_graph
    generate_text weighted_confidence question top_k use_kg
  = {| answer := "Sorry, no relevant regulatory documents found to answer your question.";
       confidence := 0; sources := []; context_used := 0;
       query := None; retrieval_count := None |}.
Proof.
  intros Hlow. unfold ask_question, retrieve_relevant_documents. cbv zeta.
  rewrite Vector.find_similar_segments_ranked.
  rewrite Query.list_filter_nil; [by rewrite take_nil|].
  intros s Hs. rewrite Forall_forall in Hlow. specialize (Hlow s Hs).
  destruct (Qle_bool _ _) eqn:Hle; [|done].
  apply Qle_bool_iff in Hle. exfalso. by apply (Qlt_not_le _ _ Hlow).
Qed.

(** X17.  When something is retrieved (it scores at least the default
    threshold, the binary64 number 0.3) and generation succeeds, the answer
    reports how many segments were retrieved (at most [top_k]) and cites
    only retrieved segments, by their first 200 characters: the first three
    of them, or only the first two when the graph summary leads the context,
    in which case the context holds one item more than was retrieved. *)
Theorem ask_question_cites_retrieved (question : string) (top_k : nat) (use_kg : bool) :
  let retrieved :=
    retrieve_relevant_documents get_embedding cosine_similarity vectors_data
      question top_k default_similarity_threshold in
  let result :=
    ask_question get_embedding cosine_similarity vectors_data load_knowledge_graph
      generate_text weighted_confidence question top_k use_kg in
  retrieved <> [] ->
  (forall prompt, exists text, generate_text prompt = inl text) ->
  query result = Some question
  /\ retrieval_count result = Some (length retrieved)
  /\ length retrieved <= top_k
  /\ (use_kg = true /\ graph_mentions load_knowledge_graph question ->
      context_used result = S (length retrieved)
      /\ sources result = map source_of (map context_of (take 2 retrieved)))
  /\ (use_kg = false \/ ~ graph_mentions load_knowledge_graph question ->
      context_used result = length retrieved
      /\ sources result = map source_of (map context_of (take 3 retrieved))).
Proof.
  intros retrieved result Hsome Hgen.
  assert (Hall : forall n, List.filter from_documents (take n (map context_of retrieved))
                           = map context_of (take n retrieved)).
  { intros n. rewrite <- fmap_take. apply KG.filter_all.
    intros d (s & -> & _)%list_elem_of_fmap. apply from_documents_context_of. }
  assert (Hlen : length retrieved <= top_k).
  { unfold retrieved, retrieve_relevant_documents. rewrite length_take. lia. }
  unfold result, ask_question. fold retrieved.
  destruct retrieved as [|s retrieved'] eqn:Hret; [done|]. rewrite <- Hret in *.
  cbv zeta. unfold generate_answer. cbv zeta.
  match goal with
  | |- context [generate_text ?p] => destruct (Hgen p) as [text ->]
  end.
  cbn [query retrieval_count context_used sources].
  split; [done|]. split; [done|]. split; [exact Hlen|].
  destruct (enhance_cases load_knowledge_graph question (map context_of retrieved))
    as [[Hno Hplain]|[Hm (summary & Hsummary & _ & _ & Hfrom)]]; cbv zeta in *.
  - split; [intros [_ Hm]; by destruct Hno|]. intros _.
    assert (Heq : (if use_kg
                   then enhance_context_with_kg load_knowledge_graph question
                          (map context_of retrieved)
                   else map context_of retrieved) = map context_of retrieved)
      by (by destruct use_kg).
    by rewrite Heq, Hall, length_map.
  - split.
    + intros [-> _]. rewrite Hsummary.
      cbn [length take List.filter]. by rewrite Hfrom, Hall, length_map.
    + intros [->|Hno]; [|by destruct Hno]. by rewrite Hall, length_map.
Qed.

End Facts.

Lemma length_rendered (i : nat) (docs : list Rag.ContextDoc) :
  length (Rag.rendered i docs) = length docs.
Proof. revert i. induction docs as [|d docs IH]; intros i; cbn; [done|by rewrite IH]. Qed.

(** X14.  The context built for the prompt is bounded, but not by
    [max_length] alone: the budget counts neither the blank lines between
    documents nor the three characters of the ellipsis, so the text has at
    most [max_length + 3] characters plus two for every document after the
    first. *)
Theorem build_context_bounded (context_docs : list Rag.ContextDoc) (max_length : Z) :
  (Rag.len (Rag._build_context_text max_length context_docs)
   <= Z.max 0 max_length + 3 + 2 * Z.of_nat (pred (length context_docs)))%Z.
Proof.
  unfold Rag._build_context_text.
  rewrite Rag.build_parts_spec, length_join. cbn [app].
  destruct (parts_within_length Rag.more_than_100 (Rag.rendered 1 context_docs)
              (max_length - 0)) as [Htotal Hcount].
  rewrite length_rendered in Hcount.
  replace (max_length - 0)%Z with max_length in * by lia.
  change (Rag.len Rag.newline2) with 2%Z. lia.
Qed.

Lemma ask_question_nothing_found_witness :
  ask_question demo_far Vector.demo_dot Vector.demo_index None
    demo_generate demo_confidence "What is price fixing?" 5 true
  = {| answer := "Sorry, no relevant regulatory documents found to answer your question.";
       confidence := 0; sources := []; context_used := 0;
       query := None; retrieval_count := None |}.
Proof.
  apply ask_question_nothing_found.
  vm_compute. repeat constructor.
Defined.

(** Three segments are retrieved; with the graph summary in front only two
    of them are cited. *)
Lemma ask_question_cites_retrieved_witness :
  let result :=
    ask_question demo_near Vector.demo_dot Vector.demo_index (Some KG.demo_graph)
      demo_generate demo_confidence "price" 5 true in
  retrieval_count result = Some 3
  /\ context_used result = 4
  /\ map src_content (sources result) = ["d2-1..."; "d1-1..."].
Proof.
  pose proof (ask_question_cites_retrieved demo_near Vector.demo_dot Vector.demo_index
                (Some KG.demo_graph) demo_generate demo_confidence "price" 5 true)
    as Hcites.
  cbv zeta in Hcites.
  destruct Hcites as (_ & Hcount & _ & Hsummary & _).
  - vm_compute. discriminate.
  - intros prompt. by exists "Yes.".
  - destruct Hsummary as [Hused Hsources].
    { split; [reflexivity|].
      exists KG.demo_graph, (KG.demo_node "a" "Price Fixing").
      split; [reflexivity|]. split; [apply list_elem_of_here|reflexivity]. }
    split; [exact Hcount|]. split; [exact Hused|].
    rewrite Hsources. reflexivity.
Defined.

End Retrieval.

(** * compliance_analyzer.py: the analysis around the scorer *)

Module Analyzer.

Definition nl : string := String "010" "".
(** The double quote. *)
Definition dq : string := String "034" "".

(** A value of the business dictionary: whether it is a [str], and the text
    an f-string gives for it. *)
Record Value := {
  is_str : bool;
  text : string
}.

(** [business_data], in the order of its keys. *)
Definition BusinessData : Type := list (string * Value).

(** [d[k]] for a key that is present (the first entry under [k]). *)
Definition item (business_data : BusinessData) (k : string) : option Value :=
  snd <$> List.find (fun kv => bool_decide (fst kv = k)) business_data.

(** What [', '.join(warning.get('risk_points', []))] meets: no such key,
    something that yields strings, or something that cannot be joined. *)
Inductive Points := NoPoints | Strings (l : list string) | Unjoinable.

(** The dictionary [_check_specific_violation] returns: the object parsed
    from the client's answer, in which any key may be missing, with the two
    keys the function sets.  A flag holds the truth value of what is stored
    under its key. *)
Record Finding := {
  is_violation : option bool;
  has_risk : option bool;
  violation_reason : option string;
  risk_points : Points;
  severity : option string;
  regulation_content : string;
  similarity_score : Q
}.

Inductive Exception := KeyError (key : string) | TypeError.

(** The dictionary [_perform_detailed_analysis] returns. *)
Record DetailedAnalysis := {
  violations : list Finding;
  warnings : list Finding
}.

Record Details := {
  regulations_checked : nat;
  violations_found : nat;
  warnings_issued : nat;
  analysis_scope : string
}.

(** The two dictionaries [analyze_compliance] returns. *)
Record Report := {
  analysis_id : string;
  timestamp : string;
  business_data : BusinessData;
  compliance_status : string;
  overall_risk_level : string;
  risk_score : float;
  violated_regulations : list Finding;
  warning_items : list Finding;
  recommendations : list string;
  relevant_regulations : list string;
  analysis_details : Details
}.

Record Failure := {
  failed_analysis_id : string;
  cause : Exception;
  failed_compliance_status : string;
  failed_risk_level : string
}.

(** [s.find(c)] and [s.rfind(c)] for one character. *)
Fixpoint find (s : string) (c : ascii) : Z :=
  match s with
  | EmptyString => -1
  | String a s' =>
      if decide (a = c) then 0
      else let i := find s' c in if (i =? -1)%Z then -1 else (i + 1)%Z
  end.

Fixpoint rfind (s : string) (c : ascii) : Z :=
  match s with
  | EmptyString => -1
  | String a s' =>
      let i := rfind s' c in
      if (i =? -1)%Z then (if decide (a = c) then 0 else -1)%Z else (i + 1)%Z
  end.

(** [s[a:b]] for [0 <= a] and [0 <= b]. *)
Definition slice (s : string) (a b : Z) : string :=
  String.substring (Z.to_nat a) (Z.to_nat (b - a)) s.

Definition known_keys : list string :=
  ["business_type"; "price_strategy"; "market_behavior"; "description"].

(** A regulation as the scorer reads it. *)
Definition as_regulation (s : Vector.ScoredSegment) : Scorer.Regulation :=
  {| Scorer.reg_content := Vector.seg_content (Vector.segment s);
     Scorer.reg_similarity_score := Vector.similarity_score s |}.

Definition violation_prompt (reg_content business_desc : string) : string :=
  Py.join nl
    [ "Please analyze whether the following business behavior violates specific legal regulations:";
      "";
      "Legal Regulation:";
      reg_content;
      "";
      "Business Behavior:";
      business_desc;
      "";
      "Please determine:";
      "1. Does it constitute a clear violation?";
      "2. Are there compliance risks?";
      "3. What are the specific violation points or risk points?";
      "";
      "Please respond in JSON format:";
      "{";
      "    " +:+ dq +:+ "is_violation" +:+ dq +:+ ": true/false,";
      "    " +:+ dq +:+ "has_risk" +:+ dq +:+ ": true/false,";
      "    " +:+ dq +:+ "violation_reason" +:+ dq +:+ ": " +:+ dq
        +:+ "reason for violation" +:+ dq +:+ ",";
      "    " +:+ dq +:+ "risk_points" +:+ dq +:+ ": [" +:+ dq +:+ "risk point 1" +:+ dq
        +:+ ", " +:+ dq +:+ "risk point 2" +:+ dq +:+ "],";
      "    " +:+ dq +:+ "severity" +:+ dq +:+ ": " +:+ dq +:+ "minor/moderate/severe" +:+ dq;
      "}" ].

(** The answer of [_check_specific_violation] when the client's is of no use. *)
Definition manual_review (regulation : Vector.ScoredSegment) : Finding :=
  {| is_violation := Some false;
     has_risk := Some true;
     violation_reason := Some "Requires manual review";
     risk_points := Strings ["Automated analysis has uncertainties"];
     severity := Some "moderate";
     regulation_content :=
       Py.slice_to 200 (Vector.seg_content (Vector.segment regulation)) +:+ "...";
     similarity_score := Vector.similarity_score regulation |}.

Definition general_recommendations : list string :=
  [ "Establish comprehensive compliance management system";
    "Regularly update regulations and conduct training";
    "Set up compliance inspection and reporting mechanisms";
    "Establish communication channels with regulatory authorities" ].

(** The recommendation chosen by the risk level. *)
Definition level_recommendation (risk_level : string) : string :=
  if bool_decide (risk_level = "High")
  then "Recommend consulting professional legal advisors to develop detailed compliance remediation plans"
  else if bool_decide (risk_level = "Medium")
  then "Recommend strengthening internal compliance training and establishing regular self-inspection mechanisms"
  else "Continue maintaining good compliance practices and regularly update related knowledge".

Definition _generate_recommendations
    (risk_assessment : Scorer.RiskAssessment) (detailed_analysis : DetailedAnalysis)
    : list string + Exception :=
  let recommendations : list string := [] in
  let compliance_status := Scorer.compliance_status risk_assessment in
  let risk_level := Scorer.risk_level risk_assessment in
  let violations := violations detailed_analysis in
  let warnings := warnings detailed_analysis in
  let recommendations : list string + Exception :=
    if bool_decide (compliance_status = "Violation") then
      let recommendations :=
        recommendations
        ++ ["Immediately stop related business activities and conduct comprehensive compliance remediation"] in
      inl (foldl (fun recommendations violation =>
                    if bool_decide (severity violation = Some "severe")
                    then recommendations
                         ++ ["Serious violation: "
                             +:+ default "Not specified" (violation_reason violation)]
                    else recommendations)
                 recommendations violations)
    else if bool_decide (compliance_status = "Risk") then
      let recommendations :=
        recommendations
        ++ ["Recommend conducting compliance review and improving related systems and processes"] in
      foldl (fun recommendations warning =>
               match recommendations with
               | inr e => inr e
               | inl recommendations =>
                   match risk_points warning with
                   | NoPoints => inl (recommendations ++ ["Risk alert: " +:+ Py.join ", " []])
                   | Strings l => inl (recommendations ++ ["Risk alert: " +:+ Py.join ", " l])
                   | Unjoinable => inr TypeError
                   end
               end)
            (inl recommendations) warnings
    else inl recommendations in
  match recommendations with
  | inr e => inr e
  | inl recommendations =>
      let recommendations := recommendations ++ [level_recommendation risk_level] in
      let recommendations := recommendations ++ take 2 general_recommendations in
      inl (take 8 recommendations)
  end.

Section Analysis.

Variable get_embedding : string -> list Q.
Variable cosine_similarity : list Q -> list Q -> Q.
Variable vectors_data : list (string * Vector.DocVectors).
(** [ai_client.analyze_compliance(business_data, regulations)]. *)
Variable ai_analyze_compliance : string -> string -> Scorer.AnalysisResult.
(** [ai_client.generate_text(prompt, max_tokens=800)]: the text, or the
    message of the exception it raises. *)
Variable generate_text : string -> string + string.
(** [json.loads] on a text: the object read as a finding, or nothing when
    it raises. *)
Variable json_loads : string -> option Finding.
(** [str(business_data)]. *)
Variable dict_repr : BusinessData -> string.
(** [str(uuid.uuid4())] and [datetime.now().isoformat()] of the call. *)
Variable new_id : string.
Variable now : string.

Definition _extract_business_description (business_data : BusinessData) : string :=
  let description_parts : list string := [] in
  let description_parts :=
    match item business_data "business_type" with
    | Some v => description_parts ++ ["Business Type: " +:+ text v]
    | None => description_parts
    end in
  let description_parts :=
    match item business_data "price_strategy" with
    | Some v => description_parts ++ ["Price Strategy: " +:+ text v]
    | None => description_parts
    end in
  let description_parts :=
    match item business_data "market_behavior" with
    | Some v => description_parts ++ ["Market Behavior: " +:+ text v]
    | None => description_parts
    end in
  let description_parts :=
    match item business_data "description" with
    | Some v => description_parts ++ ["Detailed Description: " +:+ text v]
    | None => description_parts
    end in
  let description_parts :=
    foldl (fun description_parts '(key, value) =>
             if negb (bool_decide (key ∈ known_keys)) && is_str value
             then description_parts ++ [key +:+ ": " +:+ text value]
             else description_parts)
          description_parts business_data in
  match description_parts with
  | [] => dict_repr business_data
  | _ => Py.join nl description_parts
  end.

Definition _find_relevant_regulations (business_description : string) (top_k : nat)
    : list Vector.ScoredSegment :=
  Vector.find_similar_segments get_embedding cosine_similarity vectors_data
    business_description top_k.

Definition _check_specific_violation (business_data : BusinessData)
    (regulation : Vector.ScoredSegment) : Finding :=
  let reg_content := Vector.seg_content (Vector.segment regulation) in
  let business_desc := _extract_business_description business_data in
  let prompt := violation_prompt reg_content business_desc in
  let parsed :=
    match generate_text prompt with
    | inl response =>
        let start_idx := find response "{" in
        let end_idx := (rfind response "}" + 1)%Z in
        if negb (start_idx =? -1)%Z && negb (end_idx =? 0)%Z
        then json_loads (slice response start_idx end_idx)
        else None
    | inr _ => None
    end in
  match parsed with
  | Some result =>
      {| is_violation := is_violation result;
         has_risk := has_risk result;
         violation_reason := violation_reason result;
         risk_points := risk_points result;
         severity := severity result;
         regulation_content := Py.slice_to 200 reg_content +:+ "...";
         similarity_score := Vector.similarity_score regulation |}
  | None => manual_review regulation
  end.

Definition _perform_detailed_analysis (business_data : BusinessData)
    (regulations : list Vector.ScoredSegment) : DetailedAnalysis + Exception :=
  match
    foldl (fun acc regulation =>
           match acc with
           | inr e => inr e
           | inl (violations, warnings) =>
               let similarity_score := Vector.similarity_score regulation in
               if negb (Qle_bool similarity_score 0.7) then
                 let violation_check := _check_specific_violation business_data regulation in
                 match is_violation violation_check with
                 | None => inr (KeyError "is_violation")
                 | Some true => inl (violations ++ [violation_check], warnings)
                 | Some false =>
                     match has_risk violation_check with
                     | None => inr (KeyError "has_risk")
                     | Some true => inl (violations, warnings ++ [violation_check])
                     | Some false => inl (violations, warnings)
                     end
                 end
               else inl (violations, warnings)
           end)
        (inl ([], [])) (take 5 regulations)
  with
  | inl (violations, warnings) =>
      inl {| violations := violations; warnings := warnings |}
  | inr e => inr e
  end.

(** The result is also written to a file named after the identifier; a
    failure to write is reported on the console and changes nothing. *)
Definition analyze_compliance (business_data : BusinessData) (analysis_scope : string)
    : Report + Failure :=
  let analysis_id := new_id in
  let failed (e : Exception) : Report + Failure :=
    inr {| failed_analysis_id := analysis_id;
           cause := e;
           failed_compliance_status := "Analysis Failed";
           failed_risk_level := "Unknown" |} in
  let business_description := _extract_business_description business_data in
  let relevant_regulations := _find_relevant_regulations business_description 10 in
  let risk_assessment :=
    Scorer._assess_compliance_risk ai_analyze_compliance business_description
      (map as_regulation relevant_regulations) in
  match _perform_detailed_analysis business_data relevant_regulations with
  | inr e => failed e
  | inl detailed_analysis =>
      match _generate_recommendations risk_assessment detailed_analysis with
      | inr e => failed e
      | inl recommendations =>
          inl {| analysis_id := analysis_id;
                 timestamp := now;
                 business_data := business_data;
                 compliance_status := Scorer.compliance_status risk_assessment;
                 overall_risk_level := Scorer.risk_level risk_assessment;
                 risk_score := Scorer.risk_score risk_assessment;
                 violated_regulations := violations detailed_analysis;
                 warning_items := warnings detailed_analysis;
                 recommendations := recommendations;
                 relevant_regulations :=
                   map (fun reg =>
                          Py.slice_to 200 (Vector.seg_content (Vector.segment reg))
                          +:+ "...")
                       (take 3 relevant_regulations);
                 analysis_details :=
                   {| regulations_checked := length relevant_regulations;
                      violations_found := length (violations detailed_analysis);
                      warnings_issued := length (warnings detailed_analysis);
                      analysis_scope := analysis_scope |} |}
      end
  end.

End Analysis.

(** *** Vocabulary and sample data *)

(** A regulation is looked at in detail when it scores above 0.7. *)
Definition close (regulation : Vector.ScoredSegment) : bool :=
  negb (Qle_bool (Vector.similarity_score regulation) 0.7).

Definition says_violation (f : Finding) : bool :=
  bool_decide (is_violation f = Some true).

Definition says_risk_only (f : Finding) : bool :=
  bool_decide (is_violation f = Some false) && bool_decide (has_risk f = Some true).

(** What the severe violations and the warnings add to the recommendations:
    one line for each violation whose severity is "severe", one line for
    each warning, in the order of the lists. *)
Definition serious_violations (violations : list Finding) : list string :=
  map (fun violation =>
         "Serious violation: " +:+ default "Not specified" (violation_reason violation))
      (List.filter (fun violation => bool_decide (severity violation = Some "severe"))
                   violations).

Definition points_of (warning : Finding) : list string :=
  match risk_points warning with
  | Strings l => l
  | _ => []
  end.

Definition risk_alerts (warnings : list Finding) : list string :=
  map (fun warning => "Risk alert: " +:+ Py.join ", " (points_of warning)) warnings.

Definition unjoinable (warning : Finding) : bool :=
  match risk_points warning with
  | Unjoinable => true
  | _ => false
  end.

(** The recommendations the status calls for. *)
Definition status_recommendations (compliance_status : string)
    (violations warnings : list Finding) : list string :=
  if bool_decide (compliance_status = "Violation") then
    "Immediately stop related business activities and conduct comprehensive compliance remediation"
    :: serious_violations violations
  else if bool_decide (compliance_status = "Risk") then
    "Recommend conducting compliance review and improving related systems and processes"
    :: risk_alerts warnings
  else [].

Definition demo_business : BusinessData :=
  [ ("business_type", {| is_str := true; text := "retailer" |});
    ("discount", {| is_str := false; text := "0.4" |}) ].

Definition demo_repr (business_data : BusinessData) : string := "{}".

Definition demo_judgment (business regulations : string) : Scorer.AnalysisResult :=
  {| Scorer.ar_compliance_status := Some "Risk";
     Scorer.ar_risk_level := Some "High";
     Scorer.ar_confidence := Some 0.9%float |}.

(** A client that answers with an object, and two readings of it: one with
    every key, one without "is_violation". *)
Definition demo_generate (prompt : string) : string + string := inl "{ }".

Definition demo_loads (s : string) : option Finding :=
  Some {| is_violation := Some true; has_risk := Some true;
          violation_reason := Some "fixed prices"; risk_points := NoPoints;
          severity := Some "severe"; regulation_content := ""; similarity_score := 0 |}.

Definition demo_loads_partial (s : string) : option Finding :=
  Some {| is_violation := None; has_risk := Some true;
          violation_reason := None; risk_points := NoPoints;
          severity := None; regulation_content := ""; similarity_score := 0 |}.

Definition demo_near (text : string) : list Q := [1; 0]%Q.


(** *** The recommendations *)

Lemma severe_loop_extends (violations : list Finding) (recommendations : list string) :
  exists more,
    foldl (fun recommendations violation =>
             if bool_decide (severity violation = Some "severe")
             then recommendations
                  ++ ["Serious violation: "
                      +:+ default "Not specified" (violation_reason violation)]
             else recommendations)
          recommendations violations
    = recommendations ++ more.
Proof.
  revert recommendations. induction violations as [|v l IH]; intros recommendations; cbn.
  { exists []. by rewrite app_nil_r. }
  destruct (bool_decide _); [|apply IH].
  destruct (IH (recommendations ++ ["Serious violation: "
                  +:+ default "Not specified" (violation_reason v)])) as [more ->].
  eexists. by rewrite <- app_assoc.
Qed.

Lemma alert_loop_cases (warnings : list Finding) :
  forall acc : list string + Exception,
    let result :=
      foldl (fun recommendations warning =>
               match recommendations with
               | inr e => inr e
               | inl recommendations =>
                   match risk_points warning with
                   | NoPoints => inl (recommendations ++ ["Risk alert: " +:+ Py.join ", " []])
                   | Strings l => inl (recommendations ++ ["Risk alert: " +:+ Py.join ", " l])
                   | Unjoinable => inr TypeError
                   end
               end)
            acc warnings in
    match acc with
    | inr e => result = inr e
    | inl recommendations =>
        (exists more, result = inl (recommendations ++ more))
        \/ (result = inr TypeError
            /\ Exists (fun w => risk_points w = Unjoinable) warnings)
    end.
Proof.
  induction warnings as [|w l IH]; intros acc; cbn [foldl].
  { destruct acc as [recommendations|e]; [|done].
    left. exists []. by rewrite app_nil_r. }
  destruct acc as [recommendations|e]; [|apply (IH (inr e))].
  destruct (risk_points w) eqn:Hw.
  - destruct (IH (inl (recommendations ++ ["Risk alert: " +:+ Py.join ", " []])))
      as [[more ->]|[-> Hex]].
    + left. eexists. by rewrite <- app_assoc.
    + right. split; [done|by right].
  - destruct (IH (inl (recommendations ++ ["Risk alert: " +:+ Py.join ", " l0])))
      as [[more ->]|[-> Hex]].
    + left. eexists. by rewrite <- app_assoc.
    + right. split; [done|by right].
  - right. split; [apply (IH (inr TypeError))|by left].
Qed.

(** The list before the cut: what the status adds, the recommendation for
    the risk level and two general recommendations. *)
Lemma recommendations_shape (risk_assessment : Scorer.RiskAssessment)
    (detailed_analysis : DetailedAnalysis) :
  match _generate_recommendations risk_assessment detailed_analysis with
  | inl recommendations =>
      exists first,
        recommendations
        = take 8 (first
                  ++ [level_recommendation (Scorer.risk_level risk_assessment)]
                  ++ take 2 general_recommendations)
        /\ (Scorer.compliance_status risk_assessment = "Violation" ->
            head first = Some "Immediately stop related business activities and conduct comprehensive compliance remediation")
        /\ (Scorer.compliance_status risk_assessment = "Risk" ->
            head first = Some "Recommend conducting compliance review and improving related systems and processes")
        /\ (Scorer.compliance_status risk_assessment <> "Violation" ->
            Scorer.compliance_status risk_assessment <> "Risk" -> first = [])
  | inr e =>
      e = TypeError
      /\ Scorer.compliance_status risk_assessment = "Risk"
      /\ Exists (fun w => risk_points w = Unjoinable) (warnings detailed_analysis)
  end.
Proof.
  unfold _generate_recommendations. cbv zeta.
  case_bool_decide as Hv.
  { destruct (severe_loop_extends (violations detailed_analysis)
                ([] ++ ["Immediately stop related business activities and conduct comprehensive compliance remediation"]))
      as [more ->].
    exists (["Immediately stop related business activities and conduct comprehensive compliance remediation"]
            ++ more).
    split; [by rewrite <- !app_assoc|].
    split; [done|]. split; [by rewrite Hv|done]. }
  case_bool_decide as Hr.
  { pose proof (alert_loop_cases (warnings detailed_analysis)
                  (inl ([] ++ ["Recommend conducting compliance review and improving related systems and processes"])))
      as Hcases.
    cbv zeta in Hcases. destruct Hcases as [[more ->]|[-> Hex]]; [|done].
    exists (["Recommend conducting compliance review and improving related systems and processes"]
            ++ more).
    split; [by rewrite <- !app_assoc|].
    split; [done|]. split; [done|done]. }
  exists []. by repeat split.
Qed.

Lemma recommendations_length (risk_assessment : Scorer.RiskAssessment)
    (detailed_analysis : DetailedAnalysis) (recommendations : list string) :
  _generate_recommendations risk_assessment detailed_analysis = inl recommendations ->
  3 <= length recommendations <= 8.
Proof.
  intros Hgen. pose proof (recommendations_shape risk_assessment detailed_analysis) as H.
  rewrite Hgen in H. destruct H as (first & -> & _).
  rewrite length_take, !length_app.
  change (length (take 2 general_recommendations)) with 2. cbn [length]. lia.
Qed.

(** The two loops in closed form. *)
Lemma severe_loop_spec (violations : list Finding) (recommendations : list string) :
  foldl (fun recommendations violation =>
           if bool_decide (severity violation = Some "severe")
           then recommendations
                ++ ["Serious violation: "
                    +:+ default "Not specified" (violation_reason violation)]
           else recommendations)
        recommendations violations
  = recommendations ++ serious_violations violations.
Proof.
  unfold serious_violations.
  revert recommendations. induction violations as [|v l IH]; intros recommendations;
    cbn [foldl List.filter map].
  { by rewrite app_nil_r. }
  destruct (bool_decide (severity v = Some "severe")); [|apply IH].
  rewrite IH. cbn [map]. by rewrite <- app_assoc.
Qed.

Lemma alert_loop_spec (warnings : list Finding) :
  forall recommendations : list string,
    foldl (fun recommendations warning =>
             match recommendations with
             | inr e => inr e
             | inl recommendations =>
                 match risk_points warning with
                 | NoPoints => inl (recommendations ++ ["Risk alert: " +:+ Py.join ", " []])
                 | Strings l => inl (recommendations ++ ["Risk alert: " +:+ Py.join ", " l])
                 | Unjoinable => inr TypeError
                 end
             end)
          (inl recommendations) warnings
    = if existsb unjoinable warnings then inr TypeError
      else inl (recommendations ++ risk_alerts warnings).
Proof.
  induction warnings as [|w l IH]; intros recommendations; cbn [foldl existsb].
  { unfold risk_alerts. cbn. by rewrite app_nil_r. }
  change (risk_alerts (w :: l))
    with (("Risk alert: " +:+ Py.join ", " (points_of w)) :: risk_alerts l).
  unfold unjoinable at 1, points_of.
  destruct (risk_points w) eqn:Hw; cbn [orb].
  - rewrite IH. destruct (existsb unjoinable l); [done|]. by rewrite <- app_assoc.
  - rewrite IH. destruct (existsb unjoinable l); [done|]. by rewrite <- app_assoc.
  - clear. induction l as [|w' l IHl]; [done|exact IHl].
Qed.

Lemma existsb_unjoinable (warnings : list Finding) :
  existsb unjoinable warnings = false ->
  Forall (fun w => risk_points w <> Unjoinable) warnings.
Proof.
  induction warnings as [|w l IH]; cbn [existsb]; intros Hnone; [constructor|].
  apply orb_false_iff in Hnone as [Hw Hl].
  constructor; [|by apply IH].
  unfold unjoinable in Hw. by destruct (risk_points w).
Qed.

(** The recommendations in closed form. *)
Lemma recommendations_spec (risk_assessment : Scorer.RiskAssessment)
    (detailed_analysis : DetailedAnalysis) :
  _generate_recommendations risk_assessment detailed_analysis
  = if negb (bool_decide (Scorer.compliance_status risk_assessment = "Violation"))
       && bool_decide (Scorer.compliance_status risk_assessment = "Risk")
       && existsb unjoinable (warnings detailed_analysis)
    then inr TypeError
    else inl (take 8 (status_recommendations
                        (Scorer.compliance_status risk_assessment)
                        (violations detailed_analysis) (warnings detailed_analysis)
                      ++ [level_recommendation (Scorer.risk_level risk_assessment)]
                      ++ take 2 general_recommendations)).
Proof.
  unfold _generate_recommendations, status_recommendations. cbv zeta.
  destruct (bool_decide (Scorer.compliance_status risk_assessment = "Violation"));
    cbn [negb andb].
  { rewrite severe_loop_spec. cbn [app]. by rewrite <- !app_assoc. }
  destruct (bool_decide (Scorer.compliance_status risk_assessment = "Risk"));
    cbn [andb]; [|done].
  rewrite alert_loop_spec.
  destruct (existsb unjoinable (warnings detailed_analysis)); [done|].
  cbn [app]. by rewrite <- !app_assoc.
Qed.

(** X18.  Recommendations come in a fixed order and number: what the status
    calls for (a stop directive and one line for each severe violation, or a
    review directive and one risk alert for each warning, in the order of
    the lists; nothing for any other status), then the recommendation for
    the risk level, then two general recommendations, cut after the eighth;
    so there are between three and eight of them, and exactly three for a
    status other than "Violation" and "Risk".  The only failure is a warning
    whose risk points cannot be joined, under status "Risk", and under that
    status every such warning is a failure. *)
Theorem generate_recommendations_bounded (risk_assessment : Scorer.RiskAssessment)
    (detailed_analysis : DetailedAnalysis) :
  match _generate_recommendations risk_assessment detailed_analysis with
  | inl recommendations =>
      recommendations
      = take 8 (status_recommendations
                  (Scorer.compliance_status risk_assessment)
                  (violations detailed_analysis) (warnings detailed_analysis)
                ++ [level_recommendation (Scorer.risk_level risk_assessment)]
                ++ take 2 general_recommendations)
      /\ (Scorer.compliance_status risk_assessment = "Risk" ->
          Forall (fun w => risk_points w <> Unjoinable) (warnings detailed_analysis))
      /\ 3 <= length recommendations <= 8
      /\ (Scorer.compliance_status risk_assessment = "Violation" ->
          head recommendations = Some "Immediately stop related business activities and conduct comprehensive compliance remediation")
      /\ (Scorer.compliance_status risk_assessment = "Risk" ->
          head recommendations = Some "Recommend conducting compliance review and improving related systems and processes")
      /\ (Scorer.compliance_status risk_assessment <> "Violation" ->
          Scorer.compliance_status risk_assessment <> "Risk" ->
          recommendations
          = [ level_recommendation (Scorer.risk_level risk_assessment);
              "Establish comprehensive compliance management system";
              "Regularly update regulations and conduct training" ])
  | inr e =>
      e = TypeError
      /\ Scorer.compliance_status risk_assessment = "Risk"
      /\ Exists (fun w => risk_points w = Unjoinable) (warnings detailed_analysis)
  end.
Proof.
  pose proof (recommendations_shape risk_assessment detailed_analysis) as Hshape.
  pose proof (recommendations_length risk_assessment detailed_analysis) as Hlen.
  pose proof (recommendations_spec risk_assessment detailed_analysis) as Hspec.
  destruct (_generate_recommendations risk_assessment detailed_analysis)
    as [recommendations|e]; [|exact Hshape].
  split.
  { destruct (_ && _ && _); [discriminate Hspec|]. by injection Hspec. }
  split.
  { intros Hrisk. apply existsb_unjoinable.
    rewrite Hrisk in Hspec. cbn [bool_decide negb andb] in Hspec.
    rewrite bool_decide_eq_false_2, bool_decide_eq_true_2 in Hspec by done.
    cbn [negb andb] in Hspec.
    by destruct (existsb unjoinable (warnings detailed_analysis)). }
  destruct Hshape as (first & -> & Hviolation & Hrisk & Hplain).
  split; [by apply Hlen|].
  assert (Hhead : forall x, head first = Some x ->
            head (take 8 (first
                          ++ [level_recommendation (Scorer.risk_level risk_assessment)]
                          ++ take 2 general_recommendations)) = Some x).
  { intros x Hx. destruct first as [|y first']; [done|]. exact Hx. }
  split; [intros Hs; by apply Hhead, Hviolation|].
  split; [intros Hs; by apply Hhead, Hrisk|].
  intros Hv Hr. by rewrite (Hplain Hv Hr).
Qed.

(** *** The detailed analysis *)

Lemma findings_split (l : list Finding) :
  length (List.filter says_violation l) + length (List.filter says_risk_only l)
  <= length l.
Proof.
  induction l as [|f l IH]; cbn [List.filter length]; [lia|].
  assert (Hone : says_violation f && says_risk_only f = false).
  { unfold says_violation, says_risk_only.
    repeat case_bool_decide; try done. congruence. }
  destruct (says_violation f), (says_risk_only f); cbn [length]; try lia; done.
Qed.

Section Facts.

Variable get_embedding : string -> list Q.
Variable cosine_similarity : list Q -> list Q -> Q.
Variable vectors_data : list (string * Vector.DocVectors).
Variable ai_analyze_compliance : string -> string -> Scorer.AnalysisResult.
Variable generate_text : string -> string + string.
Variable json_loads : string -> option Finding.
Variable dict_repr : BusinessData -> string.
Variable new_id : string.
Variable now : string.

(** The findings for the regulations looked at in detail. *)
Definition checked (business_data : BusinessData)
    (regulations : list Vector.ScoredSegment) : list Finding :=
  map (_check_specific_violation generate_text json_loads dict_repr business_data)
      (List.filter close (take 5 regulations)).

(** One iteration of the loop of [_perform_detailed_analysis], and the loop
    from any state. *)
Definition analysis_step (business_data : BusinessData)
    (acc : list Finding * list Finding + Exception)
    (regulation : Vector.ScoredSegment)
    : list Finding * list Finding + Exception :=
  match acc with
  | inr e => inr e
  | inl (violations, warnings) =>
      let similarity_score := Vector.similarity_score regulation in
      if negb (Qle_bool similarity_score 0.7) then
        let violation_check :=
          _check_specific_violation generate_text json_loads dict_repr
            business_data regulation in
        match is_violation violation_check with
        | None => inr (KeyError "is_violation")
        | Some true => inl (violations ++ [violation_check], warnings)
        | Some false =>
            match has_risk violation_check with
            | None => inr (KeyError "has_risk")
            | Some true => inl (violations, warnings ++ [violation_check])
            | Some false => inl (violations, warnings)
            end
        end
      else inl (violations, warnings)
  end.

Definition analysis_loop (business_data : BusinessData)
    (acc : list Finding * list Finding + Exception)
    (regulations : list Vector.ScoredSegment)
    : list Finding * list Finding + Exception :=
  foldl (analysis_step business_data) acc regulations.

Lemma analysis_loop_raised (business_data : BusinessData) (e : Exception)
    (regulations : list Vector.ScoredSegment) :
  analysis_loop business_data (inr e) regulations = inr e.
Proof. induction regulations as [|r l IH]; [done|exact IH]. Qed.

Lemma analysis_loop_cons (business_data : BusinessData)
    (acc : list Finding * list Finding + Exception)
    (r : Vector.ScoredSegment) (l : list Vector.ScoredSegment) :
  analysis_loop business_data acc (r :: l)
  = analysis_loop business_data (analysis_step business_data acc r) l.
Proof. reflexivity. Qed.

(** What one iteration does to the two lists. *)
Lemma analysis_step_inl (business_data : BusinessData) (vs ws : list Finding)
    (r : Vector.ScoredSegment) :
  let f := _check_specific_violation generate_text json_loads dict_repr business_data r in
  analysis_step business_data (inl (vs, ws)) r
  = if close r then
      match is_violation f with
      | None => inr (KeyError "is_violation")
      | Some true => inl (vs ++ [f], ws)
      | Some false =>
          match has_risk f with
          | None => inr (KeyError "has_risk")
          | Some true => inl (vs, ws ++ [f])
          | Some false => inl (vs, ws)
          end
      end
    else inl (vs, ws).
Proof. reflexivity. Qed.

Lemma analysis_loop_inl (business_data : BusinessData)
    (regulations : list Vector.ScoredSegment) :
  forall vs ws vs' ws',
    analysis_loop business_data (inl (vs, ws)) regulations = inl (vs', ws') ->
    let findings :=
      map (_check_specific_violation generate_text json_loads dict_repr business_data)
          (List.filter close regulations) in
    vs' = vs ++ List.filter says_violation findings
    /\ ws' = ws ++ List.filter says_risk_only findings.
Proof.
  induction regulations as [|r l IH]; intros vs ws vs' ws'.
  { intros [= -> ->]. cbn. by rewrite !app_nil_r. }
  rewrite analysis_loop_cons, analysis_step_inl. cbv zeta. cbn [List.filter].
  destruct (close r) eqn:Hclose; [|apply IH].
  cbn [map List.filter].
  set (f := _check_specific_violation generate_text json_loads dict_repr business_data r).
  destruct (is_violation f) as [[|]|] eqn:Hv.
  - assert (says_violation f = true) as -> by (unfold says_violation; by rewrite Hv).
    assert (says_risk_only f = false) as -> by (unfold says_risk_only; by rewrite Hv).
    intros Hloop. apply IH in Hloop as [-> ->]. by rewrite <- app_assoc.
  - assert (says_violation f = false) as -> by (unfold says_violation; by rewrite Hv).
    destruct (has_risk f) as [[|]|] eqn:Hr.
    + assert (says_risk_only f = true) as ->
        by (unfold says_risk_only; by rewrite Hv, Hr).
      intros Hloop. apply IH in Hloop as [-> ->]. by rewrite <- app_assoc.
    + assert (says_risk_only f = false) as ->
        by (unfold says_risk_only; by rewrite Hv, Hr).
      intros Hloop. by apply IH in Hloop as [-> ->].
    + by rewrite analysis_loop_raised.
  - by rewrite analysis_loop_raised.
Qed.

Lemma analysis_loop_missing_key (business_data : BusinessData)
    (regulations : list Vector.ScoredSegment) (regulation : Vector.ScoredSegment) :
  regulation ∈ regulations ->
  close regulation = true ->
  is_violation (_check_specific_violation generate_text json_loads dict_repr
                  business_data regulation) = None ->
  forall vs ws, exists key,
    analysis_loop business_data (inl (vs, ws)) regulations = inr (KeyError key).
Proof.
  intros Hin Hclose Hnone.
  induction regulations as [|r l IH]; intros vs ws; [by apply elem_of_nil in Hin|].
  rewrite analysis_loop_cons, analysis_step_inl. cbv zeta.
  apply elem_of_cons in Hin as [->|Hin].
  - rewrite Hclose, Hnone. exists "is_violation". apply analysis_loop_raised.
  - specialize (IH Hin).
    destruct (close r); [|by apply IH].
    destruct (is_violation
                (_check_specific_violation generate_text json_loads dict_repr
                   business_data r)) as [[|]|].
    + by apply IH.
    + destruct (has_risk
                  (_check_specific_violation generate_text json_loads dict_repr
                     business_data r)) as [[|]|]; [by apply IH..|].
      exists "has_risk". apply analysis_loop_raised.
    + exists "is_violation". apply analysis_loop_raised.
Qed.

(** X19.  When the detailed analysis returns, its two lists are read off
    the findings for the regulations looked at in detail (those scoring
    above 0.7 among the first five), in order: the violations are the
    findings flagged as violations, the warnings those flagged as risks but
    not as violations; so there are at most five findings in all, and no
    finding is in both lists. *)
Theorem detailed_analysis_partition (business_data : BusinessData)
    (regulations : list Vector.ScoredSegment) (detailed_analysis : DetailedAnalysis) :
  _perform_detailed_analysis generate_text json_loads dict_repr
    business_data regulations = inl detailed_analysis ->
  violations detailed_analysis
  = List.filter says_violation (checked business_data regulations)
  /\ warnings detailed_analysis
     = List.filter says_risk_only (checked business_data regulations)
  /\ length (violations detailed_analysis) + length (warnings detailed_analysis) <= 5
  /\ forall f, f ∈ violations detailed_analysis -> f ∉ warnings detailed_analysis.
Proof.
  unfold _perform_detailed_analysis.
  change (foldl _ (inl ([], [])) (take 5 regulations))
    with (analysis_loop business_data (inl ([], [])) (take 5 regulations)).
  destruct (analysis_loop business_data (inl ([], [])) (take 5 regulations))
    as [[vs ws]|e] eqn:Hloop; [|done].
  intros [= <-]. cbn [violations warnings].
  apply analysis_loop_inl in Hloop as [-> ->]. cbn [app].
  fold (checked business_data regulations).
  split; [done|]. split; [done|]. split.
  - assert (Hchecked : length (checked business_data regulations) <= 5).
    { unfold checked. rewrite length_map.
      etrans; [apply filter_length_le|]. rewrite length_take. lia. }
    pose proof (findings_split (checked business_data regulations)). lia.
  - intros f [_ Hv]%list_elem_of_In%filter_In [_ Hw]%list_elem_of_In%filter_In.
    unfold says_violation, says_risk_only in *.
    apply bool_decide_eq_true in Hv. rewrite Hv in Hw. done.
Qed.


(** *** The whole analysis *)

Lemma detailed_analysis_as_loop (business_data : BusinessData)
    (regulations : list Vector.ScoredSegment) :
  _perform_detailed_analysis generate_text json_loads dict_repr business_data regulations
  = match analysis_loop business_data (inl ([], [])) (take 5 regulations) with
    | inl (violations, warnings) =>
        inl {| violations := violations; warnings := warnings |}
    | inr e => inr e
    end.
Proof. reflexivity. Qed.

(** X20.  A finding without the "is_violation" key is not replaced by the
    manual-review finding: when the client's answer for a regulation that is
    looked at in detail parses to an object without that key, the whole
    analysis fails, with status "Analysis Failed", risk level "Unknown" and
    a missing key as the cause. *)
Theorem analysis_fails_on_missing_key (business_data : BusinessData)
    (analysis_scope : string) (regulation : Vector.ScoredSegment) :
  regulation
    ∈ take 5 (_find_relevant_regulations get_embedding cosine_similarity vectors_data
                (_extract_business_description dict_repr business_data) 10) ->
  close regulation = true ->
  is_violation (_check_specific_violation generate_text json_loads dict_repr
                  business_data regulation) = None ->
  exists key,
    analyze_compliance get_embedding cosine_similarity vectors_data
      ai_analyze_compliance generate_text json_loads dict_repr new_id now
      business_data analysis_scope
    = inr {| failed_analysis_id := new_id;
             cause := KeyError key;
             failed_compliance_status := "Analysis Failed";
             failed_risk_level := "Unknown" |}.
Proof.
  intros Hin Hclose Hnone.
  destruct (analysis_loop_missing_key business_data _ regulation Hin Hclose Hnone [] [])
    as [key Hloop].
  exists key. unfold analyze_compliance. cbv zeta.
  by rewrite detailed_analysis_as_loop, Hloop.
Qed.

(** X21.  When no regulation is found (nothing is indexed, say), the
    analysis is the fixed degraded report: status "Unable to Determine",
    risk level "Medium", score 0.5, no violation, no warning, no regulation
    excerpt, all counters zero, and the three recommendations for a medium
    risk; neither client is consulted. *)
Theorem analysis_without_regulations (business_data : BusinessData)
    (analysis_scope : string) :
  _find_relevant_regulations get_embedding cosine_similarity vectors_data
    (_extract_business_description dict_repr business_data) 10 = [] ->
  analyze_compliance get_embedding cosine_similarity vectors_data
    ai_analyze_compliance generate_text json_loads dict_repr new_id now
    business_data analysis_scope
  = inl {| analysis_id := new_id;
           timestamp := now;
           business_data := business_data;
           compliance_status := "Unable to Determine";
           overall_risk_level := "Medium";
           risk_score := 0.5;
           violated_regulations := [];
           warning_items := [];
           recommendations :=
             [ "Recommend strengthening internal compliance training and establishing regular self-inspection mechanisms";
               "Establish comprehensive compliance management system";
               "Regularly update regulations and conduct training" ];
           relevant_regulations := [];
           analysis_details :=
             {| regulations_checked := 0; violations_found := 0;
                warnings_issued := 0; analysis_scope := analysis_scope |} |}.
Proof.
  intros Hnone. unfold analyze_compliance. cbv zeta. by rewrite Hnone.
Qed.

(** X22.  In every report the counters agree with the lists and stay within
    the bounds of the pipeline: at most ten regulations are checked and at
    most three excerpted (each at most 203 characters long), at most five
    findings are reported in all, and between three and eight
    recommendations are given; status, risk level and score are those of
    the risk assessment of the regulations found. *)
Theorem analysis_report_bounded (business_data : BusinessData)
    (analysis_scope : string) (report : Report) :
  analyze_compliance get_embedding cosine_similarity vectors_data
    ai_analyze_compliance generate_text json_loads dict_repr new_id now
    business_data analysis_scope = inl report ->
  let details := analysis_details report in
  let assessment :=
    Scorer._assess_compliance_risk ai_analyze_compliance
      (_extract_business_description dict_repr business_data)
      (map as_regulation
         (_find_relevant_regulations get_embedding cosine_similarity vectors_data
            (_extract_business_description dict_repr business_data) 10)) in
  regulations_checked details <= 10
  /\ length (relevant_regulations report) = Nat.min 3 (regulations_checked details)
  /\ Forall (fun excerpt => String.length excerpt <= 203) (relevant_regulations report)
  /\ violations_found details = length (violated_regulations report)
  /\ warnings_issued details = length (warning_items report)
  /\ violations_found details + warnings_issued details
     <= Nat.min 5 (regulations_checked details)
  /\ 3 <= length (recommendations report) <= 8
  /\ compliance_status report = Scorer.compliance_status assessment
  /\ overall_risk_level report = Scorer.risk_level assessment
  /\ risk_score report = Scorer.risk_score assessment.
Proof.
  unfold analyze_compliance. cbv zeta.
  set (desc := _extract_business_description dict_repr business_data).
  set (regs := _find_relevant_regulations get_embedding cosine_similarity
                 vectors_data desc 10).
  rewrite detailed_analysis_as_loop.
  destruct (analysis_loop business_data (inl ([], [])) (take 5 regs))
    as [[vs ws]|e] eqn:Hloop; [|done].
  destruct (_generate_recommendations _ _) as [recs|e] eqn:Hrecs; [|done].
  intros [= <-].
  cbn [analysis_details regulations_checked violations_found warnings_issued
       relevant_regulations violated_regulations warning_items recommendations
       compliance_status overall_risk_level risk_score violations warnings].
  apply analysis_loop_inl in Hloop as [-> ->]. cbn [app].
  assert (Hregs : length regs <= 10).
  { unfold regs, _find_relevant_regulations.
    rewrite Vector.find_similar_segments_ranked, length_take. lia. }
  split; [exact Hregs|].
  split; [rewrite length_map, length_take; lia|].
  split.
  { apply Forall_fmap, Forall_true. intros reg. unfold compose.
    rewrite Retrieval.length_app.
    pose proof (Retrieval.length_slice_to 200 (Vector.seg_content (Vector.segment reg))).
    cbn. lia. }
  split; [done|]. split; [done|].
  split.
  { match goal with
    | |- length (List.filter _ ?l) + length (List.filter _ ?l) <= _ =>
        pose proof (findings_split l) as Hsplit;
        assert (Hl : length l <= Nat.min 5 (length regs))
    end.
    { rewrite length_map. etrans; [apply filter_length_le|].
      rewrite length_take. lia. }
    lia. }
  split; [by apply recommendations_length in Hrecs|].
  done.
Qed.

End Facts.

(** *** Running the analysis *)

Lemma detailed_analysis_partition_witness :
  let regulations :=
    Vector.find_similar_segments demo_near Vector.demo_dot Vector.demo_index "q" 10 in
  exists detailed_analysis,
    _perform_detailed_analysis demo_generate demo_loads demo_repr demo_business regulations
    = inl detailed_analysis
    /\ length (violations detailed_analysis) = 3
    /\ warnings detailed_analysis = [].
Proof.
  cbv zeta.
  destruct (_perform_detailed_analysis demo_generate demo_loads demo_repr demo_business
              (Vector.find_similar_segments demo_near Vector.demo_dot Vector.demo_index
                 "q" 10)) as [detailed_analysis|e] eqn:Hrun; [|by vm_compute in Hrun].
  exists detailed_analysis. split; [reflexivity|].
  destruct (detailed_analysis_partition demo_generate demo_loads demo_repr demo_business
              _ detailed_analysis Hrun) as (-> & -> & _).
  split; reflexivity.
Defined.

Lemma analysis_fails_on_missing_key_witness :
  exists key,
    analyze_compliance demo_near Vector.demo_dot Vector.demo_index demo_judgment
      demo_generate demo_loads_partial demo_repr "id-1" "2024-01-01T00:00:00"
      demo_business "Comprehensive Analysis"
    = inr {| failed_analysis_id := "id-1";
             cause := KeyError key;
             failed_compliance_status := "Analysis Failed";
             failed_risk_level := "Unknown" |}.
Proof.
  apply (analysis_fails_on_missing_key demo_near Vector.demo_dot Vector.demo_index
           demo_judgment demo_generate demo_loads_partial demo_repr
           "id-1" "2024-01-01T00:00:00" demo_business "Comprehensive Analysis"
           {| Vector.segment := Vector.demo_segment "d2-1" [2; 0]%Q;
              Vector.similarity_score := 2 |}).
  - vm_compute. apply list_elem_of_here.
  - reflexivity.
  - reflexivity.
Defined.

Lemma analysis_without_regulations_witness :
  compliance_status
  <$> (match analyze_compliance demo_near Vector.demo_dot [] demo_judgment demo_generate
               demo_loads demo_repr "id-1" "2024-01-01T00:00:00"
               demo_business "Comprehensive Analysis" with
       | inl report => Some report
       | inr _ => None
       end)
  = Some "Unable to Determine".
Proof.
  rewrite (analysis_without_regulations demo_near Vector.demo_dot [] demo_judgment
             demo_generate demo_loads demo_repr "id-1" "2024-01-01T00:00:00"
             demo_business "Comprehensive Analysis"); reflexivity.
Defined.

Lemma analysis_report_bounded_witness :
  exists report,
    analyze_compliance demo_near Vector.demo_dot Vector.demo_index demo_judgment
      demo_generate demo_loads demo_repr "id-1" "2024-01-01T00:00:00"
      demo_business "Comprehensive Analysis" = inl report
    /\ regulations_checked (analysis_details report) = 4
    /\ violations_found (analysis_details report) = 3
    /\ 3 <= length (recommendations report) <= 8.
Proof.
  destruct (analyze_compliance demo_near Vector.demo_dot Vector.demo_index demo_judgment
              demo_generate demo_loads demo_repr "id-1" "2024-01-01T00:00:00"
              demo_business "Comprehensive Analysis") as [report|failure] eqn:Hrun;
    [|by vm_compute in Hrun].
  exists report. split; [reflexivity|].
  pose proof (analysis_report_bounded demo_near Vector.demo_dot Vector.demo_index
                demo_judgment demo_generate demo_loads demo_repr
                "id-1" "2024-01-01T00:00:00" demo_business "Comprehensive Analysis"
                report Hrun) as Hbounds.
  cbv zeta in Hbounds. destruct Hbounds as (_ & _ & _ & _ & _ & _ & Hrecs & _).
  assert (Hreport : inl report
                    = analyze_compliance demo_near Vector.demo_dot Vector.demo_index
                        demo_judgment demo_generate demo_loads demo_repr "id-1"
                        "2024-01-01T00:00:00" demo_business "Comprehensive Analysis")
    by done.
  vm_compute in Hreport. injection Hreport as ->.
  split; [reflexivity|]. split; [reflexivity|]. exact Hrecs.
Defined.

End Analyzer.

(** * compliance_analyzer.py: the risk score stays within [0, 1] *)

Module ScoreBounds.
Import Scorer.

(** A float is a number in [[0, 1]]. *)
Definition in_unit_interval (x : float) : Prop :=
  PrimFloat.leb 0 x = true /\ PrimFloat.leb x 1 = true.

(** The hundredths [0/100, 1/100, ..., 100/100] as [round(x, 2)] returns
    them. *)
Definition hundredth (n : Z) : float :=
  (PrimFloat.of_uint63 (Uint63.of_Z n) / 100)%float.

Definition hundredths_in_unit_interval : bool :=
  forallb (fun k => let r := hundredth (Z.of_nat k) in
                    PrimFloat.leb 0 r && PrimFloat.leb r 1)
          (seq 0 101).

(** *** Binary64 values *)

Lemma is_nan_spec (x : float) :
  PrimFloat.is_nan x = true <-> Prim2SF x = S754_nan.
Proof.
  unfold PrimFloat.is_nan. rewrite FloatAxioms.eqb_spec.
  destruct (Prim2SF x) as [s|s| |s m e]; cbn.
  - split; discriminate.
  - destruct s; cbn; split; discriminate.
  - done.
  - destruct s; rewrite Z.compare_refl, Pos.compare_cont_refl; cbn; split; discriminate.
Qed.

Lemma digits2_pos_bound (m : positive) :
  (Z.pos m < 2 ^ Z.pos (digits2_pos m))%Z.
Proof.
  induction m as [m IH|m IH|]; cbn [digits2_pos].
  - rewrite Pos2Z.inj_succ, Z.pow_succ_r by lia. lia.
  - rewrite Pos2Z.inj_succ, Z.pow_succ_r by lia. lia.
  - reflexivity.
Qed.

(** The mantissa of a valid binary64 value is below 2^53. *)
Lemma valid_mantissa (s : bool) (m : positive) (e : Z) :
  SpecFloat.valid_binary FloatOps.prec FloatOps.emax (S754_finite s m e) = true ->
  (Z.pos m < 2 ^ 53)%Z.
Proof.
  unfold SpecFloat.valid_binary, bounded, canonical_mantissa, fexp, emin.
  intros [Hcanon _]%andb_true_iff. apply Z.eqb_eq in Hcanon.
  pose proof (digits2_pos_bound m) as Hm.
  assert (Hd : (Z.pos (digits2_pos m) <= 53)%Z)
    by (unfold FloatOps.prec, FloatOps.emax in Hcanon; lia).
  eapply Z.lt_le_trans; [exact Hm|]. apply Z.pow_le_mono_r; lia.
Qed.

(** *** Rounding to hundredths *)

Lemma round_half_even_bound (M e : Z) :
  (0 <= M)%Z -> (e < 0)%Z -> (M <= 100 * 2 ^ (- e))%Z ->
  (0 <= Py.round_half_even M e <= 100)%Z.
Proof.
  intros HM He Hle. unfold Py.round_half_even.
  destruct (Z.leb_spec 0 e); [lia|].
  assert (Hd : (0 < 2 ^ (- e))%Z) by (apply Z.pow_pos_nonneg; lia).
  pose proof (Z.div_mod M (2 ^ (- e)) ltac:(lia)) as Hdm.
  pose proof (Z.mod_pos_bound M (2 ^ (- e)) Hd) as Hmod.
  assert (Hq : (0 <= M / 2 ^ (- e))%Z) by (apply Z.div_pos; lia).
  assert (Hq' : (M / 2 ^ (- e) <= 100)%Z).
  { apply Z.div_le_upper_bound; lia. }
  cbv zeta.
  destruct (Z.compare_spec (2 * (M mod 2 ^ (- e))) (2 ^ (- e))) as [Heq|Hlt|Hgt].
  - destruct (Z.even (M / 2 ^ (- e))); nia.
  - lia.
  - nia.
Qed.

Lemma hundredth_in_unit_interval (n : Z) :
  (0 <= n <= 100)%Z -> in_unit_interval (hundredth n).
Proof.
  intros Hn.
  assert (Hall : hundredths_in_unit_interval = true) by (vm_compute; reflexivity).
  unfold hundredths_in_unit_interval in Hall.
  rewrite forallb_forall in Hall.
  specialize (Hall (Z.to_nat n)). cbv zeta in Hall.
  rewrite Z2Nat.id in Hall by lia.
  apply andb_true_iff, Hall, in_seq. lia.
Qed.

(** *** Products that are numbers *)

Lemma shr_1_nonneg (mrs : shr_record) :
  (0 <= shr_m mrs)%Z -> (0 <= shr_m (shr_1 mrs))%Z.
Proof. destruct mrs as [[|[p|p|]|p] r s]; cbn; lia. Qed.

Lemma iter_shr_1_nonneg (p : positive) (mrs : shr_record) :
  (0 <= shr_m mrs)%Z -> (0 <= shr_m (SpecFloat.iter_pos shr_1 p mrs))%Z.
Proof.
  revert mrs. induction p as [p IH|p IH|]; intros mrs Hm; cbn [SpecFloat.iter_pos].
  - by apply IH, IH, shr_1_nonneg.
  - by apply IH, IH.
  - by apply shr_1_nonneg.
Qed.

Lemma shr_fexp_nonneg (m e : Z) (l : location) :
  (0 <= m)%Z -> (0 <= shr_m (shr_fexp FloatOps.prec FloatOps.emax m e l).1)%Z.
Proof.
  intros Hm. unfold shr_fexp, shr.
  assert (H0 : (0 <= shr_m (shr_record_of_loc m l))%Z) by (by destruct l as [|[]]).
  destruct (_ - e)%Z; cbn [fst]; [done| |done].
  by apply iter_shr_1_nonneg.
Qed.

Lemma binary_round_aux_not_nan (sx : bool) (mx ex : Z) (lx : location) :
  (0 <= mx)%Z ->
  binary_round_aux FloatOps.prec FloatOps.emax sx mx ex lx <> S754_nan.
Proof.
  intros Hm. unfold binary_round_aux.
  pose proof (shr_fexp_nonneg mx ex lx Hm) as H1.
  destruct (shr_fexp FloatOps.prec FloatOps.emax mx ex lx) as [mrs' e']. cbn [fst] in H1.
  assert (H2 : (0 <= round_nearest_even (shr_m mrs') (loc_of_shr_record mrs'))%Z).
  { unfold round_nearest_even.
    destruct (loc_of_shr_record mrs') as [|[]]; try lia.
    destruct (Z.even (shr_m mrs')); lia. }
  pose proof (shr_fexp_nonneg _ e' loc_Exact H2) as H3.
  destruct (shr_fexp FloatOps.prec FloatOps.emax
              (round_nearest_even (shr_m mrs') (loc_of_shr_record mrs')) e' loc_Exact)
    as [mrs'' e'']. cbn [fst] in H3.
  destruct (shr_m mrs'') as [|p|p]; [done| |lia].
  by destruct (_ <=? _)%Z.
Qed.

(** A finite non-zero factor times a number is a number. *)
Lemma mul_not_nan (a c : float) :
  (exists s m e, Prim2SF a = S754_finite s m e) ->
  PrimFloat.is_nan c = false ->
  PrimFloat.is_nan (a * c) = false.
Proof.
  intros (s & m & e & Ha) Hc.
  apply not_true_iff_false. rewrite is_nan_spec.
  apply not_true_iff_false in Hc. rewrite is_nan_spec in Hc.
  rewrite FloatAxioms.mul_spec, Ha. unfold SF64mul, SFmul.
  destruct (Prim2SF c) as [sc|sc| |sc mc ec]; [done|done|done|].
  by apply binary_round_aux_not_nan.
Qed.

Lemma mul_nan (a c : float) :
  PrimFloat.is_nan c = true -> PrimFloat.is_nan (a * c) = true.
Proof.
  rewrite !is_nan_spec. intros Hc.
  rewrite FloatAxioms.mul_spec, Hc. unfold SF64mul, SFmul.
  by destruct (Prim2SF a).
Qed.

(** *** The tables *)

Lemma base_values (compliance_status : string) :
  dict_get base_scores compliance_status 0.5%float
  ∈ [0.1%float; 0.9%float; 0.6%float; 0.5%float].
Proof.
  unfold dict_get, base_scores.
  destruct (list_to_map _ !! compliance_status) as [v|] eqn:Hlook; cbn.
  - apply elem_of_list_to_map_2 in Hlook.
    repeat (apply elem_of_cons in Hlook as [[= _ <-]|Hlook]; [repeat constructor|]).
    by apply elem_of_nil in Hlook.
  - repeat constructor.
Qed.

Lemma table_product_finite (compliance_status risk_level : string) :
  exists s m e,
    Prim2SF (dict_get base_scores compliance_status 0.5
             * dict_get risk_multipliers risk_level 0.6)%float
    = S754_finite s m e.
Proof.
  rewrite multiplier_lookup.
  pose proof (base_values compliance_status) as Hbase.
  repeat (apply elem_of_cons in Hbase as [->|Hbase]);
    [..|by apply elem_of_nil in Hbase];
    destruct (parse_level risk_level) as [[]|]; cbn [spec_multiplier];
    eexists _, _, _; vm_compute; reflexivity.
Qed.

(** *** Clamping and rounding *)

(** What clamping leaves: a zero, or a positive value that is at most 1. *)
Definition clamped (y : float) : Prop :=
  match Prim2SF y with
  | S754_zero _ => True
  | S754_finite false m e =>
      (e < -52 \/ (e = -52 /\ Z.pos m <= 2 ^ 52))%Z
  | _ => False
  end.

Lemma clamp_shape (x : float) :
  PrimFloat.is_nan x = false ->
  clamped (Py.min (Py.max x 0.0%float) 1.0%float).
Proof.
  intros Hx. apply not_true_iff_false in Hx. rewrite is_nan_spec in Hx.
  assert (Hzero : clamped 0%float) by (by vm_compute).
  assert (Hone : clamped 1%float).
  { unfold clamped. change (Prim2SF 1) with (S754_finite false 4503599627370496 (-52)).
    right. split; [done|]. by vm_compute. }
  unfold Py.min, Py.max.
  destruct (PrimFloat.ltb x 0) eqn:Hneg; [exact Hzero|].
  destruct (PrimFloat.ltb 1 x) eqn:Hbig; [exact Hone|].
  rewrite FloatAxioms.ltb_spec in Hneg, Hbig.
  change (Prim2SF 0) with (S754_zero false) in Hneg.
  change (Prim2SF 1) with (S754_finite false 4503599627370496 (-52)) in Hbig.
  unfold clamped.
  destruct (Prim2SF x) as [s|s| |s m e]; [done| |done|].
  - by destruct s.
  - destruct s; [done|].
    unfold SFltb, SFcompare in Hbig.
    destruct (Z.compare_spec (-52) e) as [He|He|He]; [|done|left; lia].
    change (Pos.compare_cont Eq 4503599627370496 m)
      with (Pos.compare 4503599627370496 m) in Hbig.
    right. split; [done|].
    change (2 ^ 52)%Z with (Z.pos 4503599627370496).
    destruct (Pos.compare 4503599627370496 m) eqn:Hcmp; [|discriminate Hbig|].
    + apply Pos.compare_eq in Hcmp. rewrite <- Hcmp. apply Z.le_refl.
    + apply Pos.compare_gt_iff in Hcmp. apply Z.lt_le_incl. exact Hcmp.
Qed.

Lemma round2_clamped (y : float) :
  clamped y -> in_unit_interval (Py.round2 y).
Proof.
  unfold clamped, Py.round2.
  pose proof (FloatAxioms.Prim2SF_valid y) as Hvalid.
  destruct (Prim2SF y) as [s|s| |[|] m e] eqn:HY; try done.
  - intros _. unfold in_unit_interval. rewrite !FloatAxioms.leb_spec, HY.
    by destruct s.
  - intros Hbound. cbv zeta.
    apply hundredth_in_unit_interval.
    apply round_half_even_bound; [lia|lia|].
    pose proof (valid_mantissa false m e Hvalid) as Hm.
    destruct Hbound as [He|[-> Hm52]].
    + assert ((2 ^ 53 <= 2 ^ (- e))%Z) by (apply Z.pow_le_mono_r; lia). lia.
    + change (- -52)%Z with 52%Z. lia.
Qed.

(** X23.  The risk score is a number between 0 and 1 whenever the
    confidence is a number (finite or infinite, of either sign), whatever
    the status and risk-level strings; a confidence that is not a number
    gives a score that is not a number. *)
Theorem risk_score_bounded (compliance_status risk_level : string) (confidence : float) :
  (PrimFloat.is_nan confidence = false ->
   in_unit_interval (_calculate_risk_score compliance_status risk_level confidence))
  /\ (PrimFloat.is_nan confidence = true ->
      PrimFloat.is_nan (_calculate_risk_score compliance_status risk_level confidence)
      = true).
Proof.
  unfold _calculate_risk_score. cbv zeta. split.
  - intros Hc. apply round2_clamped, clamp_shape, mul_not_nan; [|exact Hc].
    apply table_product_finite.
  - intros Hc.
    pose proof (mul_nan (dict_get base_scores compliance_status 0.5
                         * dict_get risk_multipliers risk_level 0.6)%float
                  confidence Hc) as Hnan.
    set (x := (_ * _ * confidence)%float) in *. clearbody x.
    assert (HX : Prim2SF x = S754_nan) by (by apply is_nan_spec).
    assert (Hclamp : Py.min (Py.max x 0.0%float) 1.0%float = x).
    { assert (Py.max x 0.0%float = x) as ->
        by (unfold Py.max; by rewrite FloatAxioms.ltb_spec, HX).
      unfold Py.min. rewrite FloatAxioms.ltb_spec, HX.
      by destruct (Prim2SF 1). }
    rewrite Hclamp. unfold Py.round2. by rewrite HX.
Qed.

End ScoreBounds.

(** * compliance_analyzer.py: the risk score is rounded to two decimals *)

Module ScoreRounding.
Import Scorer.

(** The two-decimal numbers 0.00, 0.01, ..., 1.00 as binary64 values. *)
Definition decimals : list float :=
  [
    0.00; 0.01; 0.02; 0.03; 0.04; 0.05; 0.06; 0.07; 0.08; 0.09;
    0.10; 0.11; 0.12; 0.13; 0.14; 0.15; 0.16; 0.17; 0.18; 0.19;
    0.20; 0.21; 0.22; 0.23; 0.24; 0.25; 0.26; 0.27; 0.28; 0.29;
    0.30; 0.31; 0.32; 0.33; 0.34; 0.35; 0.36; 0.37; 0.38; 0.39;
    0.40; 0.41; 0.42; 0.43; 0.44; 0.45; 0.46; 0.47; 0.48; 0.49;
    0.50; 0.51; 0.52; 0.53; 0.54; 0.55; 0.56; 0.57; 0.58; 0.59;
    0.60; 0.61; 0.62; 0.63; 0.64; 0.65; 0.66; 0.67; 0.68; 0.69;
    0.70; 0.71; 0.72; 0.73; 0.74; 0.75; 0.76; 0.77; 0.78; 0.79;
    0.80; 0.81; 0.82; 0.83; 0.84; 0.85; 0.86; 0.87; 0.88; 0.89;
    0.90; 0.91; 0.92; 0.93; 0.94; 0.95; 0.96; 0.97; 0.98; 0.99;
    1.00
  ]%float.

(** The binary64 value of the two-decimal number [k / 100]. *)
Definition two_decimals (k : Z) : float :=
  default PrimFloat.nan (decimals !! Z.to_nat k).

(** [k / 100] is the two-decimal number nearest to [v]; of two that are
    equally near it is the one with [k] even. *)
Definition nearest_hundredth (v : Q) (k : Z) : Prop :=
  (inject_Z k - (1 # 2) <= 100 * v /\ 100 * v <= inject_Z k + (1 # 2))%Q
  /\ ((100 * v == inject_Z k - (1 # 2) \/ 100 * v == inject_Z k + (1 # 2))%Q
      -> Z.even k = true).

Definition decimals_are_quotients : bool :=
  forallb (fun k => PrimFloat.Leibniz.eqb (ScoreBounds.hundredth (Z.of_nat k))
                                          (two_decimals (Z.of_nat k)))
          (seq 0 101).

(** *** Quotients by 100 and decimal literals *)

Lemma hundredth_decimal (n : Z) :
  (0 <= n <= 100)%Z -> ScoreBounds.hundredth n = two_decimals n.
Proof.
  intros Hn.
  assert (Hall : decimals_are_quotients = true) by (vm_compute; reflexivity).
  unfold decimals_are_quotients in Hall.
  rewrite forallb_forall in Hall.
  specialize (Hall (Z.to_nat n)).
  rewrite Z2Nat.id in Hall by lia.
  apply FloatAxioms.Leibniz.eqb_spec, Hall, in_seq. lia.
Qed.

(** *** Rounding to the nearest hundredth *)

Lemma power_of_two (e : Z) :
  (e < 0)%Z -> (2 ^ e * inject_Z (2 ^ (- e)) == 1)%Q.
Proof.
  intros He.
  rewrite Qpower.Zpower_Qpower by lia.
  change (inject_Z 2) with 2%Q.
  rewrite Qpower.Qpower_opp.
  apply Qmult_inv_r.
  apply Qpower.Qpower_not_0. discriminate.
Qed.

Lemma round_half_even_nearest (m : positive) (e : Z) :
  (e < 0)%Z ->
  nearest_hundredth (inject_Z (Z.pos m) * 2 ^ e)%Q
                    (Py.round_half_even (Z.pos m * 100) e).
Proof.
  intros He. unfold Py.round_half_even.
  destruct (Z.leb_spec 0 e); [lia|]. cbv zeta.
  set (M := (Z.pos m * 100)%Z).
  set (d := (2 ^ (- e))%Z).
  assert (Hd : (0 < d)%Z) by (apply Z.pow_pos_nonneg; lia).
  pose proof (Z.div_mod M d ltac:(lia)) as Hdm.
  pose proof (Z.mod_pos_bound M d Hd) as Hmod.
  pose proof (power_of_two e He) as Hpow. fold d in Hpow.
  set (P := (2 ^ e)%Q) in *.
  set (q := (M / d)%Z) in *. set (r := (M mod d)%Z) in *.
  assert (HM : (inject_Z (Z.pos m) * 100 == inject_Z q * inject_Z d + inject_Z r)%Q).
  { change 100%Q with (inject_Z 100).
    rewrite <- !inject_Z_mult, <- inject_Z_plus. fold M.
    rewrite Hdm. by rewrite (Z.mul_comm d q). }
  assert (HD : (0 < inject_Z d)%Q) by (by rewrite <- (Zlt_Qlt 0)).
  assert (Hr0 : (0 <= inject_Z r)%Q) by (rewrite <- (Zle_Qle 0); lia).
  assert (Hr1 : (inject_Z r < inject_Z d)%Q) by (rewrite <- Zlt_Qlt; lia).
  set (x := (100 * (inject_Z (Z.pos m) * P))%Q).
  set (t := (inject_Z r * P)%Q).
  assert (Hx : (x == inject_Z q + t)%Q).
  { unfold x, t.
    transitivity ((inject_Z (Z.pos m) * 100) * P)%Q; [ring|].
    rewrite HM.
    transitivity (inject_Z q * (P * inject_Z d) + inject_Z r * P)%Q; [ring|].
    rewrite Hpow. ring. }
  assert (Ht : (t * inject_Z d == inject_Z r)%Q).
  { unfold t. transitivity (inject_Z r * (P * inject_Z d))%Q; [ring|].
    rewrite Hpow. ring. }
  unfold nearest_hundredth. fold x. clearbody x t.
  destruct (Z.compare_spec (2 * r) d) as [Heq|Hlt|Hgt].
  - assert (H2 : (2 * inject_Z r == inject_Z d)%Q).
    { change 2%Q with (inject_Z 2). rewrite <- inject_Z_mult. by rewrite Heq. }
    assert (Hhalf : (t == 1 # 2)%Q) by Lqa.nra.
    destruct (Z.even q) eqn:Heven.
    + repeat split; [Lqa.lra|Lqa.lra|done].
    + rewrite inject_Z_plus. change (inject_Z 1) with 1%Q.
      repeat split; [Lqa.lra|Lqa.lra|].
      intros _. rewrite Z.add_1_r, Z.even_succ, <- Z.negb_even. by rewrite Heven.
  - assert (H2 : (2 * inject_Z r < inject_Z d)%Q).
    { change 2%Q with (inject_Z 2). rewrite <- inject_Z_mult, <- Zlt_Qlt. lia. }
    assert (Hhalf : (t < 1 # 2)%Q) by Lqa.nra.
    assert (Ht0 : (0 <= t)%Q) by Lqa.nra.
    repeat split; [Lqa.lra|Lqa.lra|].
    intros [Htie|Htie]; exfalso; Lqa.lra.
  - assert (H2 : (inject_Z d < 2 * inject_Z r)%Q).
    { change 2%Q with (inject_Z 2). rewrite <- inject_Z_mult, <- Zlt_Qlt. lia. }
    assert (Hhalf : (1 # 2 < t)%Q) by Lqa.nra.
    assert (Ht1 : (t < 1)%Q) by Lqa.nra.
    rewrite inject_Z_plus. change (inject_Z 1) with 1%Q.
    repeat split; [Lqa.lra|Lqa.lra|].
    intros [Htie|Htie]; exfalso; Lqa.lra.
Qed.

(** The exact value of a clamped float lies in [[0, 1]]. *)
Lemma clamped_exact (y : float) :
  ScoreBounds.clamped y -> exists v, Py.exact y = Some v /\ (0 <= v <= 1)%Q.
Proof.
  unfold ScoreBounds.clamped, Py.exact.
  pose proof (FloatAxioms.Prim2SF_valid y) as Hvalid.
  destruct (Prim2SF y) as [s|s| |[|] m e] eqn:HY; try done.
  - intros _. exists 0%Q. by repeat split.
  - intros Hbound. cbv zeta. eexists. split; [reflexivity|].
    pose proof (ScoreBounds.valid_mantissa false m e Hvalid) as Hm.
    assert (He : (e < 0)%Z) by lia.
    pose proof (power_of_two e He) as Hpow.
    assert (Hle : (Z.pos m <= 2 ^ (- e))%Z).
    { destruct Hbound as [He'|[-> Hm52]]; [|exact Hm52].
      assert ((2 ^ 53 <= 2 ^ (- e))%Z) by (apply Z.pow_le_mono_r; lia). lia. }
    rewrite Zle_Qle in Hle.
    assert (Hm0 : (0 < inject_Z (Z.pos m))%Q) by (by rewrite <- (Zlt_Qlt 0)).
    assert (HP : (0 < 2 ^ e)%Q) by (by apply Qpower.Qpower_0_lt).
    set (P := (2 ^ e)%Q) in *. set (D := inject_Z (2 ^ (- e))) in *.
    set (a := inject_Z (Z.pos m)) in *. clearbody P D a.
    split; Lqa.nra.
Qed.

(** [round(y, 2)] of a clamped value is the nearest two-decimal number. *)
Lemma round2_nearest (y : float) :
  ScoreBounds.clamped y ->
  exists (k : Z) (v : Q),
    (0 <= k <= 100)%Z
    /\ Py.exact y = Some v
    /\ nearest_hundredth v k
    /\ (Py.round2 y = two_decimals k
        \/ (k = 0%Z /\ Py.round2 y = PrimFloat.neg_zero)).
Proof.
  unfold ScoreBounds.clamped, Py.round2, Py.exact.
  pose proof (FloatAxioms.Prim2SF_valid y) as Hvalid.
  pose proof (FloatAxioms.SF2Prim_Prim2SF y) as Hback.
  destruct (Prim2SF y) as [s|s| |[|] m e] eqn:HY; try done.
  - intros _. exists 0%Z, 0%Q. split; [lia|]. split; [done|]. split.
    + unfold nearest_hundredth. split; [split; discriminate|by intros _].
    + rewrite <- Hback. destruct s; [right|left]; by vm_compute.
  - intros Hbound. cbv zeta.
    assert (He : (e < 0)%Z) by lia.
    pose proof (ScoreBounds.valid_mantissa false m e Hvalid) as Hm.
    assert (Hn : (0 <= Py.round_half_even (Z.pos m * 100) e <= 100)%Z).
    { apply ScoreBounds.round_half_even_bound; [lia|lia|].
      destruct Hbound as [He'|[-> Hm52]].
      + assert ((2 ^ 53 <= 2 ^ (- e))%Z) by (apply Z.pow_le_mono_r; lia). lia.
      + change (- -52)%Z with 52%Z. lia. }
    eexists _, _. split; [exact Hn|]. split; [reflexivity|].
    split; [by apply round_half_even_nearest|].
    left. by apply hundredth_decimal.
Qed.

(** A confidence that is not a number gives a score that is not a number. *)
Lemma score_of_nan (compliance_status risk_level : string) (confidence : float) :
  PrimFloat.is_nan confidence = true ->
  PrimFloat.is_nan (_calculate_risk_score compliance_status risk_level confidence) = true.
Proof.
  intros Hc. unfold _calculate_risk_score. cbv zeta.
  pose proof (ScoreBounds.mul_nan
                (dict_get base_scores compliance_status 0.5
                 * dict_get risk_multipliers risk_level 0.6)%float
                confidence Hc) as Hnan.
  set (x := (_ * _ * confidence)%float) in *. clearbody x.
  assert (HX : Prim2SF x = S754_nan) by (by apply ScoreBounds.is_nan_spec).
  assert (Hclamp : Py.min (Py.max x 0.0%float) 1.0%float = x).
  { assert (Py.max x 0.0%float = x) as ->
      by (unfold Py.max; by rewrite FloatAxioms.ltb_spec, HX).
    unfold Py.min. rewrite FloatAxioms.ltb_spec, HX.
    by destruct (Prim2SF 1). }
  rewrite Hclamp. unfold Py.round2. by rewrite HX.
Qed.

(** C1.  For every compliance status, risk-level string and confidence,
    [_calculate_risk_score] is [base(status) * multiplier(level) * confidence]
    clamped to [[0,1]] and rounded to two decimals: with the base table
    Compliant 0.1, Violation 0.9, Risk 0.6, Unknown 0.5, the multiplier table
    Low 0.3, Medium 0.6, High 1.0 and the multiplier 0.6 for any other level
    string, the clamped binary64 product is a number [v] in [[0,1]] and the
    score is the binary64 value of the two-decimal number [k / 100] nearest
    to [v], the even [k] of two equally near (it is the negative zero when
    the product is); a confidence that is not a number gives a score that is
    not a number.  Status Violation, level High, confidence 0.9 gives 0.81;
    the products 0.125 and 0.375 give 0.12 and 0.38, and 1.8 gives 1.0. *)
Theorem risk_score_two_decimals :
  (forall (s : ComplianceStatus) (level : string) (c : float),
      let product := (spec_base s * spec_multiplier (parse_level level) * c)%float in
      let score := _calculate_risk_score (status_name s) level c in
      score = spec_risk_score s (parse_level level) c
      /\ (PrimFloat.is_nan c = false ->
          exists (k : Z) (v : Q),
            (0 <= k <= 100)%Z
            /\ Py.exact (spec_clamp01 product) = Some v
            /\ (0 <= v <= 1)%Q
            /\ nearest_hundredth v k
            /\ (score = two_decimals k
                \/ (k = 0%Z /\ score = PrimFloat.neg_zero)))
      /\ (PrimFloat.is_nan c = true -> PrimFloat.is_nan score = true))
  /\ (forall l : RiskLevel, parse_level (level_name l) = Some l)
  /\ (forall level : string,
        (exists l, level = level_name l /\ parse_level level = Some l)
        \/ parse_level level = None)
  /\ _calculate_risk_score "Violation" "High" 0.9%float = 0.81%float
  /\ _calculate_risk_score "Unknown" "High" 0.25%float = 0.12%float
  /\ _calculate_risk_score "Unknown" "High" 0.75%float = 0.38%float
  /\ _calculate_risk_score "Violation" "High" 2%float = 1%float.
Proof.
  split; [|split; [|split; [|repeat split; vm_compute; reflexivity]]].
  - intros s level c product score.
    assert (Hformula : score = spec_risk_score s (parse_level level) c).
    { unfold score, _calculate_risk_score, spec_risk_score.
      by rewrite base_lookup, multiplier_lookup, clamp_as_min_max. }
    split; [exact Hformula|]. split; [|apply score_of_nan].
    intros Hc. rewrite Hformula. unfold spec_risk_score. fold product.
    assert (Hclamped : ScoreBounds.clamped (spec_clamp01 product)).
    { rewrite <- clamp_as_min_max. apply ScoreBounds.clamp_shape.
      unfold product. rewrite <- base_lookup, <- multiplier_lookup.
      apply ScoreBounds.mul_not_nan; [apply ScoreBounds.table_product_finite|exact Hc]. }
    destruct (round2_nearest _ Hclamped) as (k & v & Hk & Hv & Hnear & Hscore).
    destruct (clamped_exact _ Hclamped) as (v' & Hv' & Hunit).
    assert (v' = v) as -> by congruence.
    by exists k, v.
  - intros []; reflexivity.
  - intros level. unfold parse_level.
    repeat case_decide; subst;
      [left; exists Low|left; exists Medium|left; exists High|right]; auto.
Qed.

End ScoreRounding.

(** * document_processor.py: cutting a text into segments *)

Module Segmenter.

(** A [str] as the list of its code points. *)
Definition Text : Type := list N.

(** The ideographic full stop appended to every sentence. *)
Definition period : N := 12290.

(** The character class of [re.split]: the ASCII and the full-width
    full stop, exclamation mark, question mark and semicolon. *)
Definition is_delimiter (c : N) : bool :=
  bool_decide (c ∈ [46; 12290; 33; 65281; 63; 65311; 65307; 59]%N).

(** [c.isspace()], the characters [str.strip()] removes. *)
Definition is_space (c : N) : bool :=
  ((9 <=? c) && (c <=? 13) || (28 <=? c) && (c <=? 32)
   || (c =? 133) || (c =? 160) || (c =? 5760)
   || (8192 <=? c) && (c <=? 8202)
   || (c =? 8232) || (c =? 8233) || (c =? 8239) || (c =? 8287) || (c =? 12288))%N.

(** [re.split(r'[...]', text)]: the pieces between delimiters, empty ones
    included. *)
Fixpoint re_split (text : Text) : list Text :=
  match text with
  | [] => [[]]
  | c :: rest =>
      if is_delimiter c then [] :: re_split rest
      else match re_split rest with
           | piece :: pieces => (c :: piece) :: pieces
           | [] => [[c]]
           end
  end.

Fixpoint lstrip (s : Text) : Text :=
  match s with
  | c :: s' => if is_space c then lstrip s' else s
  | [] => []
  end.

Definition rstrip (s : Text) : Text := rev (lstrip (rev s)).

Definition strip (s : Text) : Text := rstrip (lstrip s).

Record Segment := {
  seg_id : string;
  content : Text;
  segment_index : nat;
  seg_length : nat;
  created_at : string
}.

(** The three variables of the loop. *)
Definition State : Type := list Segment * Text * nat.

Section Segmenting.

(** The [k]-th identifier drawn, and the timestamp taken with it. *)
Variable uuid4 : nat -> string.
Variable now : nat -> string.

(** The dictionary appended for the text gathered so far. *)
Definition new_segment (current_segment : Text) (segment_id : nat) : KG.Gen Segment :=
  fun n =>
    ({| seg_id := uuid4 n;
        content := strip current_segment;
        segment_index := segment_id;
        seg_length := length current_segment;
        created_at := now n |}, S n).

(** One iteration of the loop over the sentences. *)
Definition step (max_length : Z) (state : State) (sentence : Text) : KG.Gen State :=
  let '(segments, current_segment, segment_id) := state in
  let sentence := strip sentence in
  match sentence with
  | [] => KG.ret state
  | _ =>
      if (Z.of_nat (length (current_segment ++ sentence)) <=? max_length)%Z
      then KG.ret (segments, current_segment ++ (sentence ++ [period]), segment_id)
      else
        match current_segment with
        | [] => KG.ret (segments, sentence ++ [period], segment_id)
        | _ =>
            KG.bind (new_segment current_segment segment_id)
              (fun segment =>
                 KG.ret (segments ++ [segment], sentence ++ [period], S segment_id))
        end
  end.

Definition segment_text (text : Text) (max_length : Z) : KG.Gen (list Segment) :=
  let sentences := re_split text in
  KG.bind (KG.for_each sentences (step max_length) ([], [], 0))
    (fun '(segments, current_segment, segment_id) =>
       match current_segment with
       | [] => KG.ret segments
       | _ =>
           KG.bind (new_segment current_segment segment_id)
             (fun segment => KG.ret (segments ++ [segment]))
       end).

End Segmenting.

(** *** Vocabulary *)

(** The sentences of a text: its pieces, stripped, without the empty ones. *)
Definition sentences (text : Text) : list Text :=
  List.filter (fun s => negb (bool_decide (s = []))) (map strip (re_split text)).

(** A run of sentences as it is written to a segment: each followed by the
    full stop. *)
Definition render (group : list Text) : Text :=
  concat (map (fun s => s ++ [period]) group).

(** A segment holds a group of sentences: it is not empty, its content is
    the group rendered, its length field is the length of its content, and
    it exceeds [max_length + 1] characters only if it is a single
    sentence. *)
Definition holds (max_length : Z) (group : list Text) (segment : Segment) : Prop :=
  group <> []
  /\ content segment = render group
  /\ seg_length segment = length (content segment)
  /\ ((Z.of_nat (seg_length segment) <= max_length + 1)%Z \/ exists s, group = [s]).

(** A sentence that starts with a character that is not a space. *)
Definition proper (s : Text) : Prop :=
  exists c rest, s = c :: rest /\ is_space c = false.

(** A text for the examples: "Ab. cd! e". *)
Definition demo_text : Text := [65; 98; 46; 32; 99; 100; 33; 32; 101]%N.
Definition demo_id (k : nat) : string := "seg-" +:+ pretty k.
Definition demo_now (k : nat) : string := "2024-01-01T00:00:0" +:+ pretty k.

(** *** Stripping *)

Lemma lstrip_head (s : Text) : lstrip s = [] \/ proper (lstrip s).
Proof.
  induction s as [|c s IH]; cbn; [by left|].
  destruct (is_space c) eqn:Hc; [exact IH|]. right. by exists c, s.
Qed.

Lemma lstrip_proper (s : Text) : proper s -> lstrip s = s.
Proof. intros (c & rest & -> & Hc). cbn. by rewrite Hc. Qed.

Lemma lstrip_snoc (s : Text) (c : N) :
  is_space c = false -> lstrip (s ++ [c]) = lstrip s ++ [c].
Proof.
  intros Hc. induction s as [|d s IH]; cbn; [by rewrite Hc|].
  destruct (is_space d); [exact IH|done].
Qed.

Lemma strip_head (s : Text) : strip s = [] \/ proper (strip s).
Proof.
  unfold strip, rstrip.
  destruct (lstrip_head s) as [->|(c & rest & -> & Hc)]; [by left|].
  right. cbn [rev]. rewrite lstrip_snoc by done.
  rewrite rev_app_distr. cbn. by exists c, (rev (lstrip (rev rest))).
Qed.

(** A text that starts and ends with characters that are not spaces is
    left as it is. *)
Lemma strip_id (s body : Text) (c : N) :
  proper s -> s = body ++ [c] -> is_space c = false -> strip s = s.
Proof.
  intros Hs Hbody Hc. unfold strip, rstrip. rewrite (lstrip_proper s) by done.
  rewrite Hbody, rev_app_distr. cbn. rewrite Hc.
  change (c :: rev body) with ([c] ++ rev body).
  by rewrite rev_app_distr, rev_involutive.
Qed.

Lemma render_snoc (group : list Text) (s : Text) :
  render (group ++ [s]) = render group ++ (s ++ [period]).
Proof. unfold render. rewrite map_app, concat_app. cbn. by rewrite app_nil_r. Qed.

Lemma render_nil (group : list Text) : render group = [] -> group = [].
Proof. destruct group as [|[|c s] group]; [done|discriminate..]. Qed.

Lemma strip_render (group : list Text) :
  group <> [] -> Forall proper group -> strip (render group) = render group.
Proof.
  intros Hne Hall.
  destruct group as [|s group]; [done|].
  assert (Hhead : proper (render (s :: group))).
  { apply Forall_cons in Hall as [(c & rest & -> & Hc) _]. by eexists c, _. }
  destruct (exists_last Hne) as (group0 & s0 & Heq).
  apply (strip_id _ (render group0 ++ s0) period); [exact Hhead| |reflexivity].
  by rewrite Heq, render_snoc, <- app_assoc.
Qed.

(** *** The loop *)

Section Facts.

Variable uuid4 : nat -> string.
Variable now : nat -> string.
Variable max_length : Z.
(** The number of identifiers drawn before the call. *)
Variable n0 : nat.

(** The state of the loop after the sentences [done]: the segments hold
    consecutive groups of them, and the text gathered so far is the last,
    unfinished group. *)
Definition inv (done : list Text) (state : State) (n : nat) : Prop :=
  exists groups group,
    done = concat groups ++ group
    /\ Forall2 (holds max_length) groups state.1.1
    /\ Forall proper group
    /\ state.1.2 = render group
    /\ ((Z.of_nat (length state.1.2) <= max_length + 1)%Z \/ length group <= 1)
    /\ state.2 = length state.1.1
    /\ map segment_index state.1.1 = seq 0 (length state.1.1)
    /\ n = n0 + length state.1.1
    /\ map seg_id state.1.1 = map uuid4 (seq n0 (length state.1.1))
    /\ map created_at state.1.1 = map now (seq n0 (length state.1.1)).

Lemma seq_snoc (start len : nat) : seq start (S len) = seq start len ++ [start + len].
Proof. by rewrite seq_S. Qed.

(** Closing the unfinished group. *)
Lemma close_group (done : list Text) (segments : list Segment) (current : Text)
    (segment_id n : nat) :
  inv done (segments, current, segment_id) n ->
  current <> [] ->
  let segment := (new_segment uuid4 now current segment_id n).1 in
  inv done (segments ++ [segment], [], S segment_id) (S n).
Proof.
  intros (groups & group & Hdone & Hholds & Hproper & Hcur & Hbound & Hid & Hidx
          & Hn & Hids & Hnow) Hne segment.
  cbn [fst snd] in *.
  assert (Hgroup : group <> []) by (intros ->; by apply Hne).
  exists (groups ++ [group]), []. cbn [fst snd].
  rewrite length_app. cbn [length]. rewrite Nat.add_1_r.
  split; [by rewrite concat_app; cbn; rewrite !app_nil_r|].
  split.
  { apply Forall2_app; [exact Hholds|]. constructor; [|constructor].
    unfold holds, segment, new_segment. cbn [fst content seg_length].
    rewrite Hcur, strip_render by done.
    split; [exact Hgroup|]. split; [done|]. split; [done|].
    rewrite <- Hcur. destruct Hbound as [Hbound|Hbound]; [by left|right].
    destruct group as [|s [|s' group]]; [done|by exists s|cbn in Hbound; lia]. }
  split; [constructor|]. split; [done|]. split; [right; cbn; lia|].
  split; [lia|].
  rewrite !map_app, !seq_snoc, !map_app, Hidx, Hids, Hnow. cbn.
  subst segment_id n. by repeat split.
Qed.

Lemma step_inv (done : list Text) (state : State) (sentence : Text) (n : nat) :
  inv done state n ->
  inv (done ++ List.filter (fun s => negb (bool_decide (s = []))) [strip sentence])
      (step uuid4 now max_length state sentence n).1
      (step uuid4 now max_length state sentence n).2.
Proof.
  destruct state as [[segments current] segment_id]. intros Hinv.
  unfold step. cbn [List.filter].
  destruct (strip_head sentence) as [Hnil|Hproper].
  { rewrite Hnil. cbn. by rewrite app_nil_r. }
  destruct (strip sentence) as [|c rest] eqn:Hs.
  { destruct Hproper as (? & ? & ? & _). done. }
  rewrite bool_decide_eq_false_2 by done. cbn [negb].
  destruct (Z.leb_spec (Z.of_nat (length (current ++ c :: rest))) max_length)
    as [Hfit|Hover].
  - (* the sentence is added to the text gathered so far *)
    destruct Hinv as (groups & group & Hdone & Hholds & Hgroup & Hcur & Hbound & Hrest).
    cbn [fst snd KG.ret] in *.
    exists groups, (group ++ [c :: rest]). cbn [fst snd].
    split; [by rewrite Hdone, <- app_assoc|].
    split; [exact Hholds|].
    split; [apply Forall_app; split; [exact Hgroup|by repeat constructor]|].
    split; [by rewrite Hcur, render_snoc|].
    split; [|exact Hrest].
    left. rewrite length_app in *. rewrite (length_app (c :: rest)). cbn [length] in *. lia.
  - destruct current as [|d current'] eqn:Hcurrent.
    + (* nothing gathered: the sentence starts the text, however long *)
      destruct Hinv as (groups & group & Hdone & Hholds & Hgroup & Hcur & Hbound & Hrest).
      cbn [fst snd KG.ret] in *.
      symmetry in Hcur. apply render_nil in Hcur as ->.
      exists groups, [c :: rest]. cbn [fst snd].
      split; [by rewrite Hdone, app_nil_r|]. split; [exact Hholds|].
      split; [by repeat constructor|].
      split; [by unfold render; cbn; rewrite app_nil_r|].
      split; [right; cbn; lia|exact Hrest].
    + (* the text gathered becomes a segment, the sentence starts the next *)
      rewrite <- Hcurrent in *.
      assert (Hne : current <> []) by (by rewrite Hcurrent).
      pose proof (close_group done segments current segment_id n Hinv Hne) as Hclosed.
      cbv zeta in Hclosed.
      unfold KG.bind, KG.ret.
      destruct (new_segment uuid4 now current segment_id n) as [segment n'] eqn:Hnew.
      assert (n' = S n) as -> by (by injection Hnew).
      cbn [fst snd] in *.
      destruct Hclosed as (groups & group & Hdone & Hholds & Hgroup & Hcur & Hbound
                           & Hrest).
      cbn [fst snd] in *.
      symmetry in Hcur. apply render_nil in Hcur as ->.
      exists groups, [c :: rest]. cbn [fst snd].
      split; [by rewrite Hdone, app_nil_r|]. split; [exact Hholds|].
      split; [by repeat constructor|].
      split; [by unfold render; cbn; rewrite app_nil_r|].
      split; [right; cbn; lia|exact Hrest].
Qed.

Lemma loop_inv (pieces : list Text) :
  forall (done : list Text) (state : State) (n : nat),
    inv done state n ->
    inv (done ++ List.filter (fun s => negb (bool_decide (s = []))) (map strip pieces))
        (KG.for_each pieces (step uuid4 now max_length) state n).1
        (KG.for_each pieces (step uuid4 now max_length) state n).2.
Proof.
  induction pieces as [|piece pieces IH]; intros done state n Hinv.
  { cbn. by rewrite app_nil_r. }
  cbn [KG.for_each map]. unfold KG.bind.
  pose proof (step_inv done state piece n Hinv) as Hstep.
  destruct (step uuid4 now max_length state piece n) as [state' n'].
  cbn [fst snd] in Hstep. apply IH in Hstep.
  replace (done ++ List.filter _ (strip piece :: map strip pieces))
    with ((done ++ List.filter (fun s => negb (bool_decide (s = []))) [strip piece])
          ++ List.filter (fun s => negb (bool_decide (s = []))) (map strip pieces));
    [exact Hstep|].
  rewrite <- app_assoc. f_equal. cbn [List.filter].
  by destruct (negb _).
Qed.

(** The invariant at the end of [segment_text]. *)
Lemma segment_text_inv (text : Text) :
  let run := segment_text uuid4 now text max_length n0 in
  inv (sentences text) (run.1, [], length run.1) run.2.
Proof.
  assert (Hinit : inv [] ([], [], 0) n0).
  { exists [], []. cbn [fst snd length map seq concat app].
    split; [done|]. split; [constructor|]. split; [constructor|]. split; [done|].
    split; [right; lia|]. split; [done|]. split; [done|]. split; [lia|]. by split. }
  apply (loop_inv (re_split text)) in Hinit. cbn [app] in Hinit.
  fold (sentences text) in Hinit.
  unfold segment_text. cbv zeta. unfold KG.bind.
  destruct (KG.for_each (re_split text) (step uuid4 now max_length) ([], [], 0) n0)
    as [[[segments current] segment_id] n] eqn:Hloop.
  cbn [fst snd] in Hinit.
  destruct current as [|d current'] eqn:Hcurrent.
  - cbn [KG.ret fst snd].
    destruct Hinit as (groups & group & H1 & H2 & H3 & H4 & H5 & H6 & H7 & H8 & H9 & H10).
    exists groups, group. cbn [fst snd] in *. by repeat split.
  - rewrite <- Hcurrent in *.
    assert (Hne : current <> []) by (by rewrite Hcurrent).
    pose proof (close_group _ segments current segment_id n Hinit Hne) as Hclosed.
    cbv zeta in Hclosed. unfold KG.ret.
    destruct (new_segment uuid4 now current segment_id n) as [segment n'] eqn:Hnew.
    assert (n' = S n) as -> by (by injection Hnew).
    cbn [fst snd] in *.
    destruct Hclosed
      as (groups & group & H1 & H2 & H3 & H4 & H5 & H6 & H7 & H8 & H9 & H10).
    exists groups, group. cbn [fst snd] in *. by repeat split.
Qed.

End Facts.

(** *** What [segment_text] returns *)

Lemma render_concat (groups : list (list Text)) :
  render (concat groups) = concat (map render groups).
Proof.
  induction groups as [|g groups IH]; [done|].
  cbn [concat map]. rewrite <- IH. unfold render.
  by rewrite map_app, concat_app.
Qed.

Lemma holds_contents (max_length : Z) (groups : list (list Text))
    (segments : list Segment) :
  Forall2 (holds max_length) groups segments ->
  map content segments = map render groups
  /\ length segments <= length (concat groups).
Proof.
  induction 1 as [|g seg groups segments (Hne & Hcontent & _) _ [IH1 IH2]]; cbn;
    [done|].
  rewrite Hcontent, IH1, length_app. split; [done|].
  destruct g; [done|cbn; lia].
Qed.

Section Results.

Variable uuid4 : nat -> string.
Variable now : nat -> string.

(** X24.  No text is lost and no sentence is cut: the segments hold, in
    order, consecutive non-empty groups of the sentences of the text (its
    pieces between delimiters, stripped, the empty ones left out), each
    sentence followed by a full stop; a segment's length field is the
    length of its content; and a segment is longer than [max_length + 1]
    characters only when it is a single sentence. *)
Theorem segment_text_groups (text : Text) (max_length : Z) (n : nat) :
  let segments := (segment_text uuid4 now text max_length n).1 in
  exists groups,
    concat groups = sentences text
    /\ Forall2 (holds max_length) groups segments
    /\ concat (map content segments) = render (sentences text)
    /\ length segments <= length (sentences text).
Proof.
  intros segments.
  destruct (segment_text_inv uuid4 now max_length n text)
    as (groups & group & Hdone & Hholds & _ & Hcur & _).
  cbn [fst snd] in *. fold segments in Hholds.
  symmetry in Hcur. apply render_nil in Hcur as ->. rewrite app_nil_r in Hdone.
  exists groups. split; [done|]. split; [exact Hholds|].
  destruct (holds_contents max_length groups segments Hholds) as [Hcontents Hlen].
  rewrite Hcontents, Hdone, render_concat. by split.
Qed.

(** X25.  Segments are numbered from 0 in the order they are returned, and
    the [k]-th segment carries the [k]-th identifier and timestamp drawn
    during the call: as many identifiers are drawn as segments are
    returned, and the identifiers are pairwise distinct when the generator
    never repeats itself. *)
Theorem segment_text_numbered (text : Text) (max_length : Z) (n : nat) :
  let run := segment_text uuid4 now text max_length n in
  map segment_index run.1 = seq 0 (length run.1)
  /\ map seg_id run.1 = map uuid4 (seq n (length run.1))
  /\ map created_at run.1 = map now (seq n (length run.1))
  /\ run.2 = n + length run.1
  /\ (Inj (=) (=) uuid4 -> NoDup (map seg_id run.1)).
Proof.
  intros run.
  destruct (segment_text_inv uuid4 now max_length n text)
    as (groups & group & _ & _ & _ & _ & _ & _ & Hidx & Hn & Hids & Hnow).
  cbn [fst snd] in *. fold run in Hidx, Hn, Hids, Hnow.
  split; [exact Hidx|]. split; [exact Hids|]. split; [exact Hnow|]. split; [exact Hn|].
  intros Hinj. rewrite Hids. apply (NoDup_fmap_2 uuid4), NoDup_ListNoDup, seq_NoDup.
Qed.

End Results.

(** "Ab. cd! e" under a limit of three characters: one segment per
    sentence. *)
Lemma segment_text_demo :
  map content (segment_text demo_id demo_now demo_text 3 0).1
  = [[65; 98; 12290]; [99; 100; 12290]; [101; 12290]]%N
  /\ map content (segment_text demo_id demo_now demo_text 512 0).1
     = [[65; 98; 12290; 99; 100; 12290; 101; 12290]]%N.
Proof. by vm_compute. Qed.

End Segmenter.

(** * vector_service.py: building the index that the search reads *)

Module Index.
Import Vector.

(** [vectors.json]: a dictionary from document identifiers to indexes, in
    the order of its keys. *)
Definition Store : Type := list (string * DocVectors).

(** [d[k] = v]: the value of a key that is present is replaced in place, a
    new key goes to the end. *)
Fixpoint dict_set {V} (k : string) (v : V) (d : list (string * V)) : list (string * V) :=
  match d with
  | [] => [(k, v)]
  | (k', v') :: d' =>
      if decide (k' = k) then (k, v) :: d' else (k', v') :: dict_set k v d'
  end.

(** [del d[k]]. *)
Definition dict_del {V} (k : string) (d : list (string * V)) : list (string * V) :=
  List.filter (fun kv => negb (bool_decide (fst kv = k))) d.

(** What [delete_document] (api.py) does to the vector store of a document
    that exists: [if doc_id in vectors_data: del vectors_data[doc_id]]. *)
Definition delete_vectors (doc_id : string) (vectors_data : Store) : Store :=
  if bool_decide (doc_id ∈ map fst vectors_data)
  then dict_del doc_id vectors_data
  else vectors_data.

(** The loop of [embed_text_segments] from index [i]; nothing is returned
    when [embeddings[i]] is out of range. *)
Fixpoint embed_loop (embeddings : list (list Q)) (i : nat) (segments : list Segment)
    : option (list Segment) :=
  match segments with
  | [] => Some []
  | segment :: rest =>
      match embeddings !! i with
      | None => None
      | Some v =>
          let embedded_segment :=
            {| seg_id := seg_id segment;
               seg_content := seg_content segment;
               seg_vector := Some v |} in
          match embed_loop embeddings (S i) rest with
          | None => None
          | Some embedded_segments => Some (embedded_segment :: embedded_segments)
          end
      end
  end.

Section Indexing.

(** [ai_client.get_embeddings(texts)]. *)
Variable get_embeddings : list string -> list (list Q).

Definition embed_text_segments (segments : list Segment) : option (list Segment) :=
  match segments with
  | [] => Some []
  | _ =>
      let texts := map seg_content segments in
      let embeddings := get_embeddings texts in
      embed_loop embeddings 0 segments
  end.

(** The index written for a document and the store after it is saved; the
    keys "total_segments", "created_at" and "index_id" of the index are not
    read by the search and are left out, like "vector_dim" of a segment. *)
Definition create_regulation_index (doc_id : string) (segments : list Segment)
    (vectors_data : Store) : option (DocVectors * Store) :=
  match embed_text_segments segments with
  | None => None
  | Some embedded_segments =>
      let index_data :=
        {| dv_document_id := doc_id; dv_segments := Some embedded_segments |} in
      Some (index_data, dict_set doc_id index_data vectors_data)
  end.

End Indexing.

(** *** Vocabulary and sample data *)

(** The [i]-th segment with the [i]-th vector. *)
Definition embedded_with (embeddings : list (list Q)) (segments : list Segment)
    (i : nat) (e : Segment) : Prop :=
  exists segment v,
    segments !! i = Some segment /\ embeddings !! i = Some v
    /\ e = {| seg_id := seg_id segment; seg_content := seg_content segment;
              seg_vector := Some v |}.

Definition demo_embeddings (texts : list string) : list (list Q) :=
  map (fun _ => [1; 0]%Q) texts.

Definition demo_new_segments : list Segment :=
  [ {| seg_id := "d3-0"; seg_content := "No price fixing"; seg_vector := None |} ].

(** *** Dictionaries *)

Lemma dict_set_keys {V} (k : string) (v : V) (d : list (string * V)) :
  NoDup (map fst d) -> NoDup (map fst (dict_set k v d)).
Proof.
  induction d as [|[k' v'] d IH]; cbn; intros Hnd.
  - repeat constructor. apply not_elem_of_nil.
  - apply NoDup_cons in Hnd as [Hk' Hnd]. case_decide as Heq; cbn.
    + subst k'. by apply NoDup_cons.
    + apply NoDup_cons. split; [|by apply IH].
      intros Hin. apply Hk'. clear -Hin Heq.
      induction d as [|[k0 v0] d IH]; cbn in *.
      * apply list_elem_of_singleton in Hin. by subst.
      * case_decide; cbn in *.
        -- apply elem_of_cons in Hin as [->|Hin]; [done|by right].
        -- apply elem_of_cons in Hin as [->|Hin]; [by left|right; by apply IH].
Qed.

Lemma dict_del_absent {V} (k : string) (d : list (string * V)) :
  k ∉ map fst d -> dict_del k d = d.
Proof.
  intros Hk. unfold dict_del. apply KG.filter_all. intros [k' v'] Hin.
  cbn. rewrite bool_decide_eq_false_2; [done|].
  intros ->. apply Hk. by apply (list_elem_of_fmap_2 fst) in Hin.
Qed.

Lemma dict_del_set {V} (k : string) (v : V) (d : list (string * V)) :
  NoDup (map fst d) -> dict_del k (dict_set k v d) = dict_del k d.
Proof.
  unfold dict_del. induction d as [|[k' v'] d IH]; cbn; intros Hnd.
  - by rewrite bool_decide_eq_true_2.
  - apply NoDup_cons in Hnd as [Hk' Hnd]. case_decide as Heq; cbn.
    + subst k'. by rewrite !bool_decide_eq_true_2.
    + rewrite bool_decide_eq_false_2 by done. cbn. f_equal. by apply IH.
Qed.

Lemma dict_set_elem {V} (k : string) (v : V) (d : list (string * V)) :
  (k, v) ∈ dict_set k v d.
Proof.
  induction d as [|[k' v'] d IH]; cbn; [left|].
  case_decide; [left|by right].
Qed.

Lemma dict_set_key {V} (k : string) (v : V) (d : list (string * V)) :
  k ∈ map fst (dict_set k v d).
Proof. apply (list_elem_of_fmap_2 fst _ (k, v)), dict_set_elem. Qed.

(** The segments of a store in which [k] has been set: those of the other
    documents and those of the new index. *)
Lemma all_segments_set (k : string) (index_data : DocVectors) (d : Store) :
  NoDup (map fst d) ->
  Permutation (all_segments (dict_set k index_data d))
              (all_segments (dict_del k d) ++ default [] (dv_segments index_data)).
Proof.
  unfold all_segments, dict_del.
  induction d as [|[k' v'] d IH]; cbn; intros Hnd.
  - by rewrite app_nil_r.
  - apply NoDup_cons in Hnd as [Hk' Hnd]. case_decide as Heq; cbn.
    + subst k'. rewrite bool_decide_eq_true_2 by done. cbn.
      rewrite (KG.filter_all _ d).
      * apply Permutation_app_comm.
      * intros [k0 v0] Hin. cbn. rewrite bool_decide_eq_false_2; [done|].
        intros ->. apply Hk'. by apply (list_elem_of_fmap_2 fst) in Hin.
    + rewrite bool_decide_eq_false_2 by done. cbn.
      rewrite <- app_assoc. by rewrite IH.
Qed.

Lemma all_segments_set_new (k : string) (index_data : DocVectors) (d : Store) :
  k ∉ map fst d ->
  all_segments (dict_set k index_data d)
  = all_segments d ++ default [] (dv_segments index_data).
Proof.
  unfold all_segments.
  induction d as [|[k' v'] d IH]; cbn; intros Hk; [by rewrite app_nil_r|].
  apply not_elem_of_cons in Hk as [Hne Hk].
  case_decide; [by subst|]. cbn. rewrite <- app_assoc. by rewrite IH.
Qed.

(** *** Embedding *)

Lemma embed_loop_spec (embeddings : list (list Q)) (segments : list Segment) :
  forall i embedded,
    embed_loop embeddings i segments = Some embedded ->
    length embedded = length segments
    /\ forall j e, embedded !! j = Some e ->
         exists segment v,
           segments !! j = Some segment /\ embeddings !! (i + j) = Some v
           /\ e = {| seg_id := seg_id segment; seg_content := seg_content segment;
                     seg_vector := Some v |}.
Proof.
  induction segments as [|segment rest IH]; intros i embedded; cbn [embed_loop].
  { intros [= <-]. split; [done|]. intros j e Hj. by rewrite lookup_nil in Hj. }
  destruct (embeddings !! i) as [v|] eqn:Hv; [|done].
  destruct (embed_loop embeddings (S i) rest) as [embedded'|] eqn:Hrest; [|done].
  intros [= <-]. destruct (IH _ _ Hrest) as [Hlen Hall].
  split; [cbn; by rewrite Hlen|].
  intros [|j] e; cbn.
  - intros [= <-]. exists segment, v. by rewrite Nat.add_0_r.
  - intros Hj. destruct (Hall j e Hj) as (segment' & v' & Hs & Hv' & ->).
    exists segment', v'. split; [done|]. split; [|done].
    by replace (i + S j) with (S i + j) by lia.
Qed.

Lemma embed_loop_total (embeddings : list (list Q)) (segments : list Segment) :
  forall i, i + length segments <= length embeddings ->
    is_Some (embed_loop embeddings i segments).
Proof.
  induction segments as [|segment rest IH]; intros i Hlen; cbn [embed_loop]; [done|].
  cbn [length] in Hlen.
  destruct (lookup_lt_is_Some_2 embeddings i ltac:(lia)) as [v ->].
  destruct (IH (S i) ltac:(lia)) as [embedded' ->]. done.
Qed.

Lemma delete_vectors_del (doc_id : string) (vectors_data : Store) :
  delete_vectors doc_id vectors_data = dict_del doc_id vectors_data.
Proof.
  unfold delete_vectors. case_bool_decide; [done|]. by rewrite dict_del_absent.
Qed.

Section Facts.

Variable get_embeddings : list string -> list (list Q).
Variable get_embedding : string -> list Q.
Variable cosine_similarity : list Q -> list Q -> Q.

Lemma create_regulation_index_inv (doc_id : string) (segments : list Segment)
    (vectors_data : Store) (index_data : DocVectors) (vectors_data' : Store) :
  create_regulation_index get_embeddings doc_id segments vectors_data
  = Some (index_data, vectors_data') ->
  exists embedded,
    index_data = {| dv_document_id := doc_id; dv_segments := Some embedded |}
    /\ vectors_data' = dict_set doc_id index_data vectors_data
    /\ length embedded = length segments
    /\ forall i e, embedded !! i = Some e ->
         embedded_with (get_embeddings (map seg_content segments)) segments i e.
Proof.
  unfold create_regulation_index, embed_text_segments.
  destruct segments as [|segment rest] eqn:Hsegments.
  { intros [= <- <-]. exists [].
    repeat split; try done; intros i e Hi; by rewrite lookup_nil in Hi. }
  rewrite <- Hsegments. cbv zeta.
  destruct (embed_loop _ 0 segments) as [embedded|] eqn:Hloop; [|done].
  intros [= <- <-]. exists embedded.
  destruct (embed_loop_spec _ _ _ _ Hloop) as [Hlen Hall].
  repeat split; try done.
Qed.

(** X26.  When the client returns one vector per text, embedding keeps
    every segment, in order, with its identifier and content, and attaches
    to the [i]-th segment the [i]-th vector returned for the list of all
    contents. *)
Theorem embed_text_segments_spec (segments : list Segment) :
  length (get_embeddings (map seg_content segments)) = length segments ->
  exists embedded,
    embed_text_segments get_embeddings segments = Some embedded
    /\ map seg_id embedded = map seg_id segments
    /\ map seg_content embedded = map seg_content segments
    /\ map seg_vector embedded = map Some (get_embeddings (map seg_content segments)).
Proof.
  intros Hlen. unfold embed_text_segments.
  set (embeddings := get_embeddings (map seg_content segments)) in *.
  assert (Hgen : forall l i,
            i + length l = length embeddings ->
            exists embedded,
              embed_loop embeddings i l = Some embedded
              /\ map seg_id embedded = map seg_id l
              /\ map seg_content embedded = map seg_content l
              /\ map seg_vector embedded = map Some (drop i embeddings)).
  { induction l as [|segment rest IH]; intros i Hi; cbn [embed_loop].
    - exists []. cbn in Hi. rewrite drop_ge by lia. by repeat split.
    - cbn [length] in Hi.
      destruct (lookup_lt_is_Some_2 embeddings i ltac:(lia)) as [v Hv]. rewrite Hv.
      destruct (IH (S i) ltac:(lia)) as (embedded' & -> & Hids & Hcontents & Hvectors).
      eexists. split; [done|]. cbn. rewrite Hids, Hcontents, Hvectors.
      repeat split. by rewrite (drop_S _ _ _ Hv). }
  destruct (Hgen segments 0 ltac:(lia)) as (embedded & Hloop & Hrest).
  rewrite drop_0 in Hrest.
  destruct segments as [|segment rest] eqn:Hsegments; [|by exists embedded].
  cbn in Hloop. injection Hloop as <-. exists []. cbn in *.
  destruct embeddings; [done|discriminate].
Qed.

(** X27.  What is indexed is found: after [create_regulation_index] has
    stored a document, a search that asks for at least as many results as
    there are stored segments returns every segment of the document, with
    its identifier and content, scored by the similarity of the query's
    vector and the vector the segment was given. *)
Theorem indexed_segments_are_found (doc_id : string) (segments : list Segment)
    (vectors_data : Store) (index_data : DocVectors) (vectors_data' : Store)
    (query : string) (top_k : nat) :
  create_regulation_index get_embeddings doc_id segments vectors_data
  = Some (index_data, vectors_data') ->
  total_segments vectors_data' <= top_k ->
  forall i segment,
    segments !! i = Some segment ->
    exists v r,
      get_embeddings (map seg_content segments) !! i = Some v
      /\ r ∈ find_similar_segments get_embedding cosine_similarity vectors_data'
               query top_k
      /\ Vector.segment r
         = {| seg_id := seg_id segment; seg_content := seg_content segment;
              seg_vector := Some v |}
      /\ similarity_score r
         = calculate_similarity cosine_similarity (get_embedding query) v.
Proof.
  intros Hcreate Htotal i segment Hi.
  destruct (create_regulation_index_inv _ _ _ _ _ Hcreate)
    as (embedded & -> & -> & Hlen & Hall).
  destruct (lookup_lt_is_Some_2 embedded i) as [e He].
  { rewrite Hlen. by apply lookup_lt_Some in Hi. }
  destruct (Hall i e He) as (segment' & v & Hi' & Hv & ->).
  assert (segment' = segment) as -> by congruence.
  set (index_data := {| dv_document_id := doc_id; dv_segments := Some embedded |}) in *.
  set (e := {| seg_id := seg_id segment; seg_content := seg_content segment;
               seg_vector := Some v |}) in *.
  exists v, (to_result (calculate_similarity cosine_similarity (get_embedding query) v, e)).
  split; [exact Hv|]. split; [|by split].
  rewrite find_similar_segments_ranked, take_ge.
  2:{ etrans; [apply ranked_length|exact Htotal]. }
  unfold ranked. apply list_elem_of_fmap_2.
  rewrite (sort_desc_perm _).
  unfold similarities. apply list_elem_of_omap. exists e. split; [|done].
  unfold all_segments. apply list_elem_of_In, in_flat_map.
  exists (doc_id, index_data). split.
  - apply list_elem_of_In, dict_set_elem.
  - cbn. apply list_elem_of_lookup_2 in He. by apply list_elem_of_In.
Qed.

(** X28.  Indexing a document replaces what the store held for it: the
    stored segments afterwards are those of the other documents together
    with the document's new ones, one per segment given; deleting the
    document afterwards leaves the store as a deletion would have left it
    before; and for a document that was not stored, indexing appends its
    segments and indexing then deleting restores the store. *)
Theorem reindex_replaces_delete_restores (doc_id : string) (segments : list Segment)
    (vectors_data : Store) (index_data : DocVectors) (vectors_data' : Store) :
  NoDup (map fst vectors_data) ->
  create_regulation_index get_embeddings doc_id segments vectors_data
  = Some (index_data, vectors_data') ->
  let indexed := default [] (dv_segments index_data) in
  NoDup (map fst vectors_data')
  /\ length indexed = length segments
  /\ Permutation (all_segments vectors_data')
                 (all_segments (delete_vectors doc_id vectors_data) ++ indexed)
  /\ delete_vectors doc_id vectors_data' = delete_vectors doc_id vectors_data
  /\ (doc_id ∉ map fst vectors_data ->
      all_segments vectors_data' = all_segments vectors_data ++ indexed
      /\ delete_vectors doc_id vectors_data' = vectors_data).
Proof.
  intros Hnd Hcreate indexed.
  destruct (create_regulation_index_inv _ _ _ _ _ Hcreate)
    as (embedded & Hindex & -> & Hlen & _).
  rewrite !delete_vectors_del.
  split; [by apply dict_set_keys|].
  split; [by unfold indexed; rewrite Hindex|].
  split; [by apply all_segments_set|].
  split; [by apply dict_del_set|].
  intros Hnew. split; [by apply all_segments_set_new|].
  by rewrite dict_del_set, dict_del_absent.
Qed.

End Facts.

(** *** Indexing a third document next to the two of the sample index *)

Lemma embed_text_segments_spec_witness :
  exists embedded,
    embed_text_segments demo_embeddings demo_new_segments = Some embedded
    /\ map seg_id embedded = ["d3-0"]
    /\ map seg_content embedded = ["No price fixing"]
    /\ map seg_vector embedded = [Some [1; 0]%Q].
Proof. apply (embed_text_segments_spec demo_embeddings demo_new_segments). reflexivity. Defined.

Lemma demo_index_keys : NoDup (map fst demo_index).
Proof. apply (bool_decide_unpack _). vm_compute. exact I. Qed.

Lemma indexed_segments_are_found_witness :
  exists index_data vectors_data',
    create_regulation_index demo_embeddings "d3" demo_new_segments demo_index
    = Some (index_data, vectors_data')
    /\ exists v r,
         demo_embeddings (map seg_content demo_new_segments) !! 0 = Some v
         /\ r ∈ find_similar_segments (fun _ => [1; 0]%Q) demo_dot vectors_data' "q" 5
         /\ Vector.segment r
            = {| seg_id := "d3-0"; seg_content := "No price fixing";
                 seg_vector := Some v |}
         /\ similarity_score r
            = calculate_similarity demo_dot [1; 0]%Q v.
Proof.
  destruct (create_regulation_index demo_embeddings "d3" demo_new_segments demo_index)
    as [[index_data vectors_data']|] eqn:Hcreate; [|by vm_compute in Hcreate].
  exists index_data, vectors_data'. split; [reflexivity|].
  apply (indexed_segments_are_found demo_embeddings (fun _ => [1; 0]%Q) demo_dot
           "d3" demo_new_segments demo_index index_data vectors_data' "q" 5 Hcreate
           ltac:(vm_compute in Hcreate; injection Hcreate as _ <-; vm_compute; lia)
           0 {| seg_id := "d3-0"; seg_content := "No price fixing"; seg_vector := None |}
           eq_refl).
Defined.

Lemma reindex_replaces_delete_restores_witness :
  exists index_data vectors_data',
    create_regulation_index demo_embeddings "d3" demo_new_segments demo_index
    = Some (index_data, vectors_data')
    /\ length (all_segments vectors_data') = 5
    /\ delete_vectors "d3" vectors_data' = demo_index.
Proof.
  destruct (create_regulation_index demo_embeddings "d3" demo_new_segments demo_index)
    as [[index_data vectors_data']|] eqn:Hcreate; [|by vm_compute in Hcreate].
  exists index_data, vectors_data'. split; [reflexivity|].
  destruct (reindex_replaces_delete_restores demo_embeddings "d3" demo_new_segments
              demo_index index_data vectors_data' demo_index_keys Hcreate)
    as (_ & Hlen & _ & _ & Hnew).
  destruct Hnew as [Hall Hdel].
  { apply (bool_decide_unpack _). vm_compute. exact I. }
  split; [|exact Hdel].
  rewrite Hall, length_app, Hlen. reflexivity.
Defined.

End Index.

(** ** Graph statistics (knowledge_graph.py, [get_graph_statistics]) *)

Module Statistics.
Import KG.

(** *** Data *)

(** A dictionary of counters, in the order of its keys. *)
Definition Counts : Type := list (string * nat).

(** [d.get(k, dflt)]. *)
Fixpoint dict_get (k : string) (d : Counts) (dflt : nat) : nat :=
  match d with
  | [] => dflt
  | (k', v) :: d' => if decide (k' = k) then v else dict_get k d' dflt
  end.

(** The object [storage.load_knowledge_graph] returns, with the keys it
    has.  The nodes and edges of a stored object carry every key the builder
    writes, so the defaults of [node.get("type", "UNKNOWN")] and
    [edge.get("relation", "UNKNOWN")] are never taken. *)
Record Stored := {
  stored_nodes : option (list Node);
  stored_edges : option (list Edge);
  stored_metadata : option Metadata
}.

(** What [storage.save_knowledge_graph(graph_data)] leaves for the next
    load. *)
Definition saved (graph_data : GraphData) : Stored :=
  {| stored_nodes := Some (nodes graph_data);
     stored_edges := Some (edges graph_data);
     stored_metadata := Some (metadata graph_data) |}.

(** What [storage.load_knowledge_graph] returns when no graph was saved. *)
Definition nothing_saved : Stored :=
  {| stored_nodes := Some []; stored_edges := Some []; stored_metadata := None |}.

(** [not graph_data]: the object has no key at all. *)
Definition is_empty (graph_data : Stored) : bool :=
  match stored_nodes graph_data, stored_edges graph_data, stored_metadata graph_data with
  | None, None, None => true
  | _, _, _ => false
  end.

Record GraphStatistics := {
  stat_total_nodes : nat;
  stat_total_edges : nat;
  node_types : Counts;
  relation_types : Counts;
  stat_metadata : option Metadata
}.

(** *** [get_graph_statistics] *)

Definition get_graph_statistics (load_knowledge_graph : Stored)
    : GraphStatistics + string :=
  let graph_data := load_knowledge_graph in
  if is_empty graph_data then inr "Knowledge graph does not exist"
  else
    let node_types :=
      foldl (fun node_types node =>
               let node_type := n_type node in
               Index.dict_set node_type (dict_get node_type node_types 0 + 1) node_types)
            [] (default [] (stored_nodes graph_data)) in
    let relation_types :=
      foldl (fun relation_types edge =>
               let relation := relation edge in
               Index.dict_set relation (dict_get relation relation_types 0 + 1)
                              relation_types)
            [] (default [] (stored_edges graph_data)) in
    inl {| stat_total_nodes := length (default [] (stored_nodes graph_data));
           stat_total_edges := length (default [] (stored_edges graph_data));
           node_types := node_types;
           relation_types := relation_types;
           stat_metadata := stored_metadata graph_data |}.

(** *** Vocabulary *)

(** How many of the items carry the key [t]. *)
Definition occurrences {A} (key : A -> string) (t : string) (items : list A) : nat :=
  length (filter (fun item => key item = t) items).

(** The counters are those of the items: one entry for each key that
    occurs, holding the number of its occurrences. *)
Definition counts_of {A} (key : A -> string) (items : list A) (counts : Counts) : Prop :=
  NoDup (map fst counts)
  /\ (forall t c, (t, c) ∈ counts <-> 0 < c /\ c = occurrences key t items)
  /\ sum_list (map snd counts) = length items.

(** The five entity types of the builder. *)
Definition known_types : list string := map snd entity_types.

(** *** Counters *)

Lemma dict_get_set (k k' : string) (v dflt : nat) (d : Counts) :
  dict_get k' (Index.dict_set k v d) dflt
  = if decide (k = k') then v else dict_get k' d dflt.
Proof.
  induction d as [|[k0 v0] d IH]; cbn; [done|].
  destruct (decide (k0 = k)) as [->|Hne]; cbn.
  - by destruct (decide (k = k')).
  - destruct (decide (k0 = k')) as [->|Hne']; [|exact IH].
    by rewrite decide_False.
Qed.

Lemma dict_set_elem_inv {V} (k : string) (v : V) (d : list (string * V))
    (kv : string * V) :
  kv ∈ Index.dict_set k v d -> kv = (k, v) \/ kv ∈ d.
Proof.
  induction d as [|[k0 v0] d IH]; cbn.
  - intros Hin. apply list_elem_of_singleton in Hin. by left.
  - case_decide; intros Hin; apply elem_of_cons in Hin as [->|Hin].
    + by left.
    + right. by right.
    + right. by left.
    + destruct (IH Hin); [by left|right; by right].
Qed.

Lemma dict_get_elem (k : string) (c dflt : nat) (d : Counts) :
  NoDup (map fst d) -> (k, c) ∈ d -> dict_get k d dflt = c.
Proof.
  induction d as [|[k0 v0] d IH]; cbn; intros Hnd Hin.
  - by apply elem_of_nil in Hin.
  - apply NoDup_cons in Hnd as [Hk0 Hnd].
    apply elem_of_cons in Hin as [[= -> ->]|Hin].
    + by rewrite decide_True.
    + case_decide as Heq; [|by apply IH].
      subst k0. exfalso. apply Hk0. by apply (list_elem_of_fmap_2 fst) in Hin.
Qed.

Lemma dict_get_found (k : string) (dflt : nat) (d : Counts) :
  dict_get k d dflt <> dflt -> (k, dict_get k d dflt) ∈ d.
Proof.
  induction d as [|[k0 v0] d IH]; cbn; [done|].
  case_decide as Heq; intros Hne.
  - subst k0. by left.
  - right. by apply IH.
Qed.

Lemma sum_count_up (k : string) (d : Counts) :
  sum_list (map snd (Index.dict_set k (dict_get k d 0 + 1) d))
  = sum_list (map snd d) + 1.
Proof.
  induction d as [|[k0 v0] d IH]; cbn; [done|].
  case_decide; cbn; [lia|]. rewrite IH. lia.
Qed.

Lemma occurrences_snoc {A} (key : A -> string) (t : string) (items : list A) (x : A) :
  occurrences key t (items ++ [x])
  = occurrences key t items + (if decide (key x = t) then 1 else 0).
Proof.
  unfold occurrences. rewrite filter_app, length_app. f_equal.
  rewrite filter_cons, filter_nil. by case_decide.
Qed.

Lemma occurrences_elem {A} (key : A -> string) (t : string) (items : list A) :
  0 < occurrences key t items -> exists x, x ∈ items /\ key x = t.
Proof.
  unfold occurrences. intros Hpos.
  destruct (filter (fun item => key item = t) items) as [|x l] eqn:Heq;
    [cbn in Hpos; lia|].
  assert (Hx : x ∈ filter (fun item => key item = t) items) by (rewrite Heq; left).
  apply list_elem_of_filter in Hx as [Hkey Hx]. by exists x.
Qed.

(** The counting loop of [get_graph_statistics]. *)
Lemma counting_loop {A} (key : A -> string) (items : list A) :
  counts_of key items
    (foldl (fun counts item =>
              let t := key item in
              Index.dict_set t (dict_get t counts 0 + 1) counts)
           [] items).
Proof.
  set (step := fun (counts : Counts) (item : A) =>
                 let t := key item in
                 Index.dict_set t (dict_get t counts 0 + 1) counts).
  assert (Hinv : NoDup (map fst (foldl step [] items))
                 /\ (forall t, dict_get t (foldl step [] items) 0
                               = occurrences key t items)
                 /\ (forall t c, (t, c) ∈ foldl step [] items -> 0 < c)
                 /\ sum_list (map snd (foldl step [] items)) = length items).
  { induction items as [|x items IH] using rev_ind.
    - cbn. repeat split; [constructor|].
      intros t c H. by apply elem_of_nil in H.
    - destruct IH as (Hnd & Hget & Hpos & Hsum).
      rewrite foldl_app. cbn [foldl]. unfold step at 1 3 5 7. cbv zeta.
      repeat split.
      + by apply Index.dict_set_keys.
      + intros t. rewrite dict_get_set, occurrences_snoc, <- !Hget.
        case_decide; [by subst|lia].
      + intros t c Hin. apply dict_set_elem_inv in Hin as [[= -> ->]|Hin]; [lia|].
        by apply (Hpos t).
      + rewrite sum_count_up, Hsum, length_app. cbn. lia. }
  destruct Hinv as (Hnd & Hget & Hpos & Hsum).
  repeat split; try done.
  - by apply (Hpos t).
  - rewrite <- Hget. symmetry. by apply dict_get_elem.
  - intros [Hc ->]. rewrite <- Hget. apply dict_get_found. rewrite Hget. lia.
Qed.

(** The keys counted are keys of items. *)
Lemma counts_of_keys {A} (key : A -> string) (items : list A) (counts : Counts)
    (known : list string) :
  counts_of key items counts ->
  Forall (fun item => key item ∈ known) items ->
  map fst counts ⊆ known.
Proof.
  intros (_ & Hcount & _) Hall t Ht.
  apply list_elem_of_fmap in Ht as ([t' c] & -> & Hin). cbn.
  apply Hcount in Hin as [Hpos ->].
  apply occurrences_elem in Hpos as (x & Hx & <-).
  rewrite Forall_forall in Hall. by apply Hall.
Qed.

(** *** The types and relations of a built graph *)

Lemma entity_type_known (category : string) :
  category ∈ Extraction.categories -> entity_type_of category ∈ known_types.
Proof.
  unfold Extraction.categories. cbn. intros H.
  repeat (apply elem_of_cons in H as [->|H];
          [vm_compute; repeat constructor|]).
  by apply elem_of_nil in H.
Qed.

Lemma relation_known (types : string * string) (name : string) :
  (types, name) ∈ relation_table -> name ∈ relation_names.
Proof.
  unfold relation_table. intros H.
  repeat (apply elem_of_cons in H as [[= _ ->]|H]; [repeat constructor|]).
  by apply elem_of_nil in H.
Qed.

Lemma list_remove_sublist (x : Node) (l : list Node) : sublist (list_remove x l) l.
Proof.
  induction l as [|y l IH]; cbn; [done|].
  case_decide; [by apply sublist_cons|by apply sublist_skip].
Qed.

Lemma apply_groups_sublist (groups : list (list Node)) :
  forall (nodes : list Node) (edges : list Edge),
    sublist (apply_groups groups nodes edges).1 nodes.
Proof.
  induction groups as [|g groups IH]; intros nodes edges; cbn [apply_groups]; [done|].
  destruct g as [|main_node others]; [apply IH|]. cbv zeta.
  etrans; [apply IH|].
  clear. revert nodes. induction others as [|o others IHo]; intros nodes; cbn; [done|].
  etrans; [apply IHo|].
  case_bool_decide; [apply list_remove_sublist|done].
Qed.

Lemma merge_keeps_kinds (all_nodes : list Node) (all_edges : list Edge) :
  sublist (_merge_similar_entities all_nodes all_edges).1 all_nodes
  /\ map relation (_merge_similar_entities all_nodes all_edges).2
     = map relation all_edges.
Proof.
  unfold _merge_similar_entities. split; [apply apply_groups_sublist|].
  rewrite apply_groups_edges, map_map. by apply map_ext.
Qed.

Section Built.

Variable uuid4 : nat -> string.
Variable load_segments : string -> list Segment.
Variable extract_legal_entities : string -> Dict string.
Variable re_findall : string -> string -> list string.
Variable re_escape : string -> string.
Variable list_documents : list string.

Lemma extract_entities_typed (doc_id : string) (n : nat) :
  forall kv e,
    kv ∈ (extract_entities_from_document uuid4 load_segments extract_legal_entities
            re_findall re_escape doc_id n).1 ->
    e ∈ kv.2 -> e_type e ∈ known_types.
Proof.
  unfold extract_entities_from_document.
  destruct (load_segments doc_id) as [|seg segs] eqn:Hsegs;
    [intros kv e H; by apply elem_of_nil in H|].
  rewrite <- Hsegs.
  set (I := fun (d : Dict Entity) (_ : nat) =>
         map fst d = Extraction.categories
         /\ forall kv e, kv ∈ d -> e ∈ kv.2 -> e_type e ∈ known_types).
  match goal with
  | |- forall kv e, kv ∈ (for_each ?l ?body ?acc n).1 -> _ =>
      assert (HI : I (for_each l body acc n).1 (for_each l body acc n).2)
  end.
  2:{ by destruct HI as [_ Hall]. }
  apply (for_each_inv I).
  { split; [done|]. intros kv e Hkv He.
    cbn in Hkv. repeat (apply elem_of_cons in Hkv as [->|Hkv];
                        [by apply elem_of_nil in He|]).
    by apply elem_of_nil in Hkv. }
  intros segment d1 c1 Hseg H1.
  apply (for_each_inv I); [exact H1|].
  intros [entity_type entity_list] d2 c2 Hlist H2.
  destruct (dict_has entity_type d2) eqn:Hhas; [|exact H2].
  apply bool_decide_eq_true in Hhas.
  apply (for_each_inv (fun d c => I d c)); [exact H2|].
  intros entity_text d3 c3 Htext [Hkeys Hall].
  unfold bind, uuid, ret. cbn [fst snd]. split.
  { by rewrite Extraction.dict_append_keys. }
  apply (dict_append_elem (fun e => e_type e ∈ known_types)); [|exact Hall].
  destruct H2 as [Hkeys2 _]. rewrite Hkeys2 in Hhas.
  cbn. by apply entity_type_known.
Qed.

Lemma collect_graph_kinds (doc_ids : list string) (n : nat) :
  let gathered :=
    (collect_graph uuid4 load_segments extract_legal_entities
       re_findall re_escape doc_ids n).1 in
  Forall (fun node => n_type node ∈ known_types) gathered.1
  /\ Forall (fun edge => relation edge ∈ relation_names) gathered.2.
Proof.
  cbv zeta. unfold collect_graph.
  apply (for_each_inv
           (fun (g : list Node * list Edge) (_ : nat) =>
              Forall (fun node => n_type node ∈ known_types) g.1
              /\ Forall (fun edge => relation edge ∈ relation_names) g.2)).
  { by split. }
  intros doc_id [all_nodes all_edges] c _ [Hnodes Hedges]. cbn [fst snd] in *.
  unfold bind.
  pose proof (extract_entities_typed doc_id c) as Htyped.
  destruct (extract_entities_from_document uuid4 load_segments extract_legal_entities
              re_findall re_escape doc_id c) as [entities c1].
  cbn [fst snd] in Htyped.
  pose proof (find_relationships_inferred uuid4 entities c1) as Hinf.
  destruct (find_relationships uuid4 entities c1) as [relationships c2].
  cbn [fst snd] in *. unfold ret. cbn [fst snd].
  rewrite nodes_of_entities. split.
  - apply Forall_app. split; [exact Hnodes|].
    apply Forall_forall. intros node Hnode.
    apply list_elem_of_In, in_flat_map in Hnode as (kv & Hkv & Hnode).
    apply list_elem_of_In in Hkv. apply list_elem_of_In in Hnode.
    apply list_elem_of_fmap in Hnode as (e & -> & He). cbn.
    by apply (Htyped kv).
  - apply Forall_app. split; [exact Hedges|].
    eapply Forall_impl; [exact Hinf|].
    intros r (t1 & l1 & e1 & t2 & l2 & e2 & _ & _ & _ & _ & _ & _ & _ & _ & _ & Hrel).
    by apply relation_known in Hrel.
Qed.

Lemma build_graph_kinds (doc_ids : option (list string)) (n : nat) :
  let graph :=
    (build_knowledge_graph uuid4 load_segments extract_legal_entities
       re_findall re_escape list_documents doc_ids n).1 in
  Forall (fun node => n_type node ∈ known_types) (nodes graph)
  /\ Forall (fun edge => relation edge ∈ relation_names) (edges graph)
  /\ total_nodes (metadata graph) = length (nodes graph)
  /\ total_edges (metadata graph) = length (edges graph).
Proof.
  cbv zeta. unfold build_knowledge_graph, bind, ret.
  pose proof (collect_graph_kinds (default list_documents doc_ids) n) as [Hnodes Hedges].
  destruct (collect_graph uuid4 load_segments extract_legal_entities re_findall
              re_escape (default list_documents doc_ids) n) as [collected c].
  cbn [fst snd] in *.
  destruct (merge_keeps_kinds collected.1 collected.2) as [Hsub Hrel].
  destruct (_merge_similar_entities collected.1 collected.2) as [all_nodes all_edges].
  cbn [fst snd nodes edges metadata total_nodes total_edges] in *.
  repeat split.
  - apply Forall_forall. intros node Hnode.
    rewrite Forall_forall in Hnodes. apply Hnodes.
    by apply (elem_of_sublist _ _ _ Hnode).
  - apply Forall_forall. intros e He.
    apply (list_elem_of_fmap_2 relation) in He.
    change (relation e ∈ map relation all_edges) in He. rewrite Hrel in He.
    apply list_elem_of_fmap in He as (e' & -> & He').
    rewrite Forall_forall in Hedges. by apply Hedges.
Qed.

End Built.

(** *** Results *)

(** X29.  On a stored object that has any key, [get_graph_statistics]
    returns statistics: the totals are the numbers of stored nodes and
    edges, the node types are counted once each with the number of nodes of
    that type (a type without nodes has no entry), the relations likewise
    over the edges, the counters of each histogram add up to its total, and
    the stored metadata is passed on. *)
Theorem graph_statistics_count (graph_data : Stored) :
  is_empty graph_data = false ->
  exists s,
    get_graph_statistics graph_data = inl s
    /\ stat_total_nodes s = length (default [] (stored_nodes graph_data))
    /\ stat_total_edges s = length (default [] (stored_edges graph_data))
    /\ counts_of n_type (default [] (stored_nodes graph_data)) (node_types s)
    /\ counts_of relation (default [] (stored_edges graph_data)) (relation_types s)
    /\ stat_metadata s = stored_metadata graph_data.
Proof.
  intros Hkeys. unfold get_graph_statistics. cbv zeta. rewrite Hkeys.
  eexists. split; [reflexivity|].
  cbn [stat_total_nodes stat_total_edges node_types relation_types stat_metadata].
  split; [done|]. split; [done|].
  split; [apply (counting_loop n_type)|].
  split; [apply (counting_loop relation)|done].
Qed.

Lemma graph_statistics_count_witness :
  exists s,
    get_graph_statistics (saved demo_graph) = inl s
    /\ stat_total_nodes s = length (default [] (stored_nodes (saved demo_graph)))
    /\ stat_total_edges s = length (default [] (stored_edges (saved demo_graph)))
    /\ counts_of n_type (default [] (stored_nodes (saved demo_graph))) (node_types s)
    /\ counts_of relation (default [] (stored_edges (saved demo_graph)))
                 (relation_types s)
    /\ stat_metadata s = stored_metadata (saved demo_graph).
Proof. apply (graph_statistics_count (saved demo_graph)). reflexivity. Defined.

Section Composition.

Variable uuid4 : nat -> string.
Variable load_segments : string -> list Segment.
Variable extract_legal_entities : string -> Dict string.
Variable re_findall : string -> string -> list string.
Variable re_escape : string -> string.
Variable list_documents : list string.

(** X30.  The statistics of a graph [build_knowledge_graph] has saved agree
    with the metadata written at build time: the totals are the recorded
    numbers of nodes and edges (counted after the merge step), the counters
    of the two histograms add up to them, every node type counted is one of
    the five entity types (never "UNKNOWN"), and every relation counted is
    one of the six names of the relation table. *)
Theorem built_graph_statistics (doc_ids : option (list string)) (n : nat) :
  let graph :=
    (build_knowledge_graph uuid4 load_segments extract_legal_entities
       re_findall re_escape list_documents doc_ids n).1 in
  exists s,
    get_graph_statistics (saved graph) = inl s
    /\ stat_metadata s = Some (metadata graph)
    /\ stat_total_nodes s = total_nodes (metadata graph)
    /\ stat_total_edges s = total_edges (metadata graph)
    /\ sum_list (map snd (node_types s)) = total_nodes (metadata graph)
    /\ sum_list (map snd (relation_types s)) = total_edges (metadata graph)
    /\ map fst (node_types s) ⊆ known_types
    /\ ("UNKNOWN" ∉ map fst (node_types s))
    /\ map fst (relation_types s) ⊆ relation_names.
Proof.
  intros graph.
  destruct (build_graph_kinds uuid4 load_segments extract_legal_entities re_findall
              re_escape list_documents doc_ids n) as (Hnodes & Hedges & Hn & He).
  fold graph in Hnodes, Hedges, Hn, He.
  pose proof (counting_loop n_type (nodes graph)) as Hcn.
  pose proof (counting_loop relation (edges graph)) as Hce.
  eexists. split; [reflexivity|].
  cbn [stat_total_nodes stat_total_edges node_types relation_types stat_metadata
       saved stored_nodes stored_edges stored_metadata default].
  assert (Htypes := counts_of_keys _ _ _ _ Hcn Hnodes).
  repeat split; try done.
  - destruct Hcn as (_ & _ & Hsum). rewrite Hn. exact Hsum.
  - destruct Hce as (_ & _ & Hsum). rewrite He. exact Hsum.
  - intros Hun. apply Htypes in Hun. revert Hun.
    apply (bool_decide_unpack _). by vm_compute.
  - exact (counts_of_keys _ _ _ _ Hce Hedges).
Qed.

End Composition.

End Statistics.
